(** * Canvas engine and topology dispatch of the workflow playground

    A shallow embedding of the playground page (graph state, pattern
    matcher, dispatcher) and of the workspace component (viewport, panning,
    node and connection dragging, port anchors, edge curves), followed by
    the properties proved about them.

    Conventions of the embedding:
    - JavaScript strings are [string]s of UTF-8 bytes; the arrow of the
      connection keys is the three-byte sequence of U+2192.
    - JavaScript numbers are real numbers ([R]): the arithmetic is exact and
      [NaN] and the infinities have no counterpart, except [Infinity] as the
      starting value of a minimum search, which is an [option].
    - React state updates are queues of [SetStateAction]s applied when the
      handler returns; an effect runs after the commit when one of its
      dependencies changed. *)

From Stdlib Require Import Reals Lra List String Ascii Bool Arith Lia.
From Stdlib Require Import DecimalString DecimalNat DecimalFacts.
From stdpp Require Import gmap strings.
Import ListNotations.
Open Scope string_scope.

(** ** JavaScript string and array primitives used by the sources *)

Module Js.

(** The separator of [`${a}→${b}`] and of [split('→')]. *)
Definition arrow : string := "→".

(** [toLowerCase] on the ASCII range; other bytes are left as they are
    (every kind and port name of the catalogs is ASCII). *)
Definition lowerChar (c : ascii) : ascii :=
  let n := nat_of_ascii c in
  if (65 <=? n)%nat && (n <=? 90)%nat then ascii_of_nat (n + 32) else c.

Fixpoint toLowerCase (s : string) : string :=
  match s with
  | EmptyString => EmptyString
  | String c s' => String (lowerChar c) (toLowerCase s')
  end.

(** [s.startsWith(p)] *)
Fixpoint startsWith (s p : string) {struct p} : bool :=
  match p, s with
  | EmptyString, _ => true
  | String _ _, EmptyString => false
  | String a p', String b s' => Ascii.eqb a b && startsWith s' p'
  end.

(** [s.includes(sub)] *)
Fixpoint includes (s sub : string) : bool :=
  match s with
  | EmptyString => startsWith s sub
  | String _ s' => startsWith s sub || includes s' sub
  end.

(** [s.split(sep)] for a non-empty separator: [skip] counts the bytes of
    a separator occurrence still to be passed over, [acc] is the piece
    being read. *)
Fixpoint splitGo (sep s : string) (skip : nat) (acc : string) : list string :=
  match s with
  | EmptyString => [acc]
  | String c s' =>
      match skip with
      | S k => splitGo sep s' k acc
      | O =>
          if startsWith s sep
          then acc :: splitGo sep s' (String.length sep - 1) EmptyString
          else splitGo sep s' 0 (acc ++ String c EmptyString)
      end
  end.

Definition split (sep s : string) : list string := splitGo sep s 0 EmptyString.

(** [arr.join(sep)] *)
Fixpoint join (sep : string) (l : list string) : string :=
  match l with
  | [] => EmptyString
  | [s] => s
  | s :: rest => s ++ sep ++ join sep rest
  end.

(** [[...new Set(arr)]]: the distinct elements in order of first
    occurrence. *)
Definition uniq (l : list string) : list string :=
  fold_left (fun seen s => if existsb (String.eqb s) seen then seen else (seen ++ [s])%list) l [].

(** [arr.sort()] with the default comparator (code-unit order, which is
    byte order on ASCII). *)
Fixpoint insertSorted (s : string) (l : list string) : list string :=
  match l with
  | [] => [s]
  | h :: t => if String.leb s h then s :: l else h :: insertSorted s t
  end.

Definition sort (l : list string) : list string := fold_right insertSorted [] l.

(** [arr.every((v, index) => v === other[index])] *)
Definition everyAtIndex (l other : list string) : bool :=
  forallb
    (fun '(index, v) =>
       match nth_error other index with
       | Some w => String.eqb v w
       | None => false
       end)
    (combine (seq 0 (length l)) l).

(** Truthiness of a string: non-empty. *)
Definition truthy (s : string) : bool := negb (String.eqb s EmptyString).

(** [`${Date.now()}`]: the decimal rendering of a clock reading. *)
Definition dateNow (now : nat) : string := NilZero.string_of_uint (Nat.to_uint now).

End Js.

(** ** Data model (types/nodeTypes as used by the two components) *)

Record Position := mkPosition { pos_x : R; pos_y : R }.

(** What the [value] of a field holds once it is set: the text typed,
    chosen or dictated, or the [File] picked in a file input, of which the
    page reads the name and the size. *)
Inductive FieldValue :=
  | TextValue (text : string)
  | FileValue (name : string) (size : nat).

Record NodeField := mkField {
  f_id : string;
  f_name : string;
  f_type : string;
  f_fieldType : string;
  f_value : option FieldValue;
  f_options : option (list string);
  f_display : option bool
}.

Record NodeData := mkNode {
  n_id : string;
  n_type : string;
  n_position : Position;
  n_label : string;
  n_inputs : list NodeField;
  n_outputs : list NodeField
}.

Record EdgeData := mkEdge {
  e_id : string;
  e_source : string;
  e_sourceHandle : string;
  e_target : string;
  e_targetHandle : string
}.

(** ** The static pattern catalog (utils/workflowPatterns.ts) *)

Record ConnectionPattern := mkConn {
  nodeConnection : string;
  portConnection : string
}.

Record WorkflowPattern := mkPattern {
  p_id : string;
  p_name : string;
  requiredNodeTypes : list string;
  p_connections : list ConnectionPattern;
  endpoint : string
}.

Definition workflowPatterns : list WorkflowPattern :=
  [
    mkPattern "email-marketing" "Email Marketing Workflow"
      ["File-Input-Tool"; "CSV-Agent"; "Text-Input-Tool"; "Text-Agent"; "Email-Tool"; "End"]
      [ mkConn "File-Input-Tool→CSV-Agent" "File→File";
         mkConn "CSV-Agent→Text-Agent" "Personal Description→Tools";
         mkConn "CSV-Agent→Email-Tool" "Receiver Emails→Receiver Emails";
         mkConn "Text-Input-Tool→Text-Agent" "Text→Instructions";
         mkConn "Text-Agent→Email-Tool" "Output→Email Description";
         mkConn "Email-Tool→End" "Status→End" ]
      "http://localhost:8000/workflow_agent";
    mkPattern "marketing-cold-caller" "Marketing Cold Caller Workflow"
      ["File-Input-Tool"; "CSV-Agent"; "Voice-Agent"; "WhatsApp-Tool"; "End"]
      [ mkConn "File-Input-Tool→CSV-Agent" "File→File";
         mkConn "WhatsApp-Tool→Voice-Agent" "Output→Tools";
         mkConn "CSV-Agent→Voice-Agent" "Personal Description→Instructions";
         mkConn "Voice-Agent→End" "Output→End" ]
      "http://localhost:8000/voice_agent";
    mkPattern "csv-agent" "CSV Agent Workflow"
      ["CSV-Agent"; "File-Input-Tool"; "Text-Input-Tool"; "End"]
      [ mkConn "File-Input-Tool→CSV-Agent" "File→File";
         mkConn "Text-Input-Tool→CSV-Agent" "Text→Query";
         mkConn "CSV-Agent→End" "Output→End" ]
      "http://localhost:8000/csv_agent";
    mkPattern "web-search" "Web Search Workflow"
      ["Web-Search-Tool"; "Text-Agent"; "Text-Input-Tool"; "End"]
      [ mkConn "Text-Input-Tool→Text-Agent" "Text→Query";
         mkConn "Web-Search-Tool→Text-Agent" "Tool→Tools";
         mkConn "Text-Agent→End" "Output→End" ]
      "http://localhost:8000/web_agent";
    mkPattern "rag" "RAG Workflow"
      ["Text-Agent"; "Text-Input-Tool"; "Knowledge-Base"; "End"]
      [ mkConn "Text-Input-Tool→Text-Agent" "Text→Query";
         mkConn "Knowledge-Base→Text-Agent" "Content→Tools";
         mkConn "Text-Agent→End" "Output→End" ]
      "http://localhost:8000/rag_agent";
    mkPattern "text-agent" "Text Agent Workflow"
      ["Text-Agent"; "Text-Input-Tool"; "End"]
      [ mkConn "Text-Input-Tool→Text-Agent" "Text→Query";
         mkConn "Text-Agent→End" "Output→End" ]
      "http://localhost:8000/text_agent";
    mkPattern "zoom-tool" "Zoom Agent"
      ["Zoom-Tool"; "End"]
      [ mkConn "Zoom-Tool→End" "Output→End" ]
      "http://localhost:8000/zoom_agent";
    mkPattern "arxiv-search" "ArXiv Search"
      ["ArXiv-Search"; "End"]
      [ mkConn "ArXiv-Search→End" "Papers→End" ]
      "http://localhost:8000/component/arxiv";
    mkPattern "hackernews-search" "HackerNews Search"
      ["HackerNews-Search"; "End"]
      [ mkConn "HackerNews-Search→End" "Stories→End" ]
      "http://localhost:8000/component/hackernews";
    mkPattern "pandas-data" "Pandas Data Analysis"
      ["Pandas-Data"; "End"]
      [ mkConn "Pandas-Data→End" "Analysis→End" ]
      "http://localhost:8000/component/pandas";
    mkPattern "duckdb-sql" "DuckDB SQL Analysis"
      ["DuckDB-SQL"; "End"]
      [ mkConn "DuckDB-SQL→End" "SQL Results→End" ]
      "http://localhost:8000/component/duckdb";
    mkPattern "calculator" "Calculator"
      ["Calculator"; "End"]
      [ mkConn "Calculator→End" "Result→End" ]
      "http://localhost:8000/component/calculator";
    mkPattern "text-processor" "Text Processor"
      ["Text-Processor"; "End"]
      [ mkConn "Text-Processor→End" "Processed Text→End" ]
      "http://localhost:8000/component/textprocessor";
    mkPattern "json-processor" "JSON Processor"
      ["JSON-Processor"; "End"]
      [ mkConn "JSON-Processor→End" "Processed JSON→End" ]
      "http://localhost:8000/component/json";
    mkPattern "python-code" "Python Code Execution"
      ["Python-Code"; "End"]
      [ mkConn "Python-Code→End" "Execution Result→End" ]
      "http://localhost:8000/component/python";
    mkPattern "file-operations" "File Operations"
      ["File-Operations"; "End"]
      [ mkConn "File-Operations→End" "Result→End" ]
      "http://localhost:8000/component/file";
    mkPattern "web-scraping" "Web Scraping"
      ["Web-Scraping"; "End"]
      [ mkConn "Web-Scraping→End" "Content→End" ]
      "http://localhost:8000/component/webscraping";
    mkPattern "wikipedia" "Wikipedia Research"
      ["Wikipedia"; "End"]
      [ mkConn "Wikipedia→End" "Information→End" ]
      "http://localhost:8000/component/wikipedia";
    mkPattern "youtube" "YouTube Analysis"
      ["YouTube"; "End"]
      [ mkConn "YouTube→End" "Analysis→End" ]
      "http://localhost:8000/component/youtube";
    mkPattern "financial-analysis" "Financial Analysis"
      ["Financial-Analysis"; "End"]
      [ mkConn "Financial-Analysis→End" "Analysis→End" ]
      "http://localhost:8000/component/financial";
    mkPattern "local-filesystem" "Local File System"
      ["Local-FileSystem"; "End"]
      [ mkConn "Local-FileSystem→End" "Result→End" ]
      "http://localhost:8000/component/localfs"
  ].

(** ** The node-kind catalog ([nodeTemplates] of the playground page) *)

Record NodeTemplate := mkTemplate {
  t_inputs : list NodeField;
  t_outputs : list NodeField
}.

(** A catalog port: no value yet. *)
Definition port (id name type fieldType : string)
    (options : option (list string)) (display : option bool) : NodeField :=
  mkField id name type fieldType None options display.

Definition nodeTemplates : list (string * NodeTemplate) :=
  [
    ("End", mkTemplate
         [port "input-1" "End" "none" "input" None None]
         []);
    ("Text-Agent", mkTemplate
         [port "input-1" "Tools" "tool" "none" None None;
          port "input-2" "Instructions" "string" "input" None None;
          port "input-3" "Query" "none" "input" None None;
          port "input-4" "LLM" "string" "input" (Some ["Groq"; "Gemini"]) None;
          port "input-5" "API Key" "string" "input" None None]
         [port "output-1" "Output" "string" "output" None None]);
    ("Voice-Agent", mkTemplate
         [port "input-1" "Tools" "tool" "none" None None;
          port "input-2" "STT" "string" "input" (Some ["OpenAI"; "Google"; "Azure"; "Assembly AI"]) None;
          port "input-3" "TTS" "string" "input" (Some ["OpenAI"; "ElevenLabs"; "Deepgram"; "Google"]) None;
          port "input-4" "Language" "string" "input" None None;
          port "input-5" "Instructions" "none" "input" None None;
          port "input-6" "To Phone Number" "string" "input" None None]
         [port "output-1" "Output" "string" "output" None None]);
    ("CSV-Agent", mkTemplate
         [port "input-1" "File" "none" "input" None None;
          port "input-2" "Instructions" "string" "input" None None;
          port "input-3" "Query" "string" "input" None None]
         [port "output-1" "Personal Description" "string" "output" None None;
          port "output-2" "Receiver Emails" "string" "output" None None;
          port "output-3" "Output" "string" "output" None None]);
    ("Email-Tool", mkTemplate
         [port "input-1" "Sender Mail" "string" "input" None None;
          port "input-2" "Passkey" "string" "input" None None;
          port "input-3" "Sender's Name" "string" "input" None None;
          port "input-4" "Receiver Emails" "none" "input" None None;
          port "input-5" "Email Description" "none" "input" None None]
         [port "output-1" "Status" "string" "output" None None]);
    ("Text-Input-Tool", mkTemplate
         [port "input-1" "Text" "string" "input" None None]
         [port "output-1" "Text" "string" "output" None None]);
    ("File-Input-Tool", mkTemplate
         [port "input-1" "File" "file" "input" None None]
         [port "output-1" "File" "file" "output" None None]);
    ("Text-Output-Tool", mkTemplate
         [port "input-1" "Text" "string" "input" None None]
         [port "output-1" "Output" "string" "output" None (Some true)]);
    ("Knowledge-Base", mkTemplate
         [port "input-1" "File" "file" "input" None None]
         [port "output-1" "Content" "string" "output" None (Some false)]);
    ("Web-Search-Tool", mkTemplate
         []
         [port "output-1" "Tool" "string" "output" None (Some false)]);
    ("WhatsApp-Tool", mkTemplate
         []
         [port "output-1" "Output" "string" "output" None (Some false)]);
    ("Zoom-Tool", mkTemplate
         [port "input-1" "Query" "string" "input" None None]
         [port "output-1" "Output" "string" "output" None (Some false)]);
    ("ArXiv-Search", mkTemplate
         [port "input-1" "Query" "string" "input" None None;
          port "input-2" "LLM" "string" "input" (Some ["Groq"; "Gemini"]) None]
         [port "output-1" "Papers" "string" "output" None None]);
    ("HackerNews-Search", mkTemplate
         [port "input-1" "Query" "string" "input" None None;
          port "input-2" "LLM" "string" "input" (Some ["Groq"; "Gemini"]) None]
         [port "output-1" "Stories" "string" "output" None None]);
    ("Web-Search", mkTemplate
         [port "input-1" "Query" "string" "input" None None;
          port "input-2" "Search Engine" "string" "input" (Some ["google"; "duckduckgo"]) None;
          port "input-3" "LLM" "string" "input" (Some ["Groq"; "Gemini"]) None]
         [port "output-1" "Results" "string" "output" None None]);
    ("Pandas-Data", mkTemplate
         [port "input-1" "Query" "string" "input" None None;
          port "input-2" "LLM" "string" "input" (Some ["Groq"; "Gemini"]) None]
         [port "output-1" "Analysis" "string" "output" None None]);
    ("DuckDB-SQL", mkTemplate
         [port "input-1" "Query" "string" "input" None None;
          port "input-2" "LLM" "string" "input" (Some ["Groq"; "Gemini"]) None]
         [port "output-1" "SQL Results" "string" "output" None None]);
    ("Calculator", mkTemplate
         [port "input-1" "Expression" "string" "input" None None;
          port "input-2" "LLM" "string" "input" (Some ["Groq"; "Gemini"]) None]
         [port "output-1" "Result" "number" "output" None None]);
    ("JSON-Processor", mkTemplate
         [port "input-1" "JSON Data" "string" "input" None None;
          port "input-2" "Operation" "string" "input" None None;
          port "input-3" "LLM" "string" "input" (Some ["Groq"; "Gemini"]) None]
         [port "output-1" "Result" "string" "output" None None]);
    ("Python-Code", mkTemplate
         [port "input-1" "Code Request" "string" "input" None None;
          port "input-2" "LLM" "string" "input" (Some ["Groq"; "Gemini"]) None]
         [port "output-1" "Execution Result" "string" "output" None None]);
    ("File-Operations", mkTemplate
         [port "input-1" "Operation" "string" "input" None None;
          port "input-2" "LLM" "string" "input" (Some ["Groq"; "Gemini"]) None]
         [port "output-1" "Result" "string" "output" None None]);
    ("Text-Processor", mkTemplate
         [port "input-1" "Text" "string" "input" None None;
          port "input-2" "LLM" "string" "input" (Some ["Groq"; "Gemini"]) None]
         [port "output-1" "Processed Text" "string" "output" None None]);
    ("Web-Scraping", mkTemplate
         [port "input-1" "URL" "string" "input" None None;
          port "input-2" "LLM" "string" "input" (Some ["Groq"; "Gemini"]) None]
         [port "output-1" "Content" "string" "output" None None]);
    ("Wikipedia", mkTemplate
         [port "input-1" "Topic" "string" "input" None None;
          port "input-2" "LLM" "string" "input" (Some ["Groq"; "Gemini"]) None]
         [port "output-1" "Information" "string" "output" None None]);
    ("YouTube", mkTemplate
         [port "input-1" "Video Query" "string" "input" None None;
          port "input-2" "LLM" "string" "input" (Some ["Groq"; "Gemini"]) None]
         [port "output-1" "Analysis" "string" "output" None None]);
    ("Financial-Analysis", mkTemplate
         [port "input-1" "Symbol/Query" "string" "input" None None;
          port "input-2" "LLM" "string" "input" (Some ["Groq"; "Gemini"]) None]
         [port "output-1" "Analysis" "string" "output" None None])
  ].

(** ** React state updates *)

(** The argument of a [useState] setter: a value, or an updater applied to
    the pending state. *)
Inductive SetStateAction (A : Type) : Type :=
  | SetValue (a : A)
  | SetUpdater (f : A -> A).
Arguments SetValue {A} a.
Arguments SetUpdater {A} f.

Definition applyAction {A : Type} (s : A) (act : SetStateAction A) : A :=
  match act with
  | SetValue a => a
  | SetUpdater f => f s
  end.

(** The queue a handler leaves behind is applied in order when it returns:
    of several [SetValue]s the last one wins. *)
Definition applyQueue {A : Type} (s : A) (queue : list (SetStateAction A)) : A :=
  fold_left applyAction queue s.

(** ** The playground page: graph state, matcher, dispatcher *)

Module Playground.

(** [const [nodes, setNodes] = useState([])],
    [const [edges, setEdges] = useState([])] *)
Record State := mkState {
  nodes : list NodeData;
  edges : list EdgeData
}.

Definition initial : State := mkState [] [].

(** What a handler or an effect enqueues. *)
Record Updates := mkUpdates {
  nodeUpdates : list (SetStateAction (list NodeData));
  edgeUpdates : list (SetStateAction (list EdgeData))
}.

Definition noUpdates : Updates := mkUpdates [] [].

Definition commit (st : State) (u : Updates) : State :=
  mkState (applyQueue (nodes st) (nodeUpdates u))
          (applyQueue (edges st) (edgeUpdates u)).

(** [nodeIds.has(id)] for [nodeIds = new Set(nodes.map(n => n.id))] *)
Definition hasNodeId (nodes : list NodeData) (id : string) : bool :=
  existsb (fun n => String.eqb (n_id n) id) nodes.

(** The effect "Clean up invalid edges when nodes change". *)
Definition cleanupEffect (st : State) : Updates :=
  let invalidEdges :=
    List.filter (fun edge => negb (hasNodeId (nodes st) (e_source edge))
                        || negb (hasNodeId (nodes st) (e_target edge)))
           (edges st) in
  if (0 <? length invalidEdges)%nat then
    let validEdges :=
      List.filter (fun edge => hasNodeId (nodes st) (e_source edge)
                          && hasNodeId (nodes st) (e_target edge))
             (edges st) in
    mkUpdates [] [SetValue validEdges]
  else noUpdates.

(** Its dependency array, [[nodes.length, nodes.map(n => n.id).join(',')]]. *)
Definition cleanupDeps (st : State) : nat * string :=
  (length (nodes st), Js.join "," (map n_id (nodes st))).

Definition depsChanged (prev next : State) : bool :=
  negb ((fst (cleanupDeps prev) =? fst (cleanupDeps next))%nat
        && String.eqb (snd (cleanupDeps prev)) (snd (cleanupDeps next))).

(** The render that follows a handler: [rendered] is the state committed
    by the handler, [prev] the one rendered before it.  The cleanup effect
    runs when its dependencies changed, and its update is committed by the
    next render (whose dependencies are then unchanged). *)
Definition settle (prev rendered : State) : State :=
  if depsChanged prev rendered
  then commit rendered (cleanupEffect rendered)
  else rendered.

(** [nodeTemplates[nodeType]] *)
Definition lookupTemplate (nodeType : string) : option NodeTemplate :=
  option_map snd (find (fun kv => String.eqb (fst kv) nodeType) nodeTemplates).

(** [{ ...field, id: `${field.id}-${Date.now()}` }] *)
Definition stampField (now : nat) (field : NodeField) : NodeField :=
  mkField (f_id field ++ "-" ++ Js.dateNow now) (f_name field) (f_type field)
          (f_fieldType field) (f_value field) (f_options field) (f_display field).

(** [handleAddNode]: [viewportCenter] is what [getCurrentViewportCenter]
    reads from the DOM; an unknown kind raises before [setNodes]. *)
Definition handleAddNode (st : State) (nodeType : string)
    (viewportCenter : Position) (now : nat) : Updates :=
  match lookupTemplate nodeType with
  | None => noUpdates
  | Some template =>
      let newNode :=
        mkNode ("node-" ++ Js.dateNow now) nodeType
               (mkPosition (pos_x viewportCenter) (pos_y viewportCenter))
               nodeType
               (map (stampField now) (t_inputs template))
               (map (stampField now) (t_outputs template)) in
      mkUpdates [SetValue (nodes st ++ [newNode])%list] []
  end.

(** [nodeType.charAt(0).toUpperCase() + nodeType.slice(1)] on ASCII *)
Definition capitalize (s : string) : string :=
  match s with
  | EmptyString => EmptyString
  | String c rest =>
      let n := nat_of_ascii c in
      String (if (97 <=? n)%nat && (n <=? 122)%nat then ascii_of_nat (n - 32) else c) rest
  end.

(** [handleNodeDrop] *)
Definition handleNodeDrop (nodeType : string) (position : Position) (now : nat) : Updates :=
  match lookupTemplate nodeType with
  | None => noUpdates
  | Some template =>
      let newNode :=
        mkNode ("node-" ++ Js.dateNow now) nodeType position
               (capitalize nodeType)
               (map (stampField now) (t_inputs template))
               (map (stampField now) (t_outputs template)) in
      mkUpdates [SetUpdater (fun prevNodes => (prevNodes ++ [newNode])%list)] []
  end.

(** [handleAddEdge]: [edges] is the list the handler closed over. *)
Definition sameTuple (e edge : EdgeData) : bool :=
  String.eqb (e_source e) (e_source edge) && String.eqb (e_target e) (e_target edge)
  && String.eqb (e_sourceHandle e) (e_sourceHandle edge)
  && String.eqb (e_targetHandle e) (e_targetHandle edge).

Definition handleAddEdge (edges : list EdgeData) (edge : EdgeData) (now : nat) : Updates :=
  let edgeExists := existsb (fun e => sameTuple e edge) edges in
  if negb edgeExists then
    mkUpdates []
      [SetValue (edges ++ [mkEdge ("edge-" ++ Js.dateNow now) (e_source edge)
                             (e_sourceHandle edge) (e_target edge) (e_targetHandle edge)])%list]
  else noUpdates.

(** [handleRemoveEdge] *)
Definition handleRemoveEdge (edges : list EdgeData) (edgeId : string) : Updates :=
  mkUpdates [] [SetValue (List.filter (fun edge => negb (String.eqb (e_id edge) edgeId)) edges)].

(** *** Pattern matcher *)

(** [nodes.find(n => n.id === id)] *)
Definition findNode (nodes : list NodeData) (id : string) : option NodeData :=
  find (fun n => String.eqb (n_id n) id) nodes.

(** [fields.find(f => f.id === id)] *)
Definition findField (fields : list NodeField) (id : string) : option NodeField :=
  find (fun f => String.eqb (f_id f) id) fields.

(** The body of [nodes.forEach] that fills [nodeTypeMap]. *)
Definition nodeTypeMapStep (nodeTypeMap : gmap string (list NodeData)) (node : NodeData)
    : gmap string (list NodeData) :=
  let nodeTypeMap1 :=
    match nodeTypeMap !! n_type node with
    | None => <[n_type node := []]> nodeTypeMap
    | Some _ => nodeTypeMap
    end in
  <[n_type node := (default [] (nodeTypeMap1 !! n_type node) ++ [node])%list]> nodeTypeMap1.

(** The body of [edges.forEach] that fills [connections]: an edge whose
    source or target node is missing is skipped; a resolved edge creates
    the entry of its kind pair, and adds its port-name pair when both
    handles resolve. *)
Definition connectionsStep (nodes : list NodeData)
    (connections : gmap string (list string)) (edge : EdgeData)
    : gmap string (list string) :=
  match findNode nodes (e_source edge), findNode nodes (e_target edge) with
  | Some sourceNode, Some targetNode =>
      let connection := n_type sourceNode ++ Js.arrow ++ n_type targetNode in
      let connections1 :=
        match connections !! connection with
        | None => <[connection := []]> connections
        | Some _ => connections
        end in
      match findField (n_outputs sourceNode) (e_sourceHandle edge),
            findField (n_inputs targetNode) (e_targetHandle edge) with
      | Some sourceOutput, Some targetInput =>
          let conn := f_name sourceOutput ++ Js.arrow ++ f_name targetInput in
          <[connection := (default [] (connections1 !! connection) ++ [conn])%list]>
            connections1
      | _, _ => connections1
      end
  | _, _ => connections
  end.

Definition buildConnections (nodes : list NodeData) (edges : list EdgeData)
    : gmap string (list string) :=
  fold_left (connectionsStep nodes) edges ∅.

(** The callback of [connections[nodeConnection].some]: the first two
    pieces of both strings are compared.  Both strings always contain an
    arrow (lemmas [split_has_two] and [catalog_portConnections_split]), so
    the empty default of a missing piece is never used. *)
Definition connMatches (portConnection conn : string) : bool :=
  let parts := Js.split Js.arrow conn in
  let expected := Js.split Js.arrow portConnection in
  let sourcePort := nth 0 parts EmptyString in
  let targetPort := nth 1 parts EmptyString in
  let expectedSourcePort := nth 0 expected EmptyString in
  let expectedTargetPort := nth 1 expected EmptyString in
  Js.includes (Js.toLowerCase sourcePort) (Js.toLowerCase expectedSourcePort)
  && Js.includes (Js.toLowerCase targetPort) (Js.toLowerCase expectedTargetPort).

(** One turn of [for (const { nodeConnection, portConnection } of
    pattern.connections)]: [false] is the early [return false]. *)
Definition connectionSatisfied (connections : gmap string (list string))
    (c : ConnectionPattern) : bool :=
  match connections !! nodeConnection c with
  | None => false
  | Some conns => existsb (connMatches (portConnection c)) conns
  end.

Definition checkWorkflowPattern (nodes : list NodeData) (edges : list EdgeData)
    (patternId : string) : bool :=
  match find (fun p => String.eqb (p_id p) patternId) workflowPatterns with
  | None => false
  | Some pattern =>
      let patternNodeTypes := Js.sort (requiredNodeTypes pattern) in
      let workflowNodeTypes := Js.sort (Js.uniq (map n_type nodes)) in
      if negb (length patternNodeTypes =? length workflowNodeTypes)%nat
         || negb (Js.everyAtIndex patternNodeTypes workflowNodeTypes)
      then false
      else
        let nodeTypeMap := fold_left nodeTypeMapStep nodes ∅ in
        if negb (forallb
                   (fun type =>
                      match nodeTypeMap !! type with
                      | None => false
                      | Some l => negb (length l =? 0)%nat
                      end)
                   (requiredNodeTypes pattern))
        then false
        else
          let connections := buildConnections nodes edges in
          forallb (connectionSatisfied connections) (p_connections pattern)
  end.

Record Detected := mkDetected { patternId : string; d_endpoint : string }.

Definition detectWorkflowPattern (nodes : list NodeData) (edges : list EdgeData)
    : option Detected :=
  option_map (fun pattern => mkDetected (p_id pattern) (endpoint pattern))
    (find (fun pattern => checkWorkflowPattern nodes edges (p_id pattern)) workflowPatterns).

(** *** Dispatcher: which route [handlePlayClick] takes *)

Inductive Route :=
  | NothingToExecute
  | MissingEndComponent
  | PatternRoute (detected : Detected)
  | DynamicWorkflow (url : string) (validEdges : list EdgeData).

(** [handlePlayClick] up to the choice of the route.  [PatternRoute d]
    says that the switch is entered with [d] as [detectedPattern]; what the
    branch of [d] then does is [switchBranch] below. *)
Definition handlePlayClick (st : State) : Route :=
  if (length (nodes st) =? 0)%nat then NothingToExecute
  else if negb (existsb (fun node => String.eqb (n_type node) "End") (nodes st))
  then MissingEndComponent
  else
    match detectWorkflowPattern (nodes st) (edges st) with
    | Some detected => PatternRoute detected
    | None =>
        DynamicWorkflow "http://localhost:8000/execute_dynamic_workflow"
          (List.filter (fun edge => hasNodeId (nodes st) (e_source edge)
                               && hasNodeId (nodes st) (e_target edge))
                  (edges st))
    end.

(** [nodes.find(node => node.type === kind)]: how the branches of
    [handlePlayClick] pick the node of a kind. *)
Definition findByType (nodes : list NodeData) (kind : string) : option NodeData :=
  find (fun node => String.eqb (n_type node) kind) nodes.

(** *** The branches of the switch *)

(** [node.data.inputs.find(input => input.name === name)] *)
Definition findInput (node : NodeData) (name : string) : option NodeField :=
  find (fun input => String.eqb (f_name input) name) (n_inputs node).

(** [field?.value]: [None] stands for [undefined] and [null]. *)
Definition valueOf (field : option NodeField) : option FieldValue :=
  match field with
  | Some f => f_value f
  | None => None
  end.

(** Truthiness of a value: a [File] is an object, a text is truthy when it
    is not empty. *)
Definition truthyValue (value : option FieldValue) : bool :=
  match value with
  | None => false
  | Some (TextValue text) => Js.truthy text
  | Some (FileValue _ _) => true
  end.

(** [!(fileValue instanceof File) || fileValue.size === 0] *)
Definition notAFileWithContent (value : option FieldValue) : bool :=
  match value with
  | Some (FileValue _ size) => (size =? 0)%nat
  | _ => true
  end.

(** The function a branch calls to issue its request.  [sendJsonRequest],
    [sendFormDataRequest] and the enumeration [ApiEndpoint] are imported
    from types/apiTypes, which is not among the sources: a request to a
    member of the enumeration is recorded by the member's name. *)
Inductive Caller := sendJsonRequest | sendFormDataRequest | fetch.

Inductive Target :=
  | ApiEndpoint (member : string)
  | Url (url : string).

(** How far a branch gets before it waits for the network: the error it
    throws, or the request it issues.  The body of the request and what
    follows the response are not modelled. *)
Inductive Outcome :=
  | Throws (message : string)
  | Requests (caller : Caller) (target : Target).

(** The shape of the branches for the patterns of one component. *)
Definition componentBranch (nodes : list NodeData) (kind message member : string) : Outcome :=
  match findByType nodes kind with
  | None => Throws message
  | Some _ => Requests sendJsonRequest (ApiEndpoint member)
  end.

(** [switch (detectedPattern?.patternId)] for a detected pattern; the last
    line is the [default] branch with [detectedPattern] set. *)
Definition switchBranch (nodes : list NodeData) (detectedPattern : Detected) : Outcome :=
  let id := patternId detectedPattern in
  if String.eqb id "text-agent" then
    match findByType nodes "Text-Agent", findByType nodes "Text-Input-Tool" with
    | Some textAgentNode, Some textInputNode =>
        Requests sendJsonRequest (ApiEndpoint "TextAgent")
    | _, _ => Throws "Missing required nodes for Text Agent workflow"
    end
  else if String.eqb id "csv-agent" then
    match findByType nodes "CSV-Agent", findByType nodes "File-Input-Tool" with
    | Some csvAgentNode, Some fileInputNode =>
        let fileValue := valueOf (findInput fileInputNode "File") in
        if negb (truthyValue fileValue)
        then Throws "No file selected for CSV Agent. Please upload a file."
        else if notAFileWithContent fileValue
        then Throws "Please select a valid CSV file with content (not just a filename)"
        else Requests sendFormDataRequest (ApiEndpoint "CsvAgent")
    | _, _ => Throws "Missing required nodes for CSV Agent workflow"
    end
  else if String.eqb id "rag" then
    match findByType nodes "Text-Agent", findByType nodes "Knowledge-Base",
          findByType nodes "Text-Input-Tool" with
    | Some textAgentNode, Some knowledgeBaseNode, Some textInputNode =>
        let fileValue := valueOf (findInput knowledgeBaseNode "File") in
        if negb (truthyValue fileValue)
        then Throws "No file selected for Knowledge Base"
        else Requests fetch (Url (d_endpoint detectedPattern))
    | _, _, _ => Throws "Missing required nodes for RAG workflow"
    end
  else if String.eqb id "web-search" then
    match findByType nodes "Text-Agent", findByType nodes "Web-Search-Tool",
          findByType nodes "Text-Input-Tool" with
    | Some textAgentNode, Some webSearchNode, Some textInputNode =>
        Requests fetch (Url (d_endpoint detectedPattern))
    | _, _, _ => Throws "Missing required nodes for Web Search workflow"
    end
  else if String.eqb id "marketing-cold-caller" then
    Requests fetch (Url (d_endpoint detectedPattern))
  else if String.eqb id "email-marketing" then
    match findByType nodes "Email-Tool", findByType nodes "File-Input-Tool" with
    | Some emailAgentNode, Some fileInputNode =>
        let csvFile := valueOf (findInput fileInputNode "File") in
        if negb (truthyValue csvFile)
        then Throws "No file selected for Email Marketing workflow"
        else if notAFileWithContent csvFile
        then Throws "Please select a valid CSV file with content (not just a filename)"
        else Requests fetch (ApiEndpoint "WorkflowAgent")
    | _, _ => Throws "Missing required nodes for Email Marketing workflow"
    end
  else if String.eqb id "zoom-tool" then
    componentBranch nodes "Zoom-Tool" "Missing Zoom-Tool node for Zoom Agent workflow"
      "ZoomAgent"
  else if String.eqb id "arxiv-search" then
    componentBranch nodes "ArXiv-Search" "Missing ArXiv-Search node" "ArxivComponent"
  else if String.eqb id "hackernews-search" then
    componentBranch nodes "HackerNews-Search" "Missing HackerNews-Search node"
      "HackerNewsComponent"
  else if String.eqb id "text-processor" then
    componentBranch nodes "Text-Processor" "Missing Text-Processor node"
      "TextProcessorComponent"
  else if String.eqb id "pandas-data" then
    componentBranch nodes "Pandas-Data" "Missing Pandas-Data node" "PandasComponent"
  else if String.eqb id "duckdb-sql" then
    componentBranch nodes "DuckDB-SQL" "Missing DuckDB-SQL node" "DuckDBComponent"
  else if String.eqb id "calculator" then
    componentBranch nodes "Calculator" "Missing Calculator node" "CalculatorComponent"
  else if String.eqb id "json-processor" then
    componentBranch nodes "JSON-Processor" "Missing JSON-Processor node" "JsonComponent"
  else if String.eqb id "python-code" then
    componentBranch nodes "Python-Code" "Missing Python-Code node" "PythonComponent"
  else if String.eqb id "file-operations" then
    componentBranch nodes "File-Operations" "Missing File-Operations node" "FileComponent"
  else if String.eqb id "web-scraping" then
    componentBranch nodes "Web-Scraping" "Missing Web-Scraping node" "WebScrapingComponent"
  else if String.eqb id "wikipedia" then
    componentBranch nodes "Wikipedia" "Missing Wikipedia node" "WikipediaComponent"
  else if String.eqb id "youtube" then
    componentBranch nodes "YouTube" "Missing YouTube node" "YouTubeComponent"
  else if String.eqb id "financial-analysis" then
    componentBranch nodes "Financial-Analysis" "Missing Financial-Analysis node"
      "FinancialComponent"
  else Requests fetch (Url (d_endpoint detectedPattern)).

(** [handlePlayClick] as far as the request: an empty graph is answered
    with an alert before anything is executed; the other routes run inside
    [try], where a thrown error ends as a failed execution result. *)
Inductive Played :=
  | Alerts (message : string)
  | Runs (outcome : Outcome).

Definition handlePlayClickOutcome (st : State) : Played :=
  match handlePlayClick st with
  | NothingToExecute => Alerts "Nothing to execute. Please add some nodes to your flow."
  | MissingEndComponent =>
      Runs (Throws "Workflow must have an End component to complete the execution.")
  | PatternRoute detected => Runs (switchBranch (nodes st) detected)
  | DynamicWorkflow url validEdges => Runs (Requests fetch (Url url))
  end.

End Playground.

(** ** The workspace component: viewport and pointer handling *)

Module Workspace.

Local Open Scope R_scope.

Definition MIN_ZOOM : R := 0.5.
Definition MAX_ZOOM : R := 2.

(** [getBoundingClientRect()] of the workspace element. *)
Record DOMRect := mkRect {
  rect_left : R;
  rect_top : R;
  rect_width : R;
  rect_height : R
}.

Record ConnectionState := mkConnectionState {
  cs_nodeId : string;
  cs_fieldId : string;
  cs_type : string
}.

(** The [useState] cells of the component. *)
Record State := mkState {
  scale : R;
  offset : Position;
  connectionStart : option ConnectionState;
  mousePosition : Position;
  fieldPositions : list (string * Position);
  snapFieldId : option string
}.

Definition setViewport (ws : State) (newScale : R) (newOffset : Position) : State :=
  mkState newScale newOffset (connectionStart ws) (mousePosition ws)
          (fieldPositions ws) (snapFieldId ws).

Definition setMousePosition (ws : State) (p : Position) : State :=
  mkState (scale ws) (offset ws) (connectionStart ws) p (fieldPositions ws) (snapFieldId ws).

Definition setConnectionStart (ws : State) (c : option ConnectionState) : State :=
  mkState (scale ws) (offset ws) c (mousePosition ws) (fieldPositions ws) (snapFieldId ws).

Definition setSnapFieldId (ws : State) (f : option string) : State :=
  mkState (scale ws) (offset ws) (connectionStart ws) (mousePosition ws) (fieldPositions ws) f.

(** *** Coordinate transforms *)

(** Screen to canvas, for a point relative to the workspace origin: the
    expression [p / scale - offset] of [handleDrop], [updateFieldPositions],
    [handleFieldMouseDown] and [handleMouseMove]. *)
Definition toCanvas (scale : R) (offset s : Position) : Position :=
  mkPosition (pos_x s / scale - pos_x offset) (pos_y s / scale - pos_y offset).

(** Canvas to screen: the transform container's style
    [scale(s) translate(ox px, oy px)] with origin top-left, which first
    translates and then scales. *)
Definition toScreen (scale : R) (offset c : Position) : Position :=
  mkPosition ((pos_x c + pos_x offset) * scale) ((pos_y c + pos_y offset) * scale).

(** [handleDrop]: the arguments handed to [onNodeDrop], if any.
    [nodeType] is the drag payload, empty when absent. *)
Definition handleDrop (ws : State) (workspaceRect : option DOMRect)
    (nodeType : string) (clientX clientY : R) : option (string * Position) :=
  if negb (Js.truthy nodeType) then None
  else
    match workspaceRect with
    | None => None
    | Some rect =>
        let x := (clientX - rect_left rect) / scale ws - pos_x (offset ws) in
        let y := (clientY - rect_top rect) / scale ws - pos_y (offset ws) in
        Some (nodeType, mkPosition x y)
    end.

(** *** Zoom *)

(** [handleZoom]: the zoom buttons call it with [0.1] and [-0.1]. *)
Definition handleZoom (ws : State) (workspaceRect : option DOMRect) (delta : R) : State :=
  let newScale := Rmin (Rmax (scale ws + delta) MIN_ZOOM) MAX_ZOOM in
  match workspaceRect with
  | None => ws
  | Some _ =>
      let newOffsetX := (-1 * (newScale - scale ws)) / newScale + pos_x (offset ws) in
      let newOffsetY := (-1 * (newScale - scale ws)) / newScale + pos_y (offset ws) in
      setViewport ws newScale (mkPosition newOffsetX newOffsetY)
  end.

(** [handleWheelEvent]: of the wheel event only the sign of [deltaY] is
    read. *)
Definition handleWheelEvent (ws : State) (workspaceRect : option DOMRect) (deltaY : R) : State :=
  let delta := if Rlt_dec 0 deltaY then -0.1 else 0.1 in
  let newScale := Rmin (Rmax (scale ws + delta) MIN_ZOOM) MAX_ZOOM in
  match workspaceRect with
  | None => ws
  | Some _ =>
      let newOffsetX := (-1 * (newScale - scale ws)) / newScale + pos_x (offset ws) in
      let newOffsetY := (-1 * (newScale - scale ws)) / newScale + pos_y (offset ws) in
      setViewport ws newScale (mkPosition newOffsetX newOffsetY)
  end.

(** The screen point at which a pivot is shown after a zoom, when it is
    taken to the canvas with the viewport before the zoom. *)
Definition pivotAfter (before after : State) (pivot : Position) : Position :=
  toScreen (scale after) (offset after) (toCanvas (scale before) (offset before) pivot).

(** *** Node removal and edge picking *)

(** The [onClick] of a node's delete button.  [edges] is the prop of the
    render the button belongs to; every [onRemoveEdge] call is the
    playground's [handleRemoveEdge] of that same render. *)
Definition nodeDeleteClick (edges : list EdgeData) (node : NodeData) : Playground.Updates :=
  let connectedEdges :=
    List.filter (fun edge => String.eqb (e_source edge) (n_id node)
                        || String.eqb (e_target edge) (n_id node)) edges in
  Playground.mkUpdates
    [SetUpdater (fun prevNodes =>
                   List.filter (fun n => negb (String.eqb (n_id n) (n_id node))) prevNodes)]
    (flat_map (fun edge => Playground.edgeUpdates
                             (Playground.handleRemoveEdge edges (e_id edge)))
              connectedEdges).

(** The [onClick] of an edge's hit path. *)
Definition edgeClick (edges : list EdgeData) (edge : EdgeData) : Playground.Updates :=
  Playground.handleRemoveEdge edges (e_id edge).

(** *** Connection dragging *)

(** The port anchors of the rendered nodes: every input and every output
    of a node carries [data-field-id], [data-node-id] and
    [data-field-type]; inputs come before outputs, nodes in list order. *)
Record FieldElement := mkFieldElement {
  data_field_id : string;
  data_node_id : string;
  data_field_type : string
}.

Definition fieldElements (nodes : list NodeData) : list FieldElement :=
  flat_map
    (fun node =>
       (map (fun input => mkFieldElement (f_id input) (n_id node) "input") (n_inputs node)
        ++ map (fun output => mkFieldElement (f_id output) (n_id node) "output")
               (n_outputs node))%list)
    nodes.

(** [document.querySelector(`[data-field-id="${id}"]`)] *)
Definition querySelectorField (nodes : list NodeData) (id : string) : option FieldElement :=
  find (fun elem => String.eqb (data_field_id elem) id) (fieldElements nodes).

(** What the listeners registered by [handleFieldMouseDown] close over:
    the origin port, the viewport, anchor map and [onAddEdge] of the
    render in which the button went down, and the local variable
    [currentSnapCandidate]. *)
Record Drag := mkDrag {
  d_nodeId : string;
  d_fieldId : string;
  d_fieldType : string;
  d_scale : R;
  d_offset : Position;
  d_fieldPositions : list (string * Position);
  d_edges : list EdgeData;
  currentSnapCandidate : option string
}.

Definition setCandidate (d : Drag) (c : option string) : Drag :=
  mkDrag (d_nodeId d) (d_fieldId d) (d_fieldType d) (d_scale d) (d_offset d)
         (d_fieldPositions d) (d_edges d) c.

(** What a drag closed over at button-down does not change afterwards. *)
Definition sameClosure (d d' : Drag) : Prop :=
  d_nodeId d' = d_nodeId d /\ d_fieldId d' = d_fieldId d /\ d_fieldType d' = d_fieldType d
  /\ d_scale d' = d_scale d /\ d_offset d' = d_offset d
  /\ d_fieldPositions d' = d_fieldPositions d /\ d_edges d' = d_edges d.

(** [handleFieldMouseDown]: the new state, and the drag when the listeners
    were registered.  [edges] is the prop of the current render. *)
Definition handleFieldMouseDown (ws : State) (edges : list EdgeData)
    (workspaceRect : option DOMRect) (clientX clientY : R)
    (nodeId fieldId fieldType : string) : State * option Drag :=
  if (String.eqb fieldType "input"
      && match connectionStart ws with
         | Some start => String.eqb (cs_type start) "output"
         | None => false
         end)
     || String.eqb fieldType "output"
  then
    let ws1 :=
      match workspaceRect with
      | Some rect =>
          let initialX := (clientX - rect_left rect) / scale ws - pos_x (offset ws) in
          let initialY := (clientY - rect_top rect) / scale ws - pos_y (offset ws) in
          setMousePosition ws (mkPosition initialX initialY)
      | None => ws
      end in
    (setConnectionStart ws1 (Some (mkConnectionState nodeId fieldId fieldType)),
     Some (mkDrag nodeId fieldId fieldType (scale ws) (offset ws) (fieldPositions ws)
                  edges None))
  else (ws, None).

(** [Math.sqrt(dx * dx + dy * dy)] *)
Definition distance (pos : Position) (mx my : R) : R :=
  let dx := pos_x pos - mx in
  let dy := pos_y pos - my in
  sqrt (dx * dx + dy * dy).

(** [distance < minDistance], with [None] for [Infinity]. *)
Definition belowMin (distance : R) (minDistance : option R) : bool :=
  match minDistance with
  | None => true
  | Some m => if Rlt_dec distance m then true else false
  end.

(** The body of [Object.entries(fieldPositions).forEach] in the snap
    search; the accumulator is [(candidate, minDistance)]. *)
Definition snapStep (mx my snapDistance : R) (acc : option string * option R)
    (entry : string * Position) : option string * option R :=
  let d := distance (snd entry) mx my in
  if belowMin d (snd acc) && (if Rle_dec d snapDistance then true else false)
  then (Some (fst entry), Some d)
  else acc.

Definition snapSearch (positions : list (string * Position)) (mx my snapDistance : R)
    : option string :=
  fst (fold_left (snapStep mx my snapDistance) positions (None, None)).

(** The drag's [handleMouseMove]. *)
Definition handleMouseMove (d : Drag) (ws : State) (workspaceRect : option DOMRect)
    (clientX clientY : R) : Drag * State :=
  match workspaceRect with
  | None => (d, ws)
  | Some rect =>
      let mx := (clientX - rect_left rect) / d_scale d - pos_x (d_offset d) in
      let my := (clientY - rect_top rect) / d_scale d - pos_y (d_offset d) in
      let snapDistance := 40 / d_scale d in
      let candidate := snapSearch (d_fieldPositions d) mx my snapDistance in
      (setCandidate d candidate,
       setSnapFieldId (setMousePosition ws (mkPosition mx my)) candidate)
  end.

(** The drag's [handleMouseUp]: the new state and the edge handed to
    [onAddEdge], if any.  [nodes] are the nodes rendered at that time. *)
Definition handleMouseUp (d : Drag) (ws : State) (nodes : list NodeData)
    : State * option EdgeData :=
  let proposed :=
    match currentSnapCandidate d with
    | None => None
    | Some targetFieldIdCandidate =>
        if negb (Js.truthy targetFieldIdCandidate) then None
        else
          match querySelectorField nodes targetFieldIdCandidate with
          | None => None
          | Some fieldElement =>
              let targetFieldId := data_field_id fieldElement in
              let targetNodeId := data_node_id fieldElement in
              let targetFieldType := data_field_type fieldElement in
              if Js.truthy targetFieldId && Js.truthy targetNodeId
                 && Js.truthy targetFieldType
              then
                let isValidConnection :=
                  (String.eqb (d_fieldType d) "output" && String.eqb targetFieldType "input")
                  || (String.eqb (d_fieldType d) "input"
                      && String.eqb targetFieldType "output") in
                if isValidConnection && negb (String.eqb targetNodeId (d_nodeId d))
                then
                  let fromOutput := String.eqb (d_fieldType d) "output" in
                  let source := if fromOutput then d_nodeId d else targetNodeId in
                  let sourceHandle := if fromOutput then d_fieldId d else targetFieldId in
                  let target := if fromOutput then targetNodeId else d_nodeId d in
                  let targetHandle := if fromOutput then targetFieldId else d_fieldId d in
                  Some (mkEdge "temp-id" source sourceHandle target targetHandle)
                else None
              else None
          end
    end in
  (setConnectionStart (setSnapFieldId ws None) None, proposed).

(** *** Editing an input *)

(** The update enqueued by the [onChange] of an input's text area or
    selector (and by the speech button): the value of that input of that
    node is replaced, everything else is copied. *)
Definition setInputValue (nodeId inputId value : string) (prev : list NodeData)
    : list NodeData :=
  map (fun n =>
         if String.eqb (n_id n) nodeId
         then mkNode (n_id n) (n_type n) (n_position n) (n_label n)
                (map (fun i =>
                        if String.eqb (f_id i) inputId
                        then mkField (f_id i) (f_name i) (f_type i) (f_fieldType i)
                               (Some (TextValue value)) (f_options i) (f_display i)
                        else i)
                     (n_inputs n))
                (n_outputs n)
         else n)
      prev.

Definition inputChange (nodeId inputId value : string) : Playground.Updates :=
  Playground.mkUpdates [SetUpdater (setInputValue nodeId inputId value)] [].

(** The [onChange] of a file input: when at least one file was chosen, the
    first one becomes the value of that input.  [files] are the chosen
    files, by name and size. *)
Definition setFile (nodeId inputId : string) (file : string * nat) (prev : list NodeData)
    : list NodeData :=
  map (fun n =>
         if String.eqb (n_id n) nodeId
         then mkNode (n_id n) (n_type n) (n_position n) (n_label n)
                (map (fun i =>
                        if String.eqb (f_id i) inputId
                        then mkField (f_id i) (f_name i) (f_type i) (f_fieldType i)
                               (Some (FileValue (fst file) (snd file)))
                               (f_options i) (f_display i)
                        else i)
                     (n_inputs n))
                (n_outputs n)
         else n)
      prev.

Definition fileChange (nodeId inputId : string) (files : list (string * nat))
    : Playground.Updates :=
  match files with
  | [] => Playground.noUpdates
  | file :: _ => Playground.mkUpdates [SetUpdater (setFile nodeId inputId file)] []
  end.

(** *** Panning *)





(** *** Dragging a node *)





(** *** Curves and the zoom label *)

(** The four points of the path [M start C cp1 cp2 end] that
    [generateCurvedPath] prints. *)
Record Curve := mkCurve {
  curve_start : Position;
  curve_cp1 : Position;
  curve_cp2 : Position;
  curve_end : Position
}.

Definition generateCurvedPath (startX startY endX endY : R) : Curve :=
  let dx := endX - startX in
  let controlDistance := Rmax (Rabs dx * 0.3) 100 in
  let cp1x := startX + controlDistance in
  let cp1y := startY in
  let cp2x := endX - controlDistance in
  let cp2y := endY in
  mkCurve (mkPosition startX startY) (mkPosition cp1x cp1y) (mkPosition cp2x cp2y)
          (mkPosition endX endY).

(** [renderEdges]: the curves drawn, one for each edge whose two handles
    have an anchor. *)
Definition lookupAnchor (positions : list (string * Position)) (fieldId : string)
    : option Position :=
  option_map snd (find (fun entry => String.eqb (fst entry) fieldId) positions).

Definition renderEdges (ws : State) (edges : list EdgeData) : list (string * Curve) :=
  flat_map
    (fun edge =>
       match lookupAnchor (fieldPositions ws) (e_sourceHandle edge),
             lookupAnchor (fieldPositions ws) (e_targetHandle edge) with
       | Some sourcePos, Some targetPos =>
           [(e_id edge,
             generateCurvedPath (pos_x sourcePos) (pos_y sourcePos)
                                (pos_x targetPos) (pos_y targetPos))]
       | _, _ => []
       end)
    edges.

(** [Math.round]: the nearest integer, halves upwards. *)
Definition Math_round (v : R) : Z := Zfloor (v + 0.5).

Definition getZoomPercentage (ws : State) : Z := Math_round (scale ws * 100).

(** *** Port anchors *)

(** [obj[key] = value] on an object kept as its entries in insertion
    order: an existing key keeps its place.  (Port identifiers are not
    array indices, so the insertion order is the enumeration order.) *)
Fixpoint objectSet (obj : list (string * Position)) (key : string) (value : Position)
    : list (string * Position) :=
  match obj with
  | [] => [(key, value)]
  | (k, v) :: rest =>
      if String.eqb k key then (k, value) :: rest else (k, v) :: objectSet rest key value
  end.

(** The canvas point of the centre of a port's bounding rectangle. *)
Definition anchorOf (ws : State) (workspaceRect rect : DOMRect) : Position :=
  mkPosition
    ((rect_left rect + rect_width rect / 2 - rect_left workspaceRect) / scale ws
     - pos_x (offset ws))
    ((rect_top rect + rect_height rect / 2 - rect_top workspaceRect) / scale ws
     - pos_y (offset ws)).

(** [updateFieldPositions]: [elems] are the elements carrying
    [data-field-id], in document order, each with that attribute and its
    bounding rectangle.  [fieldPositionStep] is the body of [forEach]; the
    result is the argument of [setFieldPositions]. *)
Definition fieldPositionStep (ws : State) (workspaceRect : option DOMRect)
    (newPositions : list (string * Position)) (elem : string * DOMRect)
    : list (string * Position) :=
  match workspaceRect with
  | Some wrect =>
      if Js.truthy (fst elem)
      then objectSet newPositions (fst elem) (anchorOf ws wrect (snd elem))
      else newPositions
  | None => newPositions
  end.

Definition updateFieldPositions (ws : State) (workspaceRect : option DOMRect)
    (elems : list (string * DOMRect)) : list (string * Position) :=
  fold_left (fieldPositionStep ws workspaceRect) elems [].





(** *** The offset set on mount *)

(** The effect that runs once after the first render, when both refs are
    set: the argument of [setOffset].  [scale] is the scale of that
    render. *)
Definition initialOffset (scale : R) (workspaceRect : DOMRect) : Position :=
  let transformWidth := 3500 in
  let transformHeight := 3500 in
  let initialOffsetX := (rect_width workspaceRect - transformWidth * scale) / 2 / scale + 500 in
  let initialOffsetY := (rect_height workspaceRect - transformHeight * scale) / 2 / scale in
  mkPosition initialOffsetX initialOffsetY.

End Workspace.

(** ** The two components together *)

Module App.

Import Playground.

(** A pointer event as the drag listeners see it. *)
Record PointerEvent := mkPointer {
  ev_rect : option Workspace.DOMRect;
  clientX : R;
  clientY : R
}.

Definition dragMoves (d : Workspace.Drag) (ws : Workspace.State) (moves : list PointerEvent)
    : Workspace.Drag * Workspace.State :=
  fold_left
    (fun acc ev => Workspace.handleMouseMove (fst acc) (snd acc) (ev_rect ev)
                     (clientX ev) (clientY ev))
    moves (d, ws).

(** Releasing the button: [handleMouseUp], and [handleAddEdge] of the
    render the drag started in when an edge is proposed. *)
Definition release (d : Workspace.Drag) (ws : Workspace.State) (st : State) (now : nat)
    : Workspace.State * State :=
  match Workspace.handleMouseUp d ws (nodes st) with
  | (ws', Some edge) => (ws', commit st (handleAddEdge (Workspace.d_edges d) edge now))
  | (ws', None) => (ws', st)
  end.

(** A whole connection gesture on a port of the rendered graph: button
    down on the port, pointer moves, button up. *)
Definition connectGesture (st : State) (ws : Workspace.State) (down : PointerEvent)
    (nodeId fieldId fieldType : string) (moves : list PointerEvent) (now : nat)
    : Workspace.State * State :=
  match Workspace.handleFieldMouseDown ws (edges st) (ev_rect down) (clientX down)
          (clientY down) nodeId fieldId fieldType with
  | (ws1, Some d) =>
      let '(d', ws2) := dragMoves d ws1 moves in
      release d' ws2 st now
  | (ws1, None) => (ws1, st)
  end.

(** The operations of the graph, each followed by the render it causes.
    The premises say which events the rendered page can deliver: delete
    buttons, port anchors and edge paths exist for rendered nodes and
    edges only. *)
Inductive step : State -> State -> Prop :=
  | step_addNode st nodeType viewportCenter now :
      step st (settle st (commit st (handleAddNode st nodeType viewportCenter now)))
  | step_nodeDrop st nodeType position now :
      step st (settle st (commit st (handleNodeDrop nodeType position now)))
  | step_removeNode st node :
      In node (nodes st) ->
      step st (settle st (commit st (Workspace.nodeDeleteClick (edges st) node)))
  | step_removeEdge st edge :
      In edge (edges st) ->
      step st (settle st (commit st (Workspace.edgeClick (edges st) edge)))
  | step_connect st ws down node fieldId fieldType moves now :
      In node (nodes st) ->
      step st (settle st (snd (connectGesture st ws down (n_id node) fieldId fieldType
                                 moves now))).

(** States reached by finitely many operations. *)
Inductive steps : State -> State -> Prop :=
  | steps_refl st : steps st st
  | steps_then st1 st2 st3 : steps st1 st2 -> step st2 st3 -> steps st1 st3.

(** Every edge refers to live nodes at both ends. *)
Definition edgesLive (st : State) : Prop :=
  forall edge, In edge (edges st) ->
    In (e_source edge) (map n_id (nodes st)) /\ In (e_target edge) (map n_id (nodes st)).

(** The entries [a], [e] and [f] of a [DOMMatrix]. *)
Record DOMMatrix := mkMatrix {
  matrix_a : R;
  matrix_e : R;
  matrix_f : R
}.

(** The matrix of the transform container's style
    [scale(s) translate(ox px, oy px)]. *)
Definition containerMatrix (ws : Workspace.State) : DOMMatrix :=
  mkMatrix (Workspace.scale ws)
           (Workspace.scale ws * pos_x (Workspace.offset ws))%R
           (Workspace.scale ws * pos_y (Workspace.offset ws))%R.

(** [getCurrentViewportCenter] of the playground page.  [workspaceElement]
    is what the page reads from the document: the rectangle of the
    workspace element, if there is one, and the matrix of the computed
    transform of its first descendant styled with a transform, if there is
    one and the transform is not [none]. *)
Definition getCurrentViewportCenter
    (workspaceElement : option (Workspace.DOMRect * option DOMMatrix)) : Position :=
  match workspaceElement with
  | Some (rect, Some matrix) =>
      let viewportCenterX := (Workspace.rect_width rect / 2)%R in
      let viewportCenterY := (Workspace.rect_height rect / 2)%R in
      mkPosition ((viewportCenterX - matrix_e matrix) / matrix_a matrix)%R
                 ((viewportCenterY - matrix_f matrix) / matrix_a matrix)%R
  | _ => mkPosition 500 300
  end.

End App.

(** ** The port-name relation as the specification words it *)

Module Spec.

(** "case-insensitively contains or is contained by" *)
Definition portNamesCompatible (actual expected : string) : bool :=
  Js.includes (Js.toLowerCase actual) (Js.toLowerCase expected)
  || Js.includes (Js.toLowerCase expected) (Js.toLowerCase actual).

End Spec.

(** The containment the matcher computes: the actual name contains the
    expected one, case-insensitively. *)
Definition nameContains (actual expected : string) : bool :=
  Js.includes (Js.toLowerCase actual) (Js.toLowerCase expected).

(** A string without the arrow. *)
Definition arrowFree (s : string) : Prop := Js.includes s Js.arrow = false.

(** No edge of the list touches the node. *)
Definition unconnected (node : NodeData) (edges : list EdgeData) : Prop :=
  forall edge, In edge edges -> e_source edge <> n_id node /\ e_target edge <> n_id node.

(** The graph has exactly the kinds of the list. *)
Definition sameKinds (nodes : list NodeData) (kinds : list string) : Prop :=
  forall kind, In kind (map n_type nodes) <-> In kind kinds.

(** Every port name of the graph is free of the arrow. *)
Definition namesArrowFree (nodes : list NodeData) : Prop :=
  forall node field, In node nodes -> In field (n_inputs node ++ n_outputs node)%list ->
    arrowFree (f_name field).

Definition namesArrowFreeb (nodes : list NodeData) : bool :=
  forallb
    (fun node =>
       forallb (fun field => negb (Js.includes (f_name field) Js.arrow))
               (n_inputs node ++ n_outputs node)%list)
    nodes.

(** What one edge contributes to [connections]: the key of its kind pair
    when both nodes resolve, and its port-name pair when both handles
    resolve as well. *)
Definition edgeEntry (nodes : list NodeData) (edge : EdgeData) : option (string * list string) :=
  match Playground.findNode nodes (e_source edge), Playground.findNode nodes (e_target edge) with
  | Some sourceNode, Some targetNode =>
      Some (n_type sourceNode ++ Js.arrow ++ n_type targetNode,
            match Playground.findField (n_outputs sourceNode) (e_sourceHandle edge),
                  Playground.findField (n_inputs targetNode) (e_targetHandle edge) with
            | Some sourceOutput, Some targetInput =>
                [f_name sourceOutput ++ Js.arrow ++ f_name targetInput]
            | _, _ => []
            end)
  | _, _ => None
  end.

Definition hasKey (nodes : list NodeData) (key : string) (edge : EdgeData) : bool :=
  match edgeEntry nodes edge with
  | Some (k, _) => String.eqb k key
  | None => false
  end.

Definition entriesOf (nodes : list NodeData) (key : string) (edge : EdgeData) : list string :=
  match edgeEntry nodes edge with
  | Some (k, conns) => if String.eqb k key then conns else []
  | None => []
  end.

(** An actual edge satisfies a required connection, for a given relation
    between an actual and an expected port name: it joins nodes of the
    required kinds, its handles resolve to an output of the source and an
    input of the target, and both port names are related to the expected
    ones. *)
Definition edgeSatisfies (related : string -> string -> bool) (nodes : list NodeData)
    (edge : EdgeData) (kinds expectedOutput expectedInput : string) : Prop :=
  exists sourceNode targetNode sourceOutput targetInput,
    Playground.findNode nodes (e_source edge) = Some sourceNode
    /\ Playground.findNode nodes (e_target edge) = Some targetNode
    /\ Playground.findField (n_outputs sourceNode) (e_sourceHandle edge) = Some sourceOutput
    /\ Playground.findField (n_inputs targetNode) (e_targetHandle edge) = Some targetInput
    /\ n_type sourceNode ++ Js.arrow ++ n_type targetNode = kinds
    /\ related (f_name sourceOutput) expectedOutput = true
    /\ related (f_name targetInput) expectedInput = true.

(** Checks on the catalog, each decided by evaluation. *)

(** A required kind takes part in a required connection of its pattern, and
    no other pair of the pattern's kinds spells the same key. *)
Definition kindUsed (q : WorkflowPattern) (kind : string) : bool :=
  existsb
    (fun c =>
       forallb
         (fun s =>
            forallb
              (fun t =>
                 implb (String.eqb (s ++ Js.arrow ++ t) (nodeConnection c))
                       (String.eqb s kind || String.eqb t kind))
              (requiredNodeTypes q))
         (requiredNodeTypes q))
    (p_connections q).

Definition everyKindUsed : bool :=
  forallb (fun q => forallb (kindUsed q) (requiredNodeTypes q)) workflowPatterns.

Definition everyPatternHasEnd : bool :=
  forallb (fun q => existsb (String.eqb "End") (requiredNodeTypes q)) workflowPatterns.

Definition everyPortConnectionSplits : bool :=
  forallb
    (fun q =>
       forallb (fun c => (length (Js.split Js.arrow (portConnection c)) =? 2)%nat)
               (p_connections q))
    workflowPatterns.

(** Membership, equality as sets and absence of repetitions for lists of
    kinds, as booleans. *)
Definition memb (s : string) (l : list string) : bool := existsb (String.eqb s) l.

Definition sameSetb (l1 l2 : list string) : bool :=
  forallb (fun s => memb s l2) l1 && forallb (fun s => memb s l1) l2.

Fixpoint nodupb (l : list string) : bool :=
  match l with
  | [] => true
  | s :: rest => negb (memb s rest) && nodupb rest
  end.

(** No pattern lists a kind twice. *)
Definition requiredKindsDistinct : bool :=
  forallb (fun q => nodupb (requiredNodeTypes q)) workflowPatterns.

(** Two patterns with the same set of kinds are the same pattern. *)
Definition kindSetsDiffer : bool :=
  forallb
    (fun p =>
       forallb
         (fun q => implb (sameSetb (requiredNodeTypes p) (requiredNodeTypes q))
                         (String.eqb (p_id p) (p_id q)))
         workflowPatterns)
    workflowPatterns.

(** A list in the order of [sort]: every element is below the ones after
    it. *)
Fixpoint ascending (l : list string) : Prop :=
  match l with
  | [] => True
  | s :: rest => (forall t, In t rest -> String.leb s t = true) /\ ascending rest
  end.

(** No two edges of the list have the same (source, sourceHandle, target,
    targetHandle). *)
Fixpoint tuplesDistinct (edges : list EdgeData) : Prop :=
  match edges with
  | [] => True
  | edge :: rest =>
      (forall other, In other rest -> Playground.sameTuple other edge = false)
      /\ tuplesDistinct rest
  end.

(** Within each entry of [nodeTemplates] the port identifiers are
    distinct. *)
Definition templatePortIdsDistinct : bool :=
  forallb
    (fun entry =>
       nodupb (map f_id (t_inputs (snd entry) ++ t_outputs (snd entry))%list))
    nodeTemplates.

(** What the accumulator of the snap search holds after the anchors
    [done]: nothing when all of them are beyond the radius, otherwise one
    of them within the radius and nearest of all. *)
Definition snapResult (done : list (string * Position)) (mx my radius : R)
    (acc : option string * option R) : Prop :=
  match acc with
  | (None, None) =>
      forall fieldId pos, In (fieldId, pos) done ->
        (radius < Workspace.distance pos mx my)%R
  | (Some fieldId, Some minDistance) =>
      exists pos,
        In (fieldId, pos) done
        /\ Workspace.distance pos mx my = minDistance
        /\ (minDistance <= radius)%R
        /\ forall fieldId' pos', In (fieldId', pos') done ->
             (minDistance <= Workspace.distance pos' mx my)%R
  | _ => False
  end.

(** A drag over [Examples.oneAnchor] that has snapped to its anchor. *)
Definition snappedDrag : Workspace.Drag :=
  Workspace.mkDrag "node-1" "output-1-1" "output" 1 (mkPosition 0 0)
    [("input-3-2", mkPosition 0 0)] [] (Some "input-3-2").

(** ** Concrete graphs and viewports *)

Module Examples.

Import Playground.

Definition center : Position := mkPosition 500 300.

(** Nodes placed one after the other through [handleAddNode]. *)
Definition place (st : State) (kindAt : string * nat) : State :=
  settle st (commit st (handleAddNode st (fst kindAt) center (snd kindAt))).

Definition textAgentNodes : list NodeData :=
  nodes (fold_left place [("Text-Input-Tool", 1); ("Text-Agent", 2); ("End", 3)] initial).

(** Text-Input-Tool.Text -> Text-Agent.Query, Text-Agent.Output -> End.End *)
Definition textAgentEdges : list EdgeData :=
  [ mkEdge "edge-10" "node-1" "output-1-1" "node-2" "input-3-2";
    mkEdge "edge-11" "node-2" "output-1-2" "node-3" "input-1-3" ].

Definition textAgentGraph : State := mkState textAgentNodes textAgentEdges.

Definition textAgentPattern : WorkflowPattern :=
  mkPattern "text-agent" "Text Agent Workflow"
    ["Text-Agent"; "Text-Input-Tool"; "End"]
    [ mkConn "Text-Input-Tool→Text-Agent" "Text→Query";
      mkConn "Text-Agent→End" "Output→End" ]
    "http://localhost:8000/text_agent".

Definition calculatorNode : NodeData :=
  mkNode "node-4" "Calculator" center "Calculator"
    [port "input-1-4" "Expression" "string" "input" None None]
    [port "output-1-4" "Result" "number" "output" None None].

Definition knowledgeBaseNode : NodeData :=
  mkNode "node-4" "Knowledge-Base" center "Knowledge-Base"
    [port "input-1-4" "File" "file" "input" None None]
    [port "output-1-4" "Content" "string" "output" None (Some false)].

(** An edge from the knowledge base's output into Text-Agent.Tools. *)
Definition knowledgeEdge : EdgeData :=
  mkEdge "edge-12" "node-4" "output-1-4" "node-2" "input-1-2".

(** A Zoom-Tool whose output is labelled "Out" wired to an End node. *)
Definition zoomNodes : list NodeData :=
  [ mkNode "node-1" "Zoom-Tool" center "Zoom-Tool"
      [port "input-1-1" "Query" "string" "input" None None]
      [port "output-1-1" "Out" "string" "output" None (Some false)];
    mkNode "node-2" "End" center "End"
      [port "input-1-2" "End" "none" "input" None None] [] ].

Definition zoomEdges : list EdgeData :=
  [ mkEdge "edge-10" "node-1" "output-1-1" "node-2" "input-1-2" ].

(** The Text-Agent node, which both edges touch. *)
Definition textAgentNode : NodeData := nth 1 textAgentNodes calculatorNode.

(** What is rendered right after the click on its delete button, before
    any effect has run. *)
Definition afterDeleteClick : State :=
  commit textAgentGraph (Workspace.nodeDeleteClick (edges textAgentGraph) textAgentNode).

Definition viewport0 : Workspace.State :=
  Workspace.mkState 1 (mkPosition 0 0) None (mkPosition 0 0) [] None.

Definition rect0 : Workspace.DOMRect := Workspace.mkRect 0 0 1000 800.

(** One anchor at the canvas origin. *)
Definition oneAnchor : Workspace.State :=
  Workspace.mkState 1 (mkPosition 0 0) None (mkPosition 0 0)
    [("input-3-2", mkPosition 0 0)] None.

(** A drag from the output of the first node, over [oneAnchor]. *)
Definition dragFromOutput : Workspace.Drag :=
  Workspace.mkDrag "node-1" "output-1-1" "output" 1 (mkPosition 0 0)
    [("input-3-2", mkPosition 0 0)] textAgentEdges None.

End Examples.

(** A node as the sidebar makes it: of a kind that has a template, with
    the port names of that template. *)
Definition fromTemplate (node : NodeData) : Prop :=
  exists template,
    Playground.lookupTemplate (n_type node) = Some template
    /\ map f_name (n_inputs node) = map f_name (t_inputs template)
    /\ map f_name (n_outputs node) = map f_name (t_outputs template).

(** The pairs of template kinds whose key is the given one. *)
Definition pairsSpelling (key : string) : list (string * string) :=
  List.filter (fun pair => String.eqb (fst pair ++ Js.arrow ++ snd pair) key)
    (list_prod (map fst nodeTemplates) (map fst nodeTemplates)).

(** A JSON-Processor wired to an End node. *)
Definition jsonGraph : Playground.State :=
  fold_left Examples.place [("JSON-Processor", 1%nat); ("End", 2%nat)] Playground.initial.

Definition jsonEdges : list EdgeData :=
  [ mkEdge "edge-10" "node-1" "output-1-1" "node-2" "input-1-2" ].

(** A graph for a pattern: one node of each required kind placed from the
    sidebar, and for each required connection an edge between the first
    output of the source kind and the first input of the target kind whose
    names contain the expected ones. *)
Definition placed (p : WorkflowPattern) : Playground.State :=
  fold_left Examples.place
    (combine (requiredNodeTypes p) (seq 1 (length (requiredNodeTypes p))))
    Playground.initial.

Definition wire (nodes : list NodeData) (c : ConnectionPattern) : list EdgeData :=
  let kinds := Js.split Js.arrow (nodeConnection c) in
  let ports := Js.split Js.arrow (portConnection c) in
  match Playground.findByType nodes (nth 0 kinds EmptyString),
        Playground.findByType nodes (nth 1 kinds EmptyString) with
  | Some sourceNode, Some targetNode =>
      match find (fun f => nameContains (f_name f) (nth 0 ports EmptyString))
                 (n_outputs sourceNode),
            find (fun f => nameContains (f_name f) (nth 1 ports EmptyString))
                 (n_inputs targetNode) with
      | Some sourceOutput, Some targetInput =>
          [mkEdge ("edge-" ++ n_id sourceNode) (n_id sourceNode) (f_id sourceOutput)
                  (n_id targetNode) (f_id targetInput)]
      | _, _ => []
      end
  | _, _ => []
  end.

(** *** Drawing an edge by a gesture *)

(** A workspace with one anchor, at the canvas origin, and a pointer event
    at the origin of the workspace. *)
Definition anchorAt (fieldId : string) : Workspace.State :=
  Workspace.mkState 1 (mkPosition 0 0) None (mkPosition 0 0)
    [(fieldId, mkPosition 0 0)] None.

Definition pointerAtOrigin : App.PointerEvent :=
  App.mkPointer (Some Examples.rect0) 0 0.

(** The edge can be drawn on the rendered graph: its source handle is an
    output of its source node, its target handle is the identifier of an
    input port element of its target node, the two nodes differ, and no
    edge of the same 4-tuple exists. *)
Definition connectable (st : Playground.State) (edge : EdgeData) : bool :=
  match Playground.findNode (Playground.nodes st) (e_source edge),
        Workspace.querySelectorField (Playground.nodes st) (e_targetHandle edge) with
  | Some sourceNode, Some elem =>
      match Playground.findField (n_outputs sourceNode) (e_sourceHandle edge) with
      | Some _ => true
      | None => false
      end
      && Js.truthy (e_targetHandle edge)
      && Js.truthy (Workspace.data_field_id elem)
      && Js.truthy (Workspace.data_node_id elem)
      && String.eqb (Workspace.data_field_type elem) "input"
      && String.eqb (Workspace.data_node_id elem) (e_target edge)
      && negb (String.eqb (Workspace.data_node_id elem) (e_source edge))
      && negb (existsb (fun e => Playground.sameTuple e edge) (Playground.edges st))
  | _, _ => false
  end.

(** The state after the edge has been drawn at clock reading [now]. *)
Definition withEdge (st : Playground.State) (edge : EdgeData) (now : nat) : Playground.State :=
  Playground.mkState (Playground.nodes st)
    (Playground.edges st
     ++ [mkEdge ("edge-" ++ Js.dateNow now) (e_source edge) (e_sourceHandle edge)
                (e_target edge) (e_targetHandle edge)])%list.

(** Edges drawn one after the other, the clock advancing by one, as long
    as each can be drawn. *)
Fixpoint drawAll (st : Playground.State) (edges : list EdgeData) (now : nat)
    : option Playground.State :=
  match edges with
  | [] => Some st
  | edge :: rest =>
      if connectable st edge then drawAll (withEdge st edge now) rest (S now) else None
  end.

(** The graph of a pattern drawn on the page: its nodes placed from the
    sidebar, then one gesture for each required connection. *)
Definition drawn (p : WorkflowPattern) : option Playground.State :=
  drawAll (placed p) (flat_map (wire (Playground.nodes (placed p))) (p_connections p)) 100.

(** A file with content chosen in every file input of the graph. *)
Definition fileInputs (st : Playground.State) : list (string * string) :=
  flat_map
    (fun node =>
       map (fun input => (n_id node, f_id input))
           (List.filter (fun input => String.eqb (f_type input) "file") (n_inputs node)))
    (Playground.nodes st).

Definition pickFiles (st : Playground.State) : Playground.State :=
  fold_left
    (fun acc input =>
       Playground.commit acc (Workspace.fileChange (fst input) (snd input) [("data.csv", 10%nat)]))
    (fileInputs st) st.

(** The patterns whose branch reads a file. *)
Definition readsFile (p : WorkflowPattern) : bool :=
  String.eqb (p_id p) "csv-agent" || String.eqb (p_id p) "rag"
  || String.eqb (p_id p) "email-marketing".

Fixpoint sameList (l1 l2 : list string) : bool :=
  match l1, l2 with
  | [], [] => true
  | a :: rest1, b :: rest2 => String.eqb a b && sameList rest1 rest2
  | _, _ => false
  end.

(** The play button enters the switch with [p] detected. *)
Definition routed (st : Playground.State) (p : WorkflowPattern) : bool :=
  match Playground.handlePlayClick st with
  | Playground.PatternRoute detected =>
      String.eqb (Playground.patternId detected) (p_id p)
      && String.eqb (Playground.d_endpoint detected) (endpoint p)
  | _ => false
  end.

Definition requestsb (played : Playground.Played) : bool :=
  match played with
  | Playground.Runs (Playground.Requests _ _) => true
  | _ => false
  end.

Definition noFileb (played : Playground.Played) : bool :=
  match played with
  | Playground.Runs (Playground.Throws message) => Js.startsWith message "No file selected"
  | _ => false
  end.

Definition drawnOk (p : WorkflowPattern) : bool :=
  match drawn p with
  | None => false
  | Some st =>
      sameList (map n_type (Playground.nodes st)) (requiredNodeTypes p)
      && (length (Playground.edges st) =? length (p_connections p))%nat
      && Playground.checkWorkflowPattern (Playground.nodes st) (Playground.edges st) (p_id p)
      && routed st p
      && (if readsFile p
          then noFileb (Playground.handlePlayClickOutcome st)
          else requestsb (Playground.handlePlayClickOutcome st))
      && routed (pickFiles st) p
      && requestsb (Playground.handlePlayClickOutcome (pickFiles st))
  end.

Definition allButTwoDrawn : bool :=
  forallb
    (fun p => String.eqb (p_id p) "json-processor" || String.eqb (p_id p) "local-filesystem"
              || drawnOk p)
    workflowPatterns.

(** The csv-agent graph as drawn on the page, no file chosen yet. *)
Definition csvAgentGraph : Playground.State :=
  match find (fun p => String.eqb (p_id p) "csv-agent") workflowPatterns with
  | Some p => default Playground.initial (drawn p)
  | None => Playground.initial
  end.

(** *** A wheel notch in the middle of a connection drag *)

(** The three nodes of the text-agent graph, not yet wired, and a
    workspace whose only anchor is the Query input of the Text-Agent
    node. *)
Definition unwired : Playground.State :=
  Playground.mkState Examples.textAgentNodes [].

Definition farAnchor : Workspace.State :=
  Workspace.mkState 1 (mkPosition 0 0) None (mkPosition 0 0)
    [("input-3-2", mkPosition 1000 500)] None.

(** Button down on the output of the first node. *)
Definition dragStart : Workspace.State * option Workspace.Drag :=
  Workspace.handleFieldMouseDown farAnchor (Playground.edges unwired)
    (Some Examples.rect0) 300 200 "node-1" "output-1-1" "output".

Definition startedDrag : Workspace.Drag :=
  match snd dragStart with
  | Some d => d
  | None => Examples.dragFromOutput
  end.

(** One notch of the wheel, zooming in, while the button is held. *)
Definition zoomedView : Workspace.State :=
  Workspace.handleWheelEvent (fst dragStart) (Some Examples.rect0) (-100).

(** The pointer moved to client (1000, 500), and the button released. *)
Definition movedAfterWheel : Workspace.Drag * Workspace.State :=
  Workspace.handleMouseMove startedDrag zoomedView (Some Examples.rect0) 1000 500.

Definition releasedAfterWheel : Workspace.State * Playground.State :=
  App.release (fst movedAfterWheel) (snd movedAfterWheel) unwired 20.

(** * Properties *)

(** ** Viewport: coordinate transforms and zoom *)

Section ViewportFacts.

Import Workspace.
Local Open Scope R_scope.

Lemma valid_scale_positive (s : R) : MIN_ZOOM <= s <= MAX_ZOOM -> 0 < s.
Proof. unfold MIN_ZOOM. lra. Qed.

Lemma clamp_in_range (v : R) :
  MIN_ZOOM <= Rmin (Rmax v MIN_ZOOM) MAX_ZOOM <= MAX_ZOOM.
Proof.
  unfold MIN_ZOOM, MAX_ZOOM, Rmin, Rmax.
  destruct (Rle_dec v 0.5); destruct (Rle_dec _ 2); lra.
Qed.

Lemma position_eq (p q : Position) :
  p = q <-> pos_x p = pos_x q /\ pos_y p = pos_y q.
Proof.
  split.
  - intros ->. split; reflexivity.
  - destruct p, q. simpl. intros [-> ->]. reflexivity.
Qed.

(** One coordinate of a screen point taken to the canvas before a zoom
    from [s] to [s'] and back to the screen after it. *)
Lemma zoom_coordinate (s s' o p : R) :
  0 < s -> 0 < s' ->
  (p / s - o + ((-1 * (s' - s)) / s' + o)) * s' = p + (s' - s) * (p - s) / s.
Proof. intros Hs Hs'. field. split; lra. Qed.

Lemma zoom_coordinate_fixed (s s' o p : R) :
  0 < s -> 0 < s' ->
  (p / s - o + ((-1 * (s' - s)) / s' + o)) * s' = p <-> s' = s \/ p = s.
Proof.
  intros Hs Hs'. rewrite zoom_coordinate by assumption.
  split.
  - intros H.
    assert (Hz : (s' - s) * (p - s) = 0).
    { apply (Rmult_eq_reg_r (/ s)); [| apply Rinv_neq_0_compat; lra].
      unfold Rdiv in H. lra. }
    apply Rmult_integral in Hz. destruct Hz; [left | right]; lra.
  - intros [-> | ->]; unfold Rdiv; ring.
Qed.

(** C6. For every canvas point and every viewport whose scale lies in
    [MIN_ZOOM, MAX_ZOOM], taking the point to the screen with the transform
    of the container and back with the expression of the handlers gives
    the point itself; in particular a drop at the client position where
    the point is shown yields that point. *)
Theorem toCanvas_toScreen (ws : State) (p : Position) :
  MIN_ZOOM <= scale ws <= MAX_ZOOM ->
  toCanvas (scale ws) (offset ws) (toScreen (scale ws) (offset ws) p) = p
  /\ forall rect nodeType, Js.truthy nodeType = true ->
       handleDrop ws (Some rect) nodeType
         (rect_left rect + pos_x (toScreen (scale ws) (offset ws) p))
         (rect_top rect + pos_y (toScreen (scale ws) (offset ws) p))
       = Some (nodeType, p).
Proof.
  intros Hs. apply valid_scale_positive in Hs.
  split.
  - apply position_eq. simpl. split; field; lra.
  - intros rect nodeType Hty. unfold handleDrop. rewrite Hty. simpl.
    do 2 f_equal. apply position_eq. simpl. split; field; lra.
Qed.

Lemma toCanvas_toScreen_witness :
  MIN_ZOOM <= scale Examples.viewport0 <= MAX_ZOOM
  /\ toCanvas 1 (mkPosition 0 0) (toScreen 1 (mkPosition 0 0) (mkPosition 120 45))
     = mkPosition 120 45.
Proof.
  assert (H : MIN_ZOOM <= scale Examples.viewport0 <= MAX_ZOOM).
  { unfold MIN_ZOOM, MAX_ZOOM. simpl. lra. }
  split; [exact H |].
  exact (proj1 (toCanvas_toScreen Examples.viewport0 (mkPosition 120 45) H)).
Defined.

Lemma clamp_above (v : R) : MAX_ZOOM <= v -> Rmin (Rmax v MIN_ZOOM) MAX_ZOOM = MAX_ZOOM.
Proof.
  unfold MIN_ZOOM, MAX_ZOOM, Rmin, Rmax. intros H.
  destruct (Rle_dec v 0.5); destruct (Rle_dec _ 2); lra.
Qed.

Lemma clamp_below (v : R) : v <= MIN_ZOOM -> Rmin (Rmax v MIN_ZOOM) MAX_ZOOM = MIN_ZOOM.
Proof.
  unfold MIN_ZOOM, MAX_ZOOM, Rmin, Rmax. intros H.
  destruct (Rle_dec v 0.5); destruct (Rle_dec _ 2); lra.
Qed.

Lemma clamp_identity (v : R) :
  MIN_ZOOM <= v <= MAX_ZOOM -> Rmin (Rmax v MIN_ZOOM) MAX_ZOOM = v.
Proof.
  unfold MIN_ZOOM, MAX_ZOOM, Rmin, Rmax. intros H.
  destruct (Rle_dec v 0.5); destruct (Rle_dec _ 2); lra.
Qed.

(** C7. Whatever the starting scale in range and whatever the delta, the
    zoom handlers leave the scale inside [MIN_ZOOM, MAX_ZOOM] = [0.5, 2],
    so it is never 0.  Neither handler refuses a request: the zoom buttons'
    handler sets the scale to [scale + delta] clamped to the range, the
    wheel handler to [scale + 0.1] or [scale - 0.1] (by the direction of
    the wheel) clamped to the range; a request beyond the range is carried
    out up to the bound, a request inside it is carried out as it is. *)
Theorem zoom_scale_in_range (ws : State) (workspaceRect : option DOMRect) (delta deltaY : R) :
  MIN_ZOOM <= scale ws <= MAX_ZOOM ->
  (MIN_ZOOM = 0.5 /\ MAX_ZOOM = 2)
  /\ (MIN_ZOOM <= scale (handleZoom ws workspaceRect delta) <= MAX_ZOOM
      /\ scale (handleZoom ws workspaceRect delta) <> 0)
  /\ (MIN_ZOOM <= scale (handleWheelEvent ws workspaceRect deltaY) <= MAX_ZOOM
      /\ scale (handleWheelEvent ws workspaceRect deltaY) <> 0)
  /\ (forall rect,
        (MAX_ZOOM <= scale ws + delta -> scale (handleZoom ws (Some rect) delta) = MAX_ZOOM)
        /\ (scale ws + delta <= MIN_ZOOM -> scale (handleZoom ws (Some rect) delta) = MIN_ZOOM))
  /\ (forall rect,
        scale (handleZoom ws (Some rect) delta)
        = Rmin (Rmax (scale ws + delta) MIN_ZOOM) MAX_ZOOM
        /\ (MIN_ZOOM <= scale ws + delta <= MAX_ZOOM ->
            scale (handleZoom ws (Some rect) delta) = scale ws + delta))
  /\ (forall rect,
        (deltaY <= 0 ->
         scale (handleWheelEvent ws (Some rect) deltaY)
         = Rmin (Rmax (scale ws + 0.1) MIN_ZOOM) MAX_ZOOM
         /\ (MAX_ZOOM <= scale ws + 0.1 ->
             scale (handleWheelEvent ws (Some rect) deltaY) = MAX_ZOOM)
         /\ (scale ws + 0.1 <= MAX_ZOOM ->
             scale (handleWheelEvent ws (Some rect) deltaY) = scale ws + 0.1))
        /\ (0 < deltaY ->
            scale (handleWheelEvent ws (Some rect) deltaY)
            = Rmin (Rmax (scale ws - 0.1) MIN_ZOOM) MAX_ZOOM
            /\ (scale ws - 0.1 <= MIN_ZOOM ->
                scale (handleWheelEvent ws (Some rect) deltaY) = MIN_ZOOM)
            /\ (MIN_ZOOM <= scale ws - 0.1 ->
                scale (handleWheelEvent ws (Some rect) deltaY) = scale ws - 0.1))).
Proof.
  intros Hs.
  assert (Hpos : forall s, MIN_ZOOM <= s <= MAX_ZOOM -> MIN_ZOOM <= s <= MAX_ZOOM /\ s <> 0).
  { intros s H. split; [exact H |]. apply valid_scale_positive in H. lra. }
  split; [split; reflexivity |].
  unfold handleZoom, handleWheelEvent.
  split; [| split; [| split; [| split]]].
  - destruct workspaceRect; simpl; apply Hpos; [apply clamp_in_range | exact Hs].
  - destruct workspaceRect; simpl; apply Hpos; [apply clamp_in_range | exact Hs].
  - intros rect. simpl. split; [apply clamp_above | apply clamp_below].
  - intros rect. cbn [setViewport scale]. split; [reflexivity | apply clamp_identity].
  - intros rect. cbn [setViewport scale]. split.
    + intros Hup. destruct (Rlt_dec 0 deltaY) as [Hlt | _]; [lra |].
      split; [reflexivity |]. split; [apply clamp_above |].
      intros Hin. apply clamp_identity. unfold MIN_ZOOM in *. lra.
    + intros Hdown. destruct (Rlt_dec 0 deltaY) as [_ | Hge]; [| lra].
      replace (scale ws + -0.1) with (scale ws - 0.1) by lra.
      split; [reflexivity |]. split; [apply clamp_below |].
      intros Hin. apply clamp_identity. unfold MAX_ZOOM in *. lra.
Qed.

Lemma zoom_scale_in_range_witness :
  MIN_ZOOM <= scale Examples.viewport0 <= MAX_ZOOM
  /\ MIN_ZOOM <= scale (handleZoom Examples.viewport0 (Some Examples.rect0) 1000) <= MAX_ZOOM.
Proof.
  assert (H : MIN_ZOOM <= scale Examples.viewport0 <= MAX_ZOOM).
  { unfold MIN_ZOOM, MAX_ZOOM. simpl. lra. }
  split; [exact H |].
  exact (proj1 (proj1 (proj2
           (zoom_scale_in_range Examples.viewport0 (Some Examples.rect0) 1000 0 H)))).
Defined.

End ViewportFacts.

Section ZoomPivot.

Import Workspace.
Local Open Scope R_scope.

Lemma clamp_positive (v : R) : 0 < Rmin (Rmax v MIN_ZOOM) MAX_ZOOM.
Proof. apply valid_scale_positive, clamp_in_range. Qed.

(** The point under a pivot at (100, 100) is shown elsewhere after one
    zoom-in step from scale 1: zooming is not about the pointer. *)
Lemma zoom_moves_pivot :
  pivotAfter Examples.viewport0 (handleZoom Examples.viewport0 (Some Examples.rect0) 0.1)
             (mkPosition 100 100)
  <> mkPosition 100 100.
Proof.
  intros H. apply position_eq in H. destruct H as [H _].
  unfold pivotAfter, handleZoom in H. simpl in H.
  assert (Hc : Rmin (Rmax (1 + 0.1) MIN_ZOOM) MAX_ZOOM = 1.1).
  { unfold MIN_ZOOM, MAX_ZOOM, Rmin, Rmax.
    destruct (Rle_dec (1 + 0.1) 0.5); destruct (Rle_dec _ 2); lra. }
  rewrite Hc in H.
  apply zoom_coordinate_fixed in H; lra.
Qed.

Lemma pivot_fixed_iff (ws : State) (newScale : R) (pivot : Position) :
  0 < scale ws -> 0 < newScale ->
  let after :=
    setViewport ws newScale
      (mkPosition ((-1 * (newScale - scale ws)) / newScale + pos_x (offset ws))
                  ((-1 * (newScale - scale ws)) / newScale + pos_y (offset ws))) in
  pivotAfter ws after pivot = pivot
  <-> newScale = scale ws \/ pivot = mkPosition (scale ws) (scale ws).
Proof.
  intros Hs Hn after. unfold pivotAfter, after. rewrite !position_eq. simpl.
  rewrite !zoom_coordinate_fixed by assumption. tauto.
Qed.

(** C8, as the handlers have it.  Neither zoom handler takes a pivot: the
    scale is clamped and both offset coordinates move by
    [-(newScale - scale) / newScale].  For every viewport with a scale in
    range, a screen point is shown at the same place after the zoom
    exactly when the scale did not change or the point is
    [(scale, scale)], whatever the pointer position. *)
Theorem zoom_fixed_point (ws : State) (rect : DOMRect) (delta deltaY : R) (pivot : Position) :
  MIN_ZOOM <= scale ws <= MAX_ZOOM ->
  (pivotAfter ws (handleZoom ws (Some rect) delta) pivot = pivot
   <-> scale (handleZoom ws (Some rect) delta) = scale ws
       \/ pivot = mkPosition (scale ws) (scale ws))
  /\ (pivotAfter ws (handleWheelEvent ws (Some rect) deltaY) pivot = pivot
      <-> scale (handleWheelEvent ws (Some rect) deltaY) = scale ws
          \/ pivot = mkPosition (scale ws) (scale ws)).
Proof.
  intros Hs. apply valid_scale_positive in Hs.
  unfold handleZoom, handleWheelEvent.
  split; apply pivot_fixed_iff; try assumption; apply clamp_positive.
Qed.

Lemma zoom_fixed_point_witness :
  MIN_ZOOM <= scale Examples.viewport0 <= MAX_ZOOM
  /\ pivotAfter Examples.viewport0
       (handleZoom Examples.viewport0 (Some Examples.rect0) 0.1) (mkPosition 1 1)
     = mkPosition 1 1.
Proof.
  assert (H : MIN_ZOOM <= scale Examples.viewport0 <= MAX_ZOOM).
  { unfold MIN_ZOOM, MAX_ZOOM. simpl. lra. }
  split; [exact H |].
  apply (proj1 (zoom_fixed_point Examples.viewport0 Examples.rect0 0.1 0 (mkPosition 1 1) H)).
  right. reflexivity.
Defined.

End ZoomPivot.

(** ** Connection dragging *)

Section ConnectionDrag.

Import Workspace App.
Local Open Scope R_scope.

Lemma handleMouseMove_closure (d : Drag) (ws : State) (rect : option DOMRect) (cx cy : R) :
  sameClosure d (fst (handleMouseMove d ws rect cx cy)).
Proof. destruct rect; simpl; repeat split. Qed.

Lemma dragMoves_closure (moves : list PointerEvent) (d : Drag) (ws : State) :
  sameClosure d (fst (dragMoves d ws moves)).
Proof.
  unfold dragMoves. revert d ws.
  induction moves as [| ev moves IH]; intros d ws; simpl.
  - repeat split.
  - destruct (handleMouseMove d ws (ev_rect ev) (clientX ev) (clientY ev)) as [d1 ws1] eqn:E.
    specialize (IH d1 ws1).
    pose proof (handleMouseMove_closure d ws (ev_rect ev) (clientX ev) (clientY ev)) as H1.
    rewrite E in H1. simpl in H1. unfold sameClosure in *.
    destruct IH as (-> & -> & -> & -> & -> & -> & ->). exact H1.
Qed.

Lemma dragMoves_last (moves : list PointerEvent) (ev : PointerEvent) (d : Drag) (ws : State) :
  dragMoves d ws (moves ++ [ev])
  = handleMouseMove (fst (dragMoves d ws moves)) (snd (dragMoves d ws moves))
      (ev_rect ev) (clientX ev) (clientY ev).
Proof. unfold dragMoves. rewrite fold_left_app. reflexivity. Qed.

(** With every anchor beyond the snap distance the search keeps its
    initial "no candidate". *)
Lemma snapSearch_none (positions : list (string * Position)) (mx my snapDistance : R) :
  (forall fid pos, In (fid, pos) positions -> snapDistance < distance pos mx my) ->
  snapSearch positions mx my snapDistance = None.
Proof.
  unfold snapSearch. intros Hfar.
  assert (H : fold_left (snapStep mx my snapDistance) positions (None, None) = (None, None)).
  { induction positions as [| [fid pos] rest IH]; simpl; [reflexivity |].
    unfold snapStep at 2. simpl.
    destruct (Rle_dec (distance pos mx my) snapDistance) as [Hle | _].
    - specialize (Hfar fid pos (or_introl eq_refl)). lra.
    - apply IH. intros fid' pos' Hin. apply (Hfar fid' pos'). right. exact Hin. }
  rewrite H. reflexivity.
Qed.

Lemma release_without_candidate (d : Drag) (ws : State) (st : Playground.State) (now : nat) :
  currentSnapCandidate d = None ->
  snd (handleMouseUp d ws (Playground.nodes st)) = None
  /\ snd (release d ws st now) = st
  /\ connectionStart (fst (release d ws st now)) = None.
Proof.
  intros Hc. unfold release, handleMouseUp. rewrite Hc. simpl. auto.
Qed.

(** In the frame of the render in which the drag started.  A connection
    drag whose pointer was last seen farther than [40 / scale] from every
    port anchor, with the scale, the offset and the anchors the drag closed
    over at button-down, proposes no edge when the button is released: the
    graph is left as it was and the drag is over.  When the viewport
    changes during the drag, this frame is not the one on screen. *)
Theorem release_beyond_snap_radius (d : Drag) (ws : State) (st : Playground.State)
    (moves : list PointerEvent) (rect : DOMRect) (cx cy : R) (now : nat) :
  (forall fid pos, In (fid, pos) (d_fieldPositions d) ->
     40 / d_scale d
     < distance pos ((cx - rect_left rect) / d_scale d - pos_x (d_offset d))
                    ((cy - rect_top rect) / d_scale d - pos_y (d_offset d))) ->
  let dragged := dragMoves d ws (moves ++ [mkPointer (Some rect) cx cy]) in
  currentSnapCandidate (fst dragged) = None
  /\ snd (handleMouseUp (fst dragged) (snd dragged) (Playground.nodes st)) = None
  /\ snd (release (fst dragged) (snd dragged) st now) = st
  /\ connectionStart (fst (release (fst dragged) (snd dragged) st now)) = None.
Proof.
  intros Hfar dragged.
  assert (Hc : currentSnapCandidate (fst dragged) = None).
  { unfold dragged. rewrite dragMoves_last. simpl.
    destruct (dragMoves_closure moves d ws) as (_ & _ & _ & Hs & Ho & Hp & _).
    rewrite Hs, Ho, Hp. apply snapSearch_none. exact Hfar. }
  split; [exact Hc |]. apply release_without_candidate. exact Hc.
Qed.

Lemma release_beyond_snap_radius_witness :
  (forall fid pos, In (fid, pos) (d_fieldPositions Examples.dragFromOutput) ->
     40 / d_scale Examples.dragFromOutput
     < distance pos
         ((100 - rect_left Examples.rect0) / d_scale Examples.dragFromOutput
          - pos_x (d_offset Examples.dragFromOutput))
         ((0 - rect_top Examples.rect0) / d_scale Examples.dragFromOutput
          - pos_y (d_offset Examples.dragFromOutput)))
  /\ snd (release
            (fst (dragMoves Examples.dragFromOutput Examples.oneAnchor
                    ([] ++ [mkPointer (Some Examples.rect0) 100 0])))
            (snd (dragMoves Examples.dragFromOutput Examples.oneAnchor
                    ([] ++ [mkPointer (Some Examples.rect0) 100 0])))
            Examples.textAgentGraph 20)
      = Examples.textAgentGraph.
Proof.
  assert (Hfar : forall fid pos, In (fid, pos) (d_fieldPositions Examples.dragFromOutput) ->
     40 / d_scale Examples.dragFromOutput
     < distance pos
         ((100 - rect_left Examples.rect0) / d_scale Examples.dragFromOutput
          - pos_x (d_offset Examples.dragFromOutput))
         ((0 - rect_top Examples.rect0) / d_scale Examples.dragFromOutput
          - pos_y (d_offset Examples.dragFromOutput))).
  { intros fid pos [Hin | []]. injection Hin as _ <-.
    unfold distance. simpl.
    replace ((0 - ((100 - 0) / 1 - 0)) * (0 - ((100 - 0) / 1 - 0))
             + (0 - ((0 - 0) / 1 - 0)) * (0 - ((0 - 0) / 1 - 0)))
      with (100 * 100) by field.
    rewrite sqrt_square; lra. }
  split; [exact Hfar |].
  exact (proj1 (proj2 (proj2
           (release_beyond_snap_radius Examples.dragFromOutput Examples.oneAnchor
              Examples.textAgentGraph [] Examples.rect0 100 0 20 Hfar)))).
Defined.




End ConnectionDrag.

(** ** Graph state: adding and removing edges and nodes *)

Section GraphFacts.

Import Playground App.

Lemma hasNodeId_In (nodes : list NodeData) (id : string) :
  hasNodeId nodes id = true <-> In id (map n_id nodes).
Proof.
  unfold hasNodeId. rewrite existsb_exists, in_map_iff.
  split; intros [n [H1 H2]]; exists n.
  - apply String.eqb_eq in H2. auto.
  - split; [exact H2 | apply String.eqb_eq; exact H1].
Qed.

Lemma depsChanged_same_nodes (prev next : State) :
  nodes next = nodes prev -> depsChanged prev next = false.
Proof.
  intros H. unfold depsChanged, cleanupDeps. simpl. rewrite H.
  rewrite Nat.eqb_refl, String.eqb_refl. reflexivity.
Qed.

Lemma depsChanged_length (prev next : State) :
  length (nodes next) <> length (nodes prev) -> depsChanged prev next = true.
Proof.
  intros H. unfold depsChanged, cleanupDeps. simpl.
  destruct (Nat.eqb_spec (length (nodes prev)) (length (nodes next))) as [E | _];
    [congruence | reflexivity].
Qed.

Lemma settle_same_nodes (prev next : State) :
  nodes next = nodes prev -> settle prev next = next.
Proof. intros H. unfold settle. rewrite depsChanged_same_nodes by exact H. reflexivity. Qed.

Lemma sameTuple_refl (edge : EdgeData) (id : string) :
  sameTuple (mkEdge id (e_source edge) (e_sourceHandle edge) (e_target edge)
               (e_targetHandle edge)) edge = true.
Proof. unfold sameTuple. simpl. rewrite !String.eqb_refl. reflexivity. Qed.

(** C4. Submitting an edge whose (source, sourceHandle, target,
    targetHandle) is already present leaves the state as it is; a second
    submission of the same candidate changes nothing, and after two
    submissions the number of edges with that 4-tuple is what it was, or 1
    if there was none. *)
Theorem addEdge_idempotent (st : State) (edge : EdgeData) (now now' : nat) :
  let submit := fun (s : State) (t : nat) =>
                  settle s (commit s (handleAddEdge (edges s) edge t)) in
  let present := fun (s : State) => existsb (fun e => sameTuple e edge) (edges s) in
  let count := fun (s : State) => length (List.filter (fun e => sameTuple e edge) (edges s)) in
  (if present st then submit st now = st
   else submit st now
        = mkState (nodes st)
            (edges st ++ [mkEdge ("edge-" ++ Js.dateNow now) (e_source edge)
                            (e_sourceHandle edge) (e_target edge) (e_targetHandle edge)]))
  /\ submit (submit st now) now' = submit st now
  /\ count (submit (submit st now) now') = Nat.max 1 (count st).
Proof.
  intros submit present count.
  assert (Hsubmit : forall s t, submit s t = commit s (handleAddEdge (edges s) edge t)).
  { intros s t. unfold submit. apply settle_same_nodes.
    unfold handleAddEdge. destruct (negb _); reflexivity. }
  assert (Hkeep : forall s t, present s = true -> submit s t = s).
  { intros s t Hp. rewrite Hsubmit. unfold handleAddEdge. fold (present s).
    rewrite Hp. destruct s. reflexivity. }
  assert (Hadd : forall s t, present s = false -> submit s t
            = mkState (nodes s)
                (edges s ++ [mkEdge ("edge-" ++ Js.dateNow t) (e_source edge)
                               (e_sourceHandle edge) (e_target edge) (e_targetHandle edge)])).
  { intros s t Hp. rewrite Hsubmit. unfold handleAddEdge. fold (present s).
    rewrite Hp. reflexivity. }
  assert (Hthen : forall s t, present (submit s t) = true).
  { intros s t. destruct (present s) eqn:Hp.
    - rewrite Hkeep by exact Hp. exact Hp.
    - rewrite Hadd by exact Hp. unfold present. simpl.
      rewrite existsb_app. simpl. rewrite sameTuple_refl. apply orb_true_iff. right. reflexivity. }
  assert (Hsecond : submit (submit st now) now' = submit st now).
  { apply Hkeep, Hthen. }
  split; [| split].
  - destruct (present st) eqn:Hp; [apply Hkeep | apply Hadd]; exact Hp.
  - exact Hsecond.
  - rewrite Hsecond. destruct (present st) eqn:Hp.
    + rewrite Hkeep by exact Hp. unfold present in Hp. unfold count.
      apply existsb_exists in Hp. destruct Hp as [e [Hin He]].
      assert (Hf : In e (List.filter (fun e0 => sameTuple e0 edge) (edges st))).
      { apply List.filter_In. auto. }
      destruct (List.filter (fun e0 => sameTuple e0 edge) (edges st)); [destruct Hf | simpl; lia].
    + rewrite Hadd by exact Hp. unfold count. simpl.
      rewrite List.filter_app. simpl. rewrite sameTuple_refl.
      assert (Hnone : List.filter (fun e => sameTuple e edge) (edges st) = []).
      { unfold present in Hp. induction (edges st) as [| e rest IH]; [reflexivity |].
        simpl in Hp |- *. apply orb_false_iff in Hp. destruct Hp as [He Hrest].
        rewrite He. apply IH. exact Hrest. }
      rewrite Hnone. reflexivity.
Qed.

(** *** Liveness of the edges *)

Lemma filter_empty_false {A : Type} (f : A -> bool) (l : list A) (a : A) :
  (0 <? length (List.filter f l))%nat = false -> In a l -> f a = false.
Proof.
  intros Hlen Hin. apply Nat.ltb_ge in Hlen.
  destruct (f a) eqn:Hf; [| reflexivity].
  assert (Hbad : In a (List.filter f l)) by (apply List.filter_In; auto).
  destruct (List.filter f l); [destruct Hbad | simpl in Hlen; lia].
Qed.

Lemma cleanup_live (rendered : State) :
  edgesLive (commit rendered (cleanupEffect rendered)).
Proof.
  unfold cleanupEffect, edgesLive.
  destruct (0 <? length _)%nat eqn:Hinv; simpl; intros edge Hin.
  - apply List.filter_In in Hin. destruct Hin as [_ Hv].
    apply andb_true_iff in Hv. destruct Hv as [Hs Ht].
    split; apply hasNodeId_In; assumption.
  - pose proof (filter_empty_false _ _ edge Hinv Hin) as Hok. simpl in Hok.
    apply orb_false_iff in Hok. destruct Hok as [Hs Ht].
    apply negb_false_iff in Hs, Ht.
    split; apply hasNodeId_In; assumption.
Qed.

Lemma settle_live (prev rendered : State) :
  edgesLive rendered -> edgesLive (settle prev rendered).
Proof.
  intros H. unfold settle. destruct (depsChanged prev rendered); [apply cleanup_live | exact H].
Qed.

Lemma edgesLive_more_nodes (st : State) (extra : list NodeData) :
  edgesLive st -> edgesLive (mkState (nodes st ++ extra) (edges st)).
Proof.
  intros H edge Hin. simpl in *. rewrite map_app.
  destruct (H edge Hin). split; apply in_or_app; left; assumption.
Qed.

Lemma edgesLive_fewer_edges (st : State) (f : EdgeData -> bool) :
  edgesLive st -> edgesLive (mkState (nodes st) (List.filter f (edges st))).
Proof.
  intros H edge Hin. simpl in *. apply List.filter_In in Hin. apply H, Hin.
Qed.

Lemma filter_out_shorter (node : NodeData) (l : list NodeData) :
  In node l ->
  (length (List.filter (fun n => negb (String.eqb (n_id n) (n_id node))) l) < length l)%nat.
Proof.
  induction l as [| n l IH]; intros Hin; [destruct Hin |].
  pose proof (List.filter_length_le (fun n => negb (String.eqb (n_id n) (n_id node))) l) as Hle.
  simpl. destruct Hin as [-> | Hin].
  - rewrite String.eqb_refl. simpl. lia.
  - specialize (IH Hin). destruct (negb _); simpl; lia.
Qed.

Lemma last_value_wins {A B : Type} (s : A) (g : B -> A) (l : list B) :
  fold_left applyAction (flat_map (fun b => [SetValue (g b)]) l) s
  = match rev l with
    | [] => s
    | b :: _ => g b
    end.
Proof.
  induction l as [| b l IH] using rev_ind; [reflexivity |].
  rewrite flat_map_app, fold_left_app, rev_app_distr. reflexivity.
Qed.

(** The edge list the delete click leaves: every [onRemoveEdge] filters
    the edges of the same render, so the last call overrides the others. *)
Lemma nodeDeleteClick_last_wins (st : State) (node : NodeData) :
  edges (commit st (Workspace.nodeDeleteClick (edges st) node))
  = match rev (List.filter (fun edge => String.eqb (e_source edge) (n_id node)
                                        || String.eqb (e_target edge) (n_id node))
                           (edges st)) with
    | [] => edges st
    | lastEdge :: _ =>
        List.filter (fun edge => negb (String.eqb (e_id edge) (e_id lastEdge))) (edges st)
    end.
Proof.
  unfold Workspace.nodeDeleteClick, commit, applyQueue. simpl.
  apply (last_value_wins (edges st)
           (fun e => List.filter (fun edge => negb (String.eqb (e_id edge) (e_id e)))
                       (edges st))).
Qed.

Lemma field_element_node (nodes : list NodeData) (id : string) (elem : Workspace.FieldElement) :
  Workspace.querySelectorField nodes id = Some elem ->
  In (Workspace.data_node_id elem) (map n_id nodes).
Proof.
  unfold Workspace.querySelectorField, Workspace.fieldElements. intros H.
  apply find_some in H. destruct H as [H _].
  apply in_flat_map in H. destruct H as [node [Hnode H]].
  apply in_map_iff. exists node. split; [| exact Hnode].
  apply in_app_or in H. destruct H as [H | H];
    apply in_map_iff in H; destruct H as [f [<- _]]; reflexivity.
Qed.

(** The edge a release proposes joins the origin node and the node of a
    rendered port. *)
Lemma handleMouseUp_endpoints (d : Workspace.Drag) (ws ws' : Workspace.State)
    (nodes : list NodeData) (edge : EdgeData) :
  Workspace.handleMouseUp d ws nodes = (ws', Some edge) ->
  forall id, id = e_source edge \/ id = e_target edge ->
    id = Workspace.d_nodeId d \/ In id (map n_id nodes).
Proof.
  unfold Workspace.handleMouseUp. intros H id Hid.
  injection H as _ H.
  destruct (Workspace.currentSnapCandidate d) as [c |]; [| discriminate].
  destruct (negb (Js.truthy c)); [discriminate |].
  destruct (Workspace.querySelectorField nodes c) as [elem |] eqn:Hq; [| discriminate].
  apply field_element_node in Hq.
  destruct (_ && _ && _); [| discriminate].
  destruct (_ && negb _); [| discriminate].
  injection H as <-. simpl in Hid.
  destruct (String.eqb (Workspace.d_fieldType d) "output"); destruct Hid as [-> | ->]; auto.
Qed.

Lemma handleFieldMouseDown_drag (ws ws1 : Workspace.State) (edges : list EdgeData)
    (rect : option Workspace.DOMRect) (cx cy : R) (nodeId fieldId fieldType : string)
    (d : Workspace.Drag) :
  Workspace.handleFieldMouseDown ws edges rect cx cy nodeId fieldId fieldType = (ws1, Some d) ->
  Workspace.d_nodeId d = nodeId /\ Workspace.d_edges d = edges.
Proof.
  unfold Workspace.handleFieldMouseDown. destruct (_ || _); [| discriminate].
  intros H. injection H as _ <-. split; reflexivity.
Qed.

Lemma connectGesture_live (st : State) (ws : Workspace.State) (down : PointerEvent)
    (node : NodeData) (fieldId fieldType : string) (moves : list PointerEvent) (now : nat) :
  edgesLive st -> In node (nodes st) ->
  edgesLive (snd (connectGesture st ws down (n_id node) fieldId fieldType moves now)).
Proof.
  intros Hlive Hnode. unfold connectGesture.
  destruct (Workspace.handleFieldMouseDown _ _ _ _ _ _ _ _) as [ws1 [d |]] eqn:Hdown;
    [| exact Hlive].
  apply handleFieldMouseDown_drag in Hdown. destruct Hdown as [Hid Hedges].
  pose proof (dragMoves_closure moves d ws1) as Hclosed.
  destruct (dragMoves d ws1 moves) as [d' ws2]. simpl in Hclosed.
  destruct Hclosed as (Hid' & _ & _ & _ & _ & _ & Hedges').
  unfold release.
  destruct (Workspace.handleMouseUp d' ws2 (nodes st)) as [ws' [edge |]] eqn:Hup;
    [| exact Hlive].
  pose proof (handleMouseUp_endpoints _ _ _ _ _ Hup) as Hends.
  simpl. unfold handleAddEdge. destruct (negb _); [| exact Hlive].
  rewrite Hedges', Hedges. intros e He. simpl in He |- *.
  apply in_app_or in He. destruct He as [He | [<- | []]]; [apply Hlive, He |].
  assert (Hend : forall id, id = e_source edge \/ id = e_target edge ->
                            In id (map n_id (nodes st))).
  { intros id Hor. destruct (Hends id Hor) as [-> | Hin]; [| exact Hin].
    rewrite Hid', Hid. apply in_map. exact Hnode. }
  simpl. split; apply Hend; auto.
Qed.

Lemma step_live (st st' : State) : edgesLive st -> step st st' -> edgesLive st'.
Proof.
  intros Hlive Hstep. destruct Hstep as
    [st nodeType viewportCenter now | st nodeType position now | st node Hnode
    | st edge Hedge | st ws down node fieldId fieldType moves now Hnode].
  - apply settle_live. unfold handleAddNode.
    destruct (lookupTemplate nodeType); [| exact Hlive].
    apply (edgesLive_more_nodes st [_] Hlive).
  - apply settle_live. unfold handleNodeDrop.
    destruct (lookupTemplate nodeType); [| exact Hlive].
    apply (edgesLive_more_nodes st [_] Hlive).
  - unfold settle. rewrite depsChanged_length; [apply cleanup_live |].
    simpl. pose proof (filter_out_shorter node (nodes st) Hnode). lia.
  - apply settle_live. apply (edgesLive_fewer_edges st _ Hlive).
  - apply settle_live, connectGesture_live; assumption.
Qed.

(** Liveness once the effects have run.  The playground starts without
    dangling edges, and after every operation of any sequence of node
    additions, node removals, edge removals and connection gestures, each
    taken together with the render it causes and the cleanup effect of
    that render, every edge has its source and its target among the
    current nodes.  The state a delete click leaves before the effect has
    run is not covered. *)
Theorem edges_stay_live :
  edgesLive initial
  /\ forall st st', edgesLive st -> steps st st' -> edgesLive st'.
Proof.
  split.
  - intros edge [].
  - intros st st' Hlive Hsteps. induction Hsteps as [st | st st2 st3 _ IH Hstep].
    + exact Hlive.
    + apply (step_live st2 st3); [apply IH, Hlive | exact Hstep].
Qed.

Lemma edges_stay_live_witness :
  edgesLive Examples.textAgentGraph
  /\ edges (settle Examples.textAgentGraph
              (commit Examples.textAgentGraph
                 (Workspace.nodeDeleteClick (edges Examples.textAgentGraph)
                    (nth 2 Examples.textAgentNodes Examples.calculatorNode))))
     = [mkEdge "edge-10" "node-1" "output-1-1" "node-2" "input-3-2"]
  /\ edgesLive (settle Examples.textAgentGraph
                  (commit Examples.textAgentGraph
                     (Workspace.nodeDeleteClick (edges Examples.textAgentGraph)
                        (nth 2 Examples.textAgentNodes Examples.calculatorNode)))).
Proof.
  assert (Hlive : edgesLive Examples.textAgentGraph).
  { intros edge [<- | [<- | []]]; simpl; tauto. }
  split; [exact Hlive |]. split; [reflexivity |].
  apply (proj2 edges_stay_live Examples.textAgentGraph); [exact Hlive |].
  eapply steps_then; [apply steps_refl |].
  apply (step_removeNode Examples.textAgentGraph
           (nth 2 Examples.textAgentNodes Examples.calculatorNode)).
  right. right. left. reflexivity.
Defined.

(** C5 at a node with two edges.  The text-agent graph has two edges, both
    touching the Text-Agent node.  The state rendered after the click on
    that node's delete button has lost the node but still holds the first
    of the two edges, now dangling: one edge is gone, not two.  Only the
    cleanup effect of the following render removes it. *)
Lemma delete_click_drops_one_of_two_edges :
  length (edges Examples.textAgentGraph) = 2%nat
  /\ List.filter (fun edge => String.eqb (e_source edge) (n_id Examples.textAgentNode)
                              || String.eqb (e_target edge) (n_id Examples.textAgentNode))
                 (edges Examples.textAgentGraph)
     = edges Examples.textAgentGraph
  /\ map n_id (nodes Examples.afterDeleteClick) = ["node-1"; "node-3"]
  /\ edges Examples.afterDeleteClick
     = [mkEdge "edge-10" "node-1" "output-1-1" "node-2" "input-3-2"]
  /\ ~ edgesLive Examples.afterDeleteClick
  /\ edges (settle Examples.textAgentGraph Examples.afterDeleteClick) = [].
Proof.
  assert (He : edges Examples.afterDeleteClick
               = [mkEdge "edge-10" "node-1" "output-1-1" "node-2" "input-3-2"])
    by reflexivity.
  assert (Hn : map n_id (nodes Examples.afterDeleteClick) = ["node-1"; "node-3"])
    by reflexivity.
  repeat split; try reflexivity; try assumption.
  intros Hlive.
  assert (Hin : In (mkEdge "edge-10" "node-1" "output-1-1" "node-2" "input-3-2")
                   (edges Examples.afterDeleteClick))
    by (rewrite He; left; reflexivity).
  destruct (Hlive _ Hin) as [_ Ht]. rewrite Hn in Ht. simpl in Ht.
  intuition discriminate.
Qed.

(** *** The state a node removal settles in *)

Lemma filter_keeps_all {A : Type} (f : A -> bool) (l : list A) :
  (forall a, In a l -> f a = true) -> List.filter f l = l.
Proof.
  induction l as [| a l IH]; intros H; simpl; [reflexivity |].
  rewrite (H a (or_introl eq_refl)). f_equal. apply IH. intros b Hb. apply H. right. exact Hb.
Qed.

Lemma filter_twice {A : Type} (f g : A -> bool) (l : list A) :
  List.filter f (List.filter g l) = List.filter (fun a => g a && f a) l.
Proof.
  induction l as [| a l IH]; simpl; [reflexivity |].
  destruct (g a); simpl; [destruct (f a) |]; rewrite IH; reflexivity.
Qed.

Lemma cleanup_commit (rendered : State) :
  commit rendered (cleanupEffect rendered)
  = mkState (nodes rendered)
      (List.filter (fun edge => hasNodeId (nodes rendered) (e_source edge)
                                && hasNodeId (nodes rendered) (e_target edge))
                   (edges rendered)).
Proof.
  unfold cleanupEffect. destruct (0 <? length _)%nat eqn:Hinv; [reflexivity |].
  rewrite filter_keeps_all; [destruct rendered; reflexivity |].
  intros edge Hin. pose proof (filter_empty_false _ _ edge Hinv Hin) as Hok. simpl in Hok.
  apply orb_false_iff in Hok. destruct Hok as [Hs Ht].
  apply negb_false_iff in Hs, Ht. rewrite Hs, Ht. reflexivity.
Qed.

Lemma hasNodeId_filter (nodes : list NodeData) (removed id : string) :
  hasNodeId (List.filter (fun n => negb (String.eqb (n_id n) removed)) nodes) id
  = hasNodeId nodes id && negb (String.eqb id removed).
Proof.
  unfold hasNodeId. induction nodes as [| n nodes IH]; [reflexivity |]. simpl.
  destruct (String.eqb_spec (n_id n) removed) as [Hr | Hr]; simpl; rewrite IH.
  - destruct (String.eqb_spec (n_id n) id) as [Hi | Hi]; simpl; [| reflexivity].
    subst. rewrite String.eqb_refl. simpl. rewrite andb_false_r. reflexivity.
  - destruct (String.eqb_spec (n_id n) id) as [Hi | Hi]; simpl; [| reflexivity].
    subst. destruct (String.eqb_spec (n_id n) removed); [contradiction | reflexivity].
Qed.

Lemma same_id_same_edge (l : list EdgeData) (a b : EdgeData) :
  List.NoDup (map e_id l) -> In a l -> In b l -> e_id a = e_id b -> a = b.
Proof.
  induction l as [| e l IH]; intros Hnd Ha Hb Hid; [destruct Ha |].
  simpl in Hnd. inversion Hnd as [| ? ? Hnotin Hrest]. subst.
  destruct Ha as [-> | Ha], Hb as [-> | Hb]; auto.
  - exfalso. apply Hnotin. rewrite Hid. apply in_map. exact Hb.
  - exfalso. apply Hnotin. rewrite <- Hid. apply in_map. exact Ha.
Qed.

(** Once the cleanup effect has run, the removal of a rendered node has
    taken the node and exactly the edges touching it, provided the edges
    were live and their identifiers distinct. *)
Lemma removeNode_settled (st : State) (node : NodeData) :
  edgesLive st -> List.NoDup (map e_id (edges st)) -> In node (nodes st) ->
  settle st (commit st (Workspace.nodeDeleteClick (edges st) node))
  = mkState
      (List.filter (fun n => negb (String.eqb (n_id n) (n_id node))) (nodes st))
      (List.filter (fun edge => negb (String.eqb (e_source edge) (n_id node)
                                     || String.eqb (e_target edge) (n_id node)))
                   (edges st)).
Proof.
  intros Hlive Hnd Hnode.
  set (touches := fun edge : EdgeData =>
                    String.eqb (e_source edge) (n_id node)
                    || String.eqb (e_target edge) (n_id node)).
  pose proof (nodeDeleteClick_last_wins st node) as Hedges. fold touches in Hedges.
  set (rendered := commit st (Workspace.nodeDeleteClick (edges st) node)) in *.
  assert (Hnodes : nodes rendered
                   = List.filter (fun n => negb (String.eqb (n_id n) (n_id node))) (nodes st))
    by reflexivity.
  unfold settle. rewrite depsChanged_length.
  2:{ rewrite Hnodes. pose proof (filter_out_shorter node (nodes st) Hnode). lia. }
  rewrite cleanup_commit, Hnodes. f_equal.
  assert (Hvalid : forall edge, In edge (edges st) ->
            hasNodeId (List.filter (fun n => negb (String.eqb (n_id n) (n_id node))) (nodes st))
              (e_source edge)
            && hasNodeId (List.filter (fun n => negb (String.eqb (n_id n) (n_id node)))
                            (nodes st)) (e_target edge)
            = negb (touches edge)).
  { intros edge Hin. destruct (Hlive edge Hin) as [Hs Ht].
    apply hasNodeId_In in Hs, Ht. rewrite !hasNodeId_filter, Hs, Ht. unfold touches.
    simpl. rewrite negb_orb. reflexivity. }
  rewrite Hedges. destruct (rev (List.filter touches (edges st))) as [| lastEdge rest] eqn:Hrev.
  - apply filter_ext_in. exact Hvalid.
  - assert (Hlast : In lastEdge (edges st) /\ touches lastEdge = true).
    { apply List.filter_In. apply in_rev. rewrite Hrev. left. reflexivity. }
    destruct Hlast as [Hlast Htouch].
    rewrite filter_twice. apply filter_ext_in. intros edge Hin.
    rewrite (Hvalid edge Hin).
    destruct (String.eqb_spec (e_id edge) (e_id lastEdge)) as [Hid | _]; [| reflexivity].
    rewrite (same_id_same_edge _ _ _ Hnd Hin Hlast Hid).
    unfold touches in Htouch |- *. rewrite Htouch. reflexivity.
Qed.

End GraphFacts.

(** ** Strings: splitting at the arrow *)

Section StringFacts.

Lemma append_cons (c : ascii) (s t : string) : String c s ++ t = String c (s ++ t).
Proof. reflexivity. Qed.

Lemma append_empty_l (s : string) : "" ++ s = s.
Proof. reflexivity. Qed.

Lemma append_empty_r (s : string) : s ++ "" = s.
Proof.
  induction s as [| c s IH]; [reflexivity |]. rewrite append_cons, IH. reflexivity.
Qed.

Lemma append_assoc (a b c : string) : (a ++ b) ++ c = a ++ (b ++ c).
Proof.
  induction a as [| x a IH]; [reflexivity |]. rewrite !append_cons, IH. reflexivity.
Qed.

Lemma arrowFree_cons (c : ascii) (s : string) :
  arrowFree (String c s) -> Js.startsWith (String c s) Js.arrow = false /\ arrowFree s.
Proof. unfold arrowFree. simpl Js.includes. intros H. apply orb_false_iff in H. exact H. Qed.

(** The arrow does not overlap itself: an occurrence cannot begin inside
    an arrow-free prefix and end inside the arrow that follows it. *)
Lemma no_arrow_across (a b : string) :
  arrowFree a -> a <> "" -> Js.startsWith (a ++ Js.arrow ++ b) Js.arrow = false.
Proof.
  intros Hfree Hne. unfold Js.arrow in *.
  destruct a as [| c1 [| c2 [| c3 a3]]]; [congruence | | |];
    rewrite ?append_cons, ?append_empty_l.
  - cbn [Js.startsWith]. destruct (Ascii.eqb _ c1); reflexivity.
  - cbn [Js.startsWith]. destruct (Ascii.eqb _ c1); destruct (Ascii.eqb _ c2); reflexivity.
  - apply arrowFree_cons in Hfree. destruct Hfree as [Hstart _].
    unfold Js.arrow in Hstart. cbn [Js.startsWith] in Hstart |- *. exact Hstart.
Qed.

Lemma splitGo_arrow_free (b acc : string) :
  arrowFree b -> Js.splitGo Js.arrow b 0 acc = [acc ++ b].
Proof.
  revert acc. induction b as [| c b IH]; intros acc Hfree.
  - simpl. rewrite append_empty_r. reflexivity.
  - apply arrowFree_cons in Hfree. destruct Hfree as [Hstart Hfree].
    cbn [Js.splitGo]. rewrite Hstart. rewrite IH by exact Hfree.
    rewrite append_assoc. reflexivity.
Qed.

Lemma splitGo_at_arrow (a b acc : string) :
  arrowFree a ->
  Js.splitGo Js.arrow (a ++ Js.arrow ++ b) 0 acc = (acc ++ a) :: Js.splitGo Js.arrow b 0 "".
Proof.
  revert acc. induction a as [| c a IH]; intros acc Hfree.
  - rewrite append_empty_r, append_empty_l. reflexivity.
  - pose proof (no_arrow_across (String c a) b Hfree ltac:(discriminate)) as Hno.
    apply arrowFree_cons in Hfree. destruct Hfree as [_ Hfree].
    rewrite append_cons in *.
    cbn [Js.splitGo]. rewrite Hno. rewrite IH by exact Hfree.
    rewrite append_assoc. reflexivity.
Qed.

(** Two arrow-free names joined by the arrow split back into the two. *)
Lemma split_pair (a b : string) :
  arrowFree a -> arrowFree b -> Js.split Js.arrow (a ++ Js.arrow ++ b) = [a; b].
Proof.
  intros Ha Hb. unfold Js.split.
  rewrite splitGo_at_arrow by exact Ha. rewrite splitGo_arrow_free by exact Hb.
  reflexivity.
Qed.

Lemma splitGo_not_empty (sep s : string) (skip : nat) (acc : string) :
  (1 <= length (Js.splitGo sep s skip acc))%nat.
Proof.
  revert skip acc. induction s as [| c s IH]; intros skip acc; simpl; [lia |].
  destruct skip; [| apply IH].
  destruct (Js.startsWith (String c s) sep); [simpl; lia | apply IH].
Qed.

Lemma startsWith_app (sep rest : string) : Js.startsWith (sep ++ rest) sep = true.
Proof.
  induction sep as [| c sep IH]; [destruct rest; reflexivity |].
  rewrite append_cons. simpl. rewrite Ascii.eqb_refl. exact IH.
Qed.

Lemma includes_app (a sep rest : string) : Js.includes (a ++ sep ++ rest) sep = true.
Proof.
  induction a as [| c a IH].
  - rewrite append_empty_l. destruct (sep ++ rest) eqn:E.
    + simpl. rewrite <- E. apply startsWith_app.
    + simpl. rewrite <- E. rewrite startsWith_app. reflexivity.
  - rewrite append_cons. simpl. rewrite IH. apply orb_true_r.
Qed.

(** A string built around an arrow always splits into at least two
    pieces, so [connMatches] never reads a missing piece of [conn]. *)
Lemma split_has_two (a b : string) :
  (2 <= length (Js.split Js.arrow (a ++ Js.arrow ++ b)))%nat.
Proof.
  unfold Js.split. generalize (includes_app a Js.arrow b).
  generalize (a ++ Js.arrow ++ b). generalize "". intros acc s. revert acc.
  induction s as [| c s IH]; intros acc Hinc; [discriminate |].
  cbn [Js.splitGo]. cbn [Js.includes] in Hinc.
  destruct (Js.startsWith (String c s) Js.arrow).
  - pose proof (splitGo_not_empty Js.arrow s (String.length Js.arrow - 1) "") as Hrest.
    rewrite length_cons. lia.
  - apply IH. exact Hinc.
Qed.

(** Every [portConnection] of the catalog has exactly two pieces. *)
Lemma catalog_portConnections_split : everyPortConnectionSplits = true.
Proof. vm_compute. reflexivity. Qed.

(** The callback of [some] on names without arrows: plain containment of
    the expected names in the actual ones. *)
Lemma connMatches_names (actualOutput actualInput expectedOutput expectedInput : string) :
  arrowFree actualOutput -> arrowFree actualInput ->
  arrowFree expectedOutput -> arrowFree expectedInput ->
  Playground.connMatches (expectedOutput ++ Js.arrow ++ expectedInput)
                         (actualOutput ++ Js.arrow ++ actualInput)
  = nameContains actualOutput expectedOutput && nameContains actualInput expectedInput.
Proof.
  intros Hao Hai Heo Hei. unfold Playground.connMatches.
  rewrite !split_pair by assumption. reflexivity.
Qed.

End StringFacts.

(** ** Pattern matcher: what [connections] holds *)

Section ConnectionFacts.

Import Playground.

Lemma connectionsStep_lookup (nodes : list NodeData) (m : gmap string (list string))
    (edge : EdgeData) (key : string) :
  connectionsStep nodes m edge !! key
  = match edgeEntry nodes edge with
    | Some (k, conns) =>
        if String.eqb k key then Some (default [] (m !! k) ++ conns)%list else m !! key
    | None => m !! key
    end.
Proof.
  unfold connectionsStep, edgeEntry.
  destruct (findNode nodes (e_source edge)) as [sourceNode |]; [| reflexivity].
  destruct (findNode nodes (e_target edge)) as [targetNode |]; [| reflexivity].
  set (k := n_type sourceNode ++ Js.arrow ++ n_type targetNode).
  destruct (findField (n_outputs sourceNode) (e_sourceHandle edge)) as [sourceOutput |];
    [destruct (findField (n_inputs targetNode) (e_targetHandle edge)) as [targetInput |] |];
    destruct (String.eqb_spec k key) as [<- | Hne];
    destruct (m !! k) as [l |] eqn:Hk; cbn zeta;
    rewrite ?lookup_insert_eq, ?lookup_insert_ne by exact Hne;
    rewrite ?Hk, ?lookup_insert_eq; cbn [default]; rewrite ?app_nil_r; reflexivity.
Qed.

Lemma buildConnections_snoc (nodes : list NodeData) (edges : list EdgeData) (edge : EdgeData) :
  buildConnections nodes (edges ++ [edge])
  = connectionsStep nodes (buildConnections nodes edges) edge.
Proof. unfold buildConnections. rewrite fold_left_app. reflexivity. Qed.

Lemma no_key_no_entries (nodes : list NodeData) (key : string) (edges : list EdgeData) :
  existsb (hasKey nodes key) edges = false -> flat_map (entriesOf nodes key) edges = [].
Proof.
  induction edges as [| e edges IH]; [reflexivity |]. simpl.
  intros H. apply orb_false_iff in H. destruct H as [He Hrest].
  rewrite IH by exact Hrest. rewrite app_nil_r.
  unfold hasKey in He. unfold entriesOf.
  destruct (edgeEntry nodes e) as [[k conns] |]; [| reflexivity]. rewrite He. reflexivity.
Qed.

(** [connections[key]] after the loop over the edges: undefined when no
    resolved edge has the key, otherwise the port-name pairs of the edges
    with that key, in order. *)
Lemma buildConnections_lookup (nodes : list NodeData) (edges : list EdgeData) (key : string) :
  buildConnections nodes edges !! key
  = if existsb (hasKey nodes key) edges
    then Some (flat_map (entriesOf nodes key) edges)
    else None.
Proof.
  induction edges as [| e edges IH] using rev_ind; [reflexivity |].
  rewrite buildConnections_snoc, connectionsStep_lookup.
  rewrite existsb_app, flat_map_app. simpl. rewrite app_nil_r, orb_false_r.
  unfold hasKey at 2. unfold entriesOf at 2.
  destruct (edgeEntry nodes e) as [[k conns] |].
  - destruct (String.eqb_spec k key) as [-> | Hne].
    + rewrite IH, orb_true_r.
      destruct (existsb (hasKey nodes key) edges) eqn:Hex; [reflexivity |].
      rewrite no_key_no_entries by exact Hex. reflexivity.
    + rewrite IH, orb_false_r, app_nil_r. reflexivity.
  - rewrite IH, orb_false_r, app_nil_r. reflexivity.
Qed.

Lemma entriesOf_In (nodes : list NodeData) (key conn : string) (edge : EdgeData) :
  In conn (entriesOf nodes key edge)
  <-> exists sourceNode targetNode sourceOutput targetInput,
        findNode nodes (e_source edge) = Some sourceNode
        /\ findNode nodes (e_target edge) = Some targetNode
        /\ findField (n_outputs sourceNode) (e_sourceHandle edge) = Some sourceOutput
        /\ findField (n_inputs targetNode) (e_targetHandle edge) = Some targetInput
        /\ n_type sourceNode ++ Js.arrow ++ n_type targetNode = key
        /\ conn = f_name sourceOutput ++ Js.arrow ++ f_name targetInput.
Proof.
  unfold entriesOf, edgeEntry. split.
  - destruct (findNode nodes (e_source edge)) as [sn |]; [| intros []].
    destruct (findNode nodes (e_target edge)) as [tn |]; [| intros []].
    destruct (String.eqb_spec (n_type sn ++ Js.arrow ++ n_type tn) key) as [Hk | _];
      [| intros []].
    destruct (findField (n_outputs sn) (e_sourceHandle edge)) as [so |] eqn:Hso;
      [| intros []].
    destruct (findField (n_inputs tn) (e_targetHandle edge)) as [ti |] eqn:Hti;
      [| intros []].
    intros [<- | []]. exists sn, tn, so, ti. repeat split; assumption.
  - intros (sn & tn & so & ti & -> & -> & -> & -> & <- & ->).
    rewrite String.eqb_refl. left. reflexivity.
Qed.

Lemma entries_have_key (nodes : list NodeData) (key conn : string) (edge : EdgeData) :
  In conn (entriesOf nodes key edge) -> hasKey nodes key edge = true.
Proof.
  unfold entriesOf, hasKey. destruct (edgeEntry nodes edge) as [[k conns] |]; [| intros []].
  destruct (String.eqb k key); [reflexivity | intros []].
Qed.

Lemma connectionSatisfied_iff (nodes : list NodeData) (edges : list EdgeData)
    (c : ConnectionPattern) :
  connectionSatisfied (buildConnections nodes edges) c = true
  <-> exists edge conn,
        In edge edges /\ In conn (entriesOf nodes (nodeConnection c) edge)
        /\ connMatches (portConnection c) conn = true.
Proof.
  unfold connectionSatisfied. rewrite buildConnections_lookup. split.
  - destruct (existsb (hasKey nodes (nodeConnection c)) edges); [| discriminate].
    intros H. apply existsb_exists in H. destruct H as [conn [Hin Hm]].
    apply in_flat_map in Hin. destruct Hin as [edge [He Hc]]. eauto.
  - intros (edge & conn & He & Hc & Hm).
    assert (Hex : existsb (hasKey nodes (nodeConnection c)) edges = true).
    { apply existsb_exists. exists edge. split; [exact He |].
      apply (entries_have_key _ _ conn). exact Hc. }
    rewrite Hex. apply existsb_exists. exists conn. split; [| exact Hm].
    apply in_flat_map. eauto.
Qed.

(** A satisfied connection has an edge between nodes of its two kinds. *)
Lemma connectionSatisfied_edge (nodes : list NodeData) (edges : list EdgeData)
    (c : ConnectionPattern) :
  connectionSatisfied (buildConnections nodes edges) c = true ->
  exists edge sourceNode targetNode,
    In edge edges
    /\ findNode nodes (e_source edge) = Some sourceNode
    /\ findNode nodes (e_target edge) = Some targetNode
    /\ n_type sourceNode ++ Js.arrow ++ n_type targetNode = nodeConnection c.
Proof.
  intros H. apply connectionSatisfied_iff in H. destruct H as (edge & conn & He & Hc & _).
  apply entriesOf_In in Hc. destruct Hc as (sn & tn & _ & _ & Hs & Ht & _ & _ & Hk & _).
  exists edge, sn, tn. auto.
Qed.

End ConnectionFacts.

(** ** Pattern matcher: port names *)

Section PortNameFacts.

Import Playground.

Lemma namesArrowFreeb_ok (nodes : list NodeData) :
  namesArrowFreeb nodes = true -> namesArrowFree nodes.
Proof.
  unfold namesArrowFreeb, namesArrowFree, arrowFree. intros H node field Hn Hf.
  rewrite forallb_forall in H. specialize (H node Hn).
  rewrite forallb_forall in H. specialize (H field Hf).
  apply negb_true_iff in H. exact H.
Qed.

Lemma findNode_some (nodes : list NodeData) (id : string) (node : NodeData) :
  findNode nodes id = Some node -> In node nodes /\ n_id node = id.
Proof.
  unfold findNode. intros H. apply find_some in H.
  destruct H as [Hin Heq]. apply String.eqb_eq in Heq. auto.
Qed.

Lemma findField_some (fields : list NodeField) (id : string) (field : NodeField) :
  findField fields id = Some field -> In field fields.
Proof. unfold findField. intros H. apply find_some in H. tauto. Qed.

(** C2, as the matcher has it.  For a required connection whose expected
    port names carry no arrow, and a graph whose port names carry none, the
    connection is satisfied exactly when some edge joins nodes of the
    required kinds through live ports such that the name of the source
    output contains the expected output name and the name of the target
    input contains the expected input name, case-insensitively.  A name
    that is merely contained in the expected one does not count. *)
Theorem connection_satisfied_by_containment (nodes : list NodeData) (edges : list EdgeData)
    (c : ConnectionPattern) (expectedOutput expectedInput : string) :
  portConnection c = expectedOutput ++ Js.arrow ++ expectedInput ->
  arrowFree expectedOutput -> arrowFree expectedInput ->
  namesArrowFree nodes ->
  (connectionSatisfied (buildConnections nodes edges) c = true
   <-> exists edge,
         In edge edges
         /\ edgeSatisfies nameContains nodes edge (nodeConnection c)
              expectedOutput expectedInput).
Proof.
  intros Hport Heo Hei Hnames. rewrite connectionSatisfied_iff, Hport. split.
  - intros (edge & conn & He & Hc & Hm). exists edge. split; [exact He |].
    apply entriesOf_In in Hc.
    destruct Hc as (sn & tn & so & ti & Hs & Ht & Hso & Hti & Hk & ->).
    assert (Hao : arrowFree (f_name so)).
    { apply (Hnames sn so); [apply (findNode_some _ _ _ Hs) |].
      apply in_or_app. right. exact (findField_some _ _ _ Hso). }
    assert (Hai : arrowFree (f_name ti)).
    { apply (Hnames tn ti); [apply (findNode_some _ _ _ Ht) |].
      apply in_or_app. left. exact (findField_some _ _ _ Hti). }
    rewrite connMatches_names in Hm by assumption.
    apply andb_true_iff in Hm. destruct Hm as [Hm1 Hm2].
    exists sn, tn, so, ti. auto 10.
  - intros (edge & He & sn & tn & so & ti & Hs & Ht & Hso & Hti & Hk & Hm1 & Hm2).
    exists edge, (f_name so ++ Js.arrow ++ f_name ti). split; [exact He |]. split.
    + apply entriesOf_In. exists sn, tn, so, ti. auto 10.
    + assert (Hao : arrowFree (f_name so)).
      { apply (Hnames sn so); [apply (findNode_some _ _ _ Hs) |].
        apply in_or_app. right. exact (findField_some _ _ _ Hso). }
      assert (Hai : arrowFree (f_name ti)).
      { apply (Hnames tn ti); [apply (findNode_some _ _ _ Ht) |].
        apply in_or_app. left. exact (findField_some _ _ _ Hti). }
      rewrite connMatches_names by assumption. rewrite Hm1, Hm2. reflexivity.
Qed.

Lemma connection_satisfied_by_containment_witness :
  (portConnection (mkConn "Text-Input-Tool→Text-Agent" "Text→Query")
   = "Text" ++ Js.arrow ++ "Query"
   /\ arrowFree "Text" /\ arrowFree "Query" /\ namesArrowFree Examples.textAgentNodes)
  /\ exists edge,
       In edge Examples.textAgentEdges
       /\ edgeSatisfies nameContains Examples.textAgentNodes edge
            "Text-Input-Tool→Text-Agent" "Text" "Query".
Proof.
  assert (Hn : namesArrowFree Examples.textAgentNodes)
    by (apply namesArrowFreeb_ok; reflexivity).
  split; [repeat split; try reflexivity; exact Hn |].
  apply (proj1 (connection_satisfied_by_containment Examples.textAgentNodes
                  Examples.textAgentEdges
                  (mkConn "Text-Input-Tool→Text-Agent" "Text→Query") "Text" "Query"
                  eq_refl eq_refl eq_refl Hn)).
  reflexivity.
Defined.

(** The Zoom-Tool output labelled "Out" is contained in the expected
    "Output", so the edge satisfies the connection in the wording of the
    specification; the matcher does not accept it. *)
Lemma contained_name_is_not_matched :
  (exists edge,
      In edge Examples.zoomEdges
      /\ edgeSatisfies Spec.portNamesCompatible Examples.zoomNodes edge
           "Zoom-Tool→End" "Output" "End")
  /\ connectionSatisfied (buildConnections Examples.zoomNodes Examples.zoomEdges)
       (mkConn "Zoom-Tool→End" "Output→End") = false
  /\ connMatches "Output→End" "Out→End" = false
  /\ checkWorkflowPattern Examples.zoomNodes Examples.zoomEdges "zoom-tool" = false.
Proof.
  split; [| repeat split; reflexivity].
  exists (mkEdge "edge-10" "node-1" "output-1-1" "node-2" "input-1-2").
  split; [left; reflexivity |].
  exists (nth 0 Examples.zoomNodes Examples.calculatorNode),
         (nth 1 Examples.zoomNodes Examples.calculatorNode),
         (port "output-1-1" "Out" "string" "output" None (Some false)),
         (port "input-1-2" "End" "none" "input" None None).
  repeat split; reflexivity.
Qed.

End PortNameFacts.

(** ** Pattern matcher: the exact kind-set rule *)

Section KindSetFacts.

Import Playground.

Lemma insertSorted_In (s x : string) (l : list string) :
  In x (Js.insertSorted s l) <-> x = s \/ In x l.
Proof.
  induction l as [| h t IH]; simpl.
  - intuition.
  - destruct (String.leb s h); simpl; [intuition |]. rewrite IH. intuition.
Qed.

Lemma sort_In (x : string) (l : list string) : In x (Js.sort l) <-> In x l.
Proof.
  unfold Js.sort. induction l as [| h t IH]; simpl; [tauto |].
  rewrite insertSorted_In, IH. intuition.
Qed.

Lemma uniq_In (x : string) (l : list string) : In x (Js.uniq l) <-> In x l.
Proof.
  unfold Js.uniq.
  assert (H : forall seen,
             In x (fold_left
                     (fun seen s => if existsb (String.eqb s) seen then seen
                                    else (seen ++ [s])%list) l seen)
             <-> In x seen \/ In x l).
  { induction l as [| h t IH]; intros seen; simpl; [tauto |].
    rewrite IH. destruct (existsb (String.eqb h) seen) eqn:E.
    - apply existsb_exists in E. destruct E as [y [Hy Heq]].
      apply String.eqb_eq in Heq. subst y. intuition (subst; auto).
    - rewrite in_app_iff. simpl. intuition. }
  rewrite H. simpl. tauto.
Qed.

Lemma everyAtIndex_from (k : nat) (l other : list string) :
  forallb
    (fun '(index, v) =>
       match nth_error other index with
       | Some w => String.eqb v w
       | None => false
       end)
    (combine (seq k (length l)) l) = true ->
  forall i v, nth_error l i = Some v -> nth_error other (k + i) = Some v.
Proof.
  revert k. induction l as [| v0 l IH]; intros k H i v Hi.
  - destruct i; discriminate.
  - simpl in H. apply andb_true_iff in H. destruct H as [H0 Hrest].
    destruct i as [| i]; simpl in Hi.
    + injection Hi as <-. rewrite Nat.add_0_r.
      destruct (nth_error other k) as [w |]; [| discriminate].
      apply String.eqb_eq in H0. congruence.
    + replace (k + S i) with (S k + i) by lia. apply (IH (S k) Hrest i v Hi).
Qed.

Lemma nth_error_same {A : Type} (l other : list A) :
  length l = length other ->
  (forall i v, nth_error l i = Some v -> nth_error other i = Some v) ->
  l = other.
Proof.
  revert other. induction l as [| a l IH]; intros [| b other] Hlen H; try discriminate.
  - reflexivity.
  - pose proof (H 0 a eq_refl) as H0. simpl in H0. injection H0 as <-.
    f_equal. apply IH; [simpl in Hlen; lia |].
    intros i v Hi. apply (H (S i) v Hi).
Qed.

Lemma everyAtIndex_eq (l other : list string) :
  length l = length other -> Js.everyAtIndex l other = true -> l = other.
Proof.
  intros Hlen H. apply nth_error_same; [exact Hlen |].
  intros i v Hi. apply (everyAtIndex_from 0 l other H i v Hi).
Qed.

(** The identifiers of the catalog are distinct: looking a pattern up by
    its own identifier finds that pattern. *)
Lemma catalog_find (p : WorkflowPattern) :
  In p workflowPatterns ->
  find (fun q => String.eqb (p_id q) (p_id p)) workflowPatterns = Some p.
Proof.
  intros Hin. unfold workflowPatterns in Hin. simpl in Hin.
  repeat (destruct Hin as [<- | Hin]; [reflexivity |]). destruct Hin.
Qed.

(** What an accepted pattern has passed. *)
Lemma checkWorkflowPattern_true (nodes : list NodeData) (edges : list EdgeData)
    (p : WorkflowPattern) :
  In p workflowPatterns ->
  checkWorkflowPattern nodes edges (p_id p) = true ->
  Js.sort (requiredNodeTypes p) = Js.sort (Js.uniq (map n_type nodes))
  /\ forallb (connectionSatisfied (buildConnections nodes edges)) (p_connections p) = true.
Proof.
  intros Hin. unfold checkWorkflowPattern. rewrite (catalog_find p Hin).
  destruct (Nat.eqb_spec (length (Js.sort (requiredNodeTypes p)))
              (length (Js.sort (Js.uniq (map n_type nodes))))) as [Hlen | _];
    [| discriminate].
  destruct (Js.everyAtIndex _ _) eqn:Hevery; [| discriminate]. simpl.
  destruct (negb (forallb _ (requiredNodeTypes p))); [discriminate |].
  intros H. split; [apply everyAtIndex_eq; assumption | exact H].
Qed.

Lemma accepted_same_kinds (nodes : list NodeData) (edges : list EdgeData)
    (p : WorkflowPattern) :
  In p workflowPatterns ->
  checkWorkflowPattern nodes edges (p_id p) = true ->
  sameKinds nodes (requiredNodeTypes p).
Proof.
  intros Hin Hcheck kind.
  destruct (checkWorkflowPattern_true nodes edges p Hin Hcheck) as [Hsort _].
  rewrite <- (uniq_In kind (map n_type nodes)), <- (sort_In kind (Js.uniq _)), <- Hsort.
  apply sort_In.
Qed.

End KindSetFacts.

Section ExtraNode.

Import Playground.

Lemma catalog_kinds_used : everyKindUsed = true.
Proof. vm_compute. reflexivity. Qed.

Lemma catalog_has_end : everyPatternHasEnd = true.
Proof. vm_compute. reflexivity. Qed.

(** Every required kind of a catalog pattern takes part in one of its
    required connections. *)
Lemma kindUsed_connection (q : WorkflowPattern) (kind : string) :
  In q workflowPatterns -> In kind (requiredNodeTypes q) ->
  exists c,
    In c (p_connections q)
    /\ forall s t, In s (requiredNodeTypes q) -> In t (requiredNodeTypes q) ->
         s ++ Js.arrow ++ t = nodeConnection c -> s = kind \/ t = kind.
Proof.
  intros Hq Hkind. pose proof catalog_kinds_used as H. unfold everyKindUsed in H.
  rewrite forallb_forall in H. specialize (H q Hq).
  rewrite forallb_forall in H. specialize (H kind Hkind).
  unfold kindUsed in H. apply existsb_exists in H. destruct H as [c [Hc H]].
  exists c. split; [exact Hc |]. intros s t Hs Ht Heq.
  rewrite forallb_forall in H. specialize (H s Hs).
  rewrite forallb_forall in H. specialize (H t Ht).
  rewrite Heq, String.eqb_refl in H. simpl in H.
  apply orb_true_iff in H. destruct H as [H | H]; apply String.eqb_eq in H; auto.
Qed.

Lemma In_middle {A : Type} (a extra : A) (pre post : list A) :
  In a (pre ++ extra :: post) <-> a = extra \/ In a (pre ++ post).
Proof. rewrite !in_app_iff. simpl. intuition. Qed.

(** A graph with a node that no edge touches and whose kind no other node
    has is rejected by every pattern of the catalog. *)
Lemma unconnected_extra_rejected (pre post : list NodeData) (extra : NodeData)
    (edges : list EdgeData) (q : WorkflowPattern) :
  In q workflowPatterns ->
  ~ In (n_type extra) (map n_type (pre ++ post)) ->
  unconnected extra edges ->
  checkWorkflowPattern (pre ++ extra :: post) edges (p_id q) = false.
Proof.
  intros Hq Hnew Hfree.
  destruct (checkWorkflowPattern (pre ++ extra :: post) edges (p_id q)) eqn:Hcheck;
    [exfalso | reflexivity].
  pose proof (accepted_same_kinds _ _ _ Hq Hcheck) as Hkinds.
  destruct (checkWorkflowPattern_true _ _ _ Hq Hcheck) as [_ Hconns].
  assert (Hkind : In (n_type extra) (requiredNodeTypes q)).
  { apply Hkinds, in_map, In_middle. left. reflexivity. }
  destruct (kindUsed_connection q _ Hq Hkind) as (c & Hc & Hpair).
  rewrite forallb_forall in Hconns. specialize (Hconns c Hc).
  apply connectionSatisfied_edge in Hconns.
  destruct Hconns as (edge & sn & tn & He & Hs & Ht & Hk).
  apply findNode_some in Hs, Ht. destruct Hs as [Hsn Hsid], Ht as [Htn Htid].
  assert (Hextra : forall node, In node (pre ++ extra :: post) ->
                     n_type node = n_type extra -> node = extra).
  { intros node Hin Hty. apply In_middle in Hin. destruct Hin as [-> | Hin]; [reflexivity |].
    exfalso. apply Hnew. rewrite <- Hty. apply in_map. exact Hin. }
  destruct (Hfree edge He) as [Hsrc Htgt].
  destruct (Hpair (n_type sn) (n_type tn)) as [Hty | Hty];
    try (apply Hkinds, in_map; assumption); try exact Hk.
  - apply Hsrc. rewrite <- Hsid. f_equal. apply Hextra; assumption.
  - apply Htgt. rewrite <- Htid. f_equal. apply Hextra; assumption.
Qed.

(** In a graph whose edges all refer to its nodes, a node with a fresh
    identifier is touched by no edge. *)
Lemma fresh_node_unconnected (st : State) (extra : NodeData) :
  App.edgesLive st -> ~ In (n_id extra) (map n_id (nodes st)) ->
  unconnected extra (edges st).
Proof.
  intros Hlive Hfresh edge He. destruct (Hlive edge He) as [Hs Ht].
  split; intros Heq; apply Hfresh; rewrite <- Heq; assumption.
Qed.

Lemma find_none_all {A : Type} (f : A -> bool) (l : list A) :
  (forall a, In a l -> f a = false) -> find f l = None.
Proof.
  induction l as [| a l IH]; intros H; simpl; [reflexivity |].
  rewrite (H a (or_introl eq_refl)). apply IH. intros b Hb. apply H. right. exact Hb.
Qed.

(** C1. A pattern of the catalog is accepted only for a graph whose kinds
    are exactly the required ones.  Hence, when a graph matches a pattern
    and one node of a kind outside that pattern is put anywhere among its
    nodes without an edge touching it, every pattern rejects the result,
    no pattern is detected, and the play button takes the dynamic
    workflow route. *)
Theorem exact_kind_set_rule (nodes : list NodeData) (edges : list EdgeData)
    (p : WorkflowPattern) :
  In p workflowPatterns ->
  checkWorkflowPattern nodes edges (p_id p) = true ->
  sameKinds nodes (requiredNodeTypes p)
  /\ forall pre post extra,
       nodes = (pre ++ post)%list ->
       ~ In (n_type extra) (requiredNodeTypes p) ->
       unconnected extra edges ->
       (forall q, In q workflowPatterns ->
          checkWorkflowPattern (pre ++ extra :: post) edges (p_id q) = false)
       /\ detectWorkflowPattern (pre ++ extra :: post) edges = None
       /\ handlePlayClick (mkState (pre ++ extra :: post) edges)
          = DynamicWorkflow "http://localhost:8000/execute_dynamic_workflow"
              (List.filter
                 (fun edge => hasNodeId (pre ++ extra :: post) (e_source edge)
                              && hasNodeId (pre ++ extra :: post) (e_target edge))
                 edges).
Proof.
  intros Hp Hcheck.
  pose proof (accepted_same_kinds _ _ _ Hp Hcheck) as Hkinds.
  split; [exact Hkinds |].
  intros pre post extra -> Hother Hfree.
  assert (Hnew : ~ In (n_type extra) (map n_type (pre ++ post))).
  { intros Hin. apply Hother, Hkinds, Hin. }
  assert (Hall : forall q, In q workflowPatterns ->
                   checkWorkflowPattern (pre ++ extra :: post) edges (p_id q) = false).
  { intros q Hq. apply unconnected_extra_rejected; assumption. }
  assert (Hnone : detectWorkflowPattern (pre ++ extra :: post) edges = None).
  { unfold detectWorkflowPattern. rewrite (find_none_all _ _ Hall). reflexivity. }
  split; [exact Hall |]. split; [exact Hnone |].
  unfold handlePlayClick. cbn [Playground.nodes Playground.edges]. rewrite Hnone.
  assert (Hlen : (length (pre ++ extra :: post) =? 0)%nat = false).
  { apply Nat.eqb_neq. rewrite length_app. simpl. lia. }
  assert (Hend : existsb (fun node => String.eqb (n_type node) "End")
                   (pre ++ extra :: post) = true).
  { pose proof catalog_has_end as H. unfold everyPatternHasEnd in H.
    rewrite forallb_forall in H. specialize (H p Hp).
    apply existsb_exists in H. destruct H as [kind [Hin Heq]].
    apply String.eqb_eq in Heq. subst kind.
    apply Hkinds, in_map_iff in Hin. destruct Hin as [node [Hty Hin]].
    apply existsb_exists. exists node. split.
    - apply In_middle. right. exact Hin.
    - rewrite Hty. reflexivity. }
  rewrite Hlen, Hend. reflexivity.
Qed.

Lemma exact_kind_set_rule_witness :
  (In Examples.textAgentPattern workflowPatterns
   /\ checkWorkflowPattern Examples.textAgentNodes Examples.textAgentEdges
        (p_id Examples.textAgentPattern) = true
   /\ Examples.textAgentNodes = (Examples.textAgentNodes ++ [])%list
   /\ ~ In (n_type Examples.calculatorNode) (requiredNodeTypes Examples.textAgentPattern)
   /\ unconnected Examples.calculatorNode Examples.textAgentEdges)
  /\ detectWorkflowPattern (Examples.textAgentNodes ++ [Examples.calculatorNode])
       Examples.textAgentEdges = None.
Proof.
  assert (Hp : In Examples.textAgentPattern workflowPatterns)
    by (do 5 right; left; reflexivity).
  assert (Hc : checkWorkflowPattern Examples.textAgentNodes Examples.textAgentEdges
                 (p_id Examples.textAgentPattern) = true) by reflexivity.
  assert (Happ : Examples.textAgentNodes = (Examples.textAgentNodes ++ [])%list)
    by (symmetry; apply app_nil_r).
  assert (Hk : ~ In (n_type Examples.calculatorNode)
                    (requiredNodeTypes Examples.textAgentPattern))
    by (simpl; intuition discriminate).
  assert (Hu : unconnected Examples.calculatorNode Examples.textAgentEdges).
  { intros edge [<- | [<- | []]]; split; discriminate. }
  split; [auto |].
  exact (proj1 (proj2 (proj2 (exact_kind_set_rule Examples.textAgentNodes
                                Examples.textAgentEdges Examples.textAgentPattern Hp Hc)
                              Examples.textAgentNodes [] Examples.calculatorNode
                              Happ Hk Hu))).
Defined.

(** The scenario of the text-agent graph: it matches the text-agent
    pattern and no other. *)
Lemma text_agent_graph_detected :
  detectWorkflowPattern Examples.textAgentNodes Examples.textAgentEdges
  = Some (mkDetected "text-agent" "http://localhost:8000/text_agent")
  /\ List.filter
       (fun q => checkWorkflowPattern Examples.textAgentNodes Examples.textAgentEdges (p_id q))
       workflowPatterns
     = [Examples.textAgentPattern].
Proof. split; reflexivity. Qed.

(** Why the extra node must be untouched by the edges: a graph that holds
    a dangling edge matches the text-agent pattern, which skips that edge;
    a node placed under the missing identifier revives the edge and the
    larger graph matches the rag pattern. *)
Lemma dangling_edge_connects_extra_node :
  detectWorkflowPattern Examples.textAgentNodes
    (Examples.textAgentEdges ++ [Examples.knowledgeEdge])
  = Some (mkDetected "text-agent" "http://localhost:8000/text_agent")
  /\ ~ In (n_type Examples.knowledgeBaseNode) (requiredNodeTypes Examples.textAgentPattern)
  /\ detectWorkflowPattern (Examples.textAgentNodes ++ [Examples.knowledgeBaseNode])
       (Examples.textAgentEdges ++ [Examples.knowledgeEdge])
     = Some (mkDetected "rag" "http://localhost:8000/rag_agent").
Proof.
  split; [reflexivity |]. split; [simpl; intuition discriminate | reflexivity].
Qed.

End ExtraNode.

(** * Further properties of the matcher and the dispatcher *)

(** ** Sorting the kinds *)

Section SortFacts.

Lemma ascii_compare_refl (c : ascii) : Ascii.compare c c = Eq.
Proof. unfold Ascii.compare. apply N.compare_refl. Qed.

Lemma ascii_compare_lt_trans (a b c : ascii) :
  Ascii.compare a b = Lt -> Ascii.compare b c = Lt -> Ascii.compare a c = Lt.
Proof.
  unfold Ascii.compare. rewrite !N.compare_lt_iff. apply N.lt_trans.
Qed.

Lemma compare_not_gt_trans (s1 s2 s3 : string) :
  String.compare s1 s2 <> Gt -> String.compare s2 s3 <> Gt -> String.compare s1 s3 <> Gt.
Proof.
  revert s2 s3. induction s1 as [| c1 s1 IH]; intros [| c2 s2] [| c3 s3]; simpl;
    try congruence.
  destruct (Ascii.compare c1 c2) eqn:E12; try congruence;
    destruct (Ascii.compare c2 c3) eqn:E23; try congruence.
  - apply Ascii.compare_eq_iff in E12, E23. subst. rewrite ascii_compare_refl. apply IH.
  - apply Ascii.compare_eq_iff in E12. subst. rewrite E23. congruence.
  - apply Ascii.compare_eq_iff in E23. subst. rewrite E12. congruence.
  - rewrite (ascii_compare_lt_trans _ _ _ E12 E23). congruence.
Qed.

Lemma leb_trans (s1 s2 s3 : string) :
  String.leb s1 s2 = true -> String.leb s2 s3 = true -> String.leb s1 s3 = true.
Proof.
  unfold String.leb. intros H12 H23.
  pose proof (compare_not_gt_trans s1 s2 s3) as H.
  destruct (String.compare s1 s2); try discriminate;
    destruct (String.compare s2 s3); try discriminate;
    destruct (String.compare s1 s3); try reflexivity; exfalso; apply H; congruence.
Qed.

Lemma insertSorted_ascending (s : string) (l : list string) :
  ascending l -> ascending (Js.insertSorted s l).
Proof.
  induction l as [| h t IH]; intros Hl; simpl.
  - split; [intros t [] | exact I].
  - destruct Hl as [Hh Ht]. destruct (String.leb s h) eqn:E.
    + split; [| split; assumption].
      intros x [<- | Hx]; [exact E |]. apply (leb_trans s h x E). apply Hh, Hx.
    + split; [| apply IH, Ht].
      intros x Hx. apply insertSorted_In in Hx. destruct Hx as [-> | Hx]; [| apply Hh, Hx].
      destruct (String.leb_total s h) as [H | H]; [congruence | exact H].
Qed.

Lemma sort_ascending (l : list string) : ascending (Js.sort l).
Proof.
  unfold Js.sort. induction l as [| h t IH]; simpl; [exact I |].
  apply insertSorted_ascending, IH.
Qed.

Lemma insertSorted_NoDup (s : string) (l : list string) :
  List.NoDup l -> ~ In s l -> List.NoDup (Js.insertSorted s l).
Proof.
  induction l as [| h t IH]; intros Hl Hs; simpl.
  - constructor; [intros [] | constructor].
  - destruct (String.leb s h); [constructor; assumption |].
    inversion Hl as [| ? ? Hh Ht]. subst. constructor.
    + rewrite insertSorted_In. intros [-> | Hin]; [apply Hs; left; reflexivity | contradiction].
    + apply IH; [exact Ht |]. intros Hin. apply Hs. right. exact Hin.
Qed.

Lemma sort_NoDup (l : list string) : List.NoDup l -> List.NoDup (Js.sort l).
Proof.
  unfold Js.sort. induction l as [| h t IH]; intros Hl; simpl; [constructor |].
  inversion Hl as [| ? ? Hh Ht]. subst.
  apply insertSorted_NoDup; [apply IH, Ht |].
  change (~ In h (Js.sort t)). rewrite sort_In. exact Hh.
Qed.

(** Two ascending lists without repetitions and with the same elements are
    the same list. *)
Lemma ascending_unique (l1 l2 : list string) :
  ascending l1 -> ascending l2 -> List.NoDup l1 -> List.NoDup l2 ->
  (forall x, In x l1 <-> In x l2) -> l1 = l2.
Proof.
  revert l2. induction l1 as [| a l1 IH]; intros [| b l2] H1 H2 N1 N2 Hsame.
  - reflexivity.
  - exfalso. apply (proj2 (Hsame b)). left. reflexivity.
  - exfalso. apply (proj1 (Hsame a)). left. reflexivity.
  - destruct H1 as [Ha H1], H2 as [Hb H2].
    inversion N1 as [| ? ? Na N1']. inversion N2 as [| ? ? Nb N2']. subst.
    assert (Hab : a = b).
    { destruct (proj1 (Hsame a) (or_introl eq_refl)) as [E | Hin]; [congruence |].
      destruct (proj2 (Hsame b) (or_introl eq_refl)) as [E | Hin']; [congruence |].
      apply String.leb_antisym; [apply Ha, Hin' | apply Hb, Hin]. }
    subst b. f_equal. apply IH; try assumption.
    intros x. split; intros Hx.
    + destruct (proj1 (Hsame x) (or_intror Hx)) as [E | Hin]; [| exact Hin].
      subst x. contradiction.
    + destruct (proj2 (Hsame x) (or_intror Hx)) as [E | Hin]; [| exact Hin].
      subst x. contradiction.
Qed.

Lemma uniq_NoDup (l : list string) : List.NoDup (Js.uniq l).
Proof.
  unfold Js.uniq.
  assert (H : forall seen, List.NoDup seen ->
            List.NoDup (fold_left
                          (fun seen s => if existsb (String.eqb s) seen then seen
                                         else (seen ++ [s])%list) l seen)).
  { induction l as [| h t IH]; intros seen Hseen; simpl; [exact Hseen |].
    apply IH. destruct (existsb (String.eqb h) seen) eqn:E; [exact Hseen |].
    apply List.NoDup_app.
    - exact Hseen.
    - constructor; [intros [] | constructor].
    - intros x Hx [<- | []].
      assert (Hex : existsb (String.eqb h) seen = true).
      { apply existsb_exists. exists h. split; [exact Hx | apply String.eqb_refl]. }
      congruence. }
  apply H. constructor.
Qed.

Lemma everyAtIndex_refl_from (k : nat) (pre l : list string) :
  length pre = k ->
  forallb
    (fun '(index, v) =>
       match nth_error (pre ++ l) index with
       | Some w => String.eqb v w
       | None => false
       end)
    (combine (seq k (length l)) l) = true.
Proof.
  revert k pre. induction l as [| v l IH]; intros k pre Hk; simpl; [reflexivity |].
  rewrite nth_error_app2 by lia. replace (k - length pre) with 0 by lia. simpl.
  rewrite String.eqb_refl. simpl.
  replace (pre ++ v :: l)%list with ((pre ++ [v]) ++ l)%list
    by (rewrite <- app_assoc; reflexivity).
  apply IH. rewrite length_app. simpl. lia.
Qed.

Lemma everyAtIndex_refl (l : list string) : Js.everyAtIndex l l = true.
Proof. apply (everyAtIndex_refl_from 0 [] l). reflexivity. Qed.

End SortFacts.

(** ** The matcher, characterised *)

Section MatcherFacts.

Import Playground.

Lemma nodeTypeMapStep_lookup (m : gmap string (list NodeData)) (node : NodeData) (k : string) :
  nodeTypeMapStep m node !! k
  = if String.eqb (n_type node) k
    then Some (default [] (m !! k) ++ [node])%list
    else m !! k.
Proof.
  unfold nodeTypeMapStep.
  destruct (String.eqb_spec (n_type node) k) as [<- | Hne];
    destruct (m !! n_type node) as [l |] eqn:Hk;
    rewrite ?lookup_insert_eq, ?lookup_insert_ne by exact Hne;
    rewrite ?Hk, ?lookup_insert_eq; reflexivity.
Qed.

Lemma filter_none {A : Type} (f : A -> bool) (l : list A) :
  existsb f l = false -> List.filter f l = [].
Proof.
  induction l as [| a l IH]; [reflexivity |]. simpl. intros H.
  apply orb_false_iff in H. destruct H as [Ha Hl]. rewrite Ha. apply IH, Hl.
Qed.

Lemma nodeTypeMap_lookup (nodes : list NodeData) (k : string) :
  fold_left nodeTypeMapStep nodes ∅ !! k
  = if existsb (fun node => String.eqb (n_type node) k) nodes
    then Some (List.filter (fun node => String.eqb (n_type node) k) nodes)
    else None.
Proof.
  induction nodes as [| node nodes IH] using rev_ind; [reflexivity |].
  rewrite fold_left_app. simpl. rewrite nodeTypeMapStep_lookup, IH.
  rewrite existsb_app, List.filter_app. simpl.
  destruct (String.eqb (n_type node) k); simpl.
  - rewrite orb_true_r.
    destruct (existsb (fun node0 => String.eqb (n_type node0) k) nodes) eqn:E; [reflexivity |].
    rewrite (filter_none _ _ E). reflexivity.
  - rewrite orb_false_r, app_nil_r. reflexivity.
Qed.

Lemma memb_In (x : string) (l : list string) : memb x l = true <-> In x l.
Proof.
  unfold memb. rewrite existsb_exists. split.
  - intros [y [Hy E]]. apply String.eqb_eq in E. subst. exact Hy.
  - intros H. exists x. split; [exact H | apply String.eqb_refl].
Qed.

Lemma nodupb_ok (l : list string) : nodupb l = true -> List.NoDup l.
Proof.
  induction l as [| s l IH]; simpl; intros H; [constructor |].
  apply andb_true_iff in H. destruct H as [Hs Hl]. constructor; [| apply IH, Hl].
  intros Hin. apply memb_In in Hin. rewrite Hin in Hs. discriminate.
Qed.

Lemma catalog_required_nodup (p : WorkflowPattern) :
  In p workflowPatterns -> List.NoDup (requiredNodeTypes p).
Proof.
  intros Hp. assert (H : requiredKindsDistinct = true) by (vm_compute; reflexivity).
  unfold requiredKindsDistinct in H. rewrite forallb_forall in H.
  apply nodupb_ok, H, Hp.
Qed.

Lemma kind_has_group (nodes : list NodeData) (k : string) :
  In k (map n_type nodes) ->
  exists l, fold_left nodeTypeMapStep nodes ∅ !! k = Some l /\ l <> [].
Proof.
  intros Hin. apply in_map_iff in Hin. destruct Hin as [node [Hty Hnode]].
  rewrite nodeTypeMap_lookup.
  assert (Hex : existsb (fun n => String.eqb (n_type n) k) nodes = true).
  { apply existsb_exists. exists node. split; [exact Hnode | apply String.eqb_eq, Hty]. }
  rewrite Hex. eexists. split; [reflexivity |].
  intros Hnil.
  assert (Hf : In node (List.filter (fun n => String.eqb (n_type n) k) nodes)).
  { apply List.filter_In. split; [exact Hnode | apply String.eqb_eq, Hty]. }
  rewrite Hnil in Hf. destruct Hf.
Qed.

Lemma presence_check_passes (nodes : list NodeData) (kinds : list string) :
  (forall k, In k kinds -> In k (map n_type nodes)) ->
  forallb
    (fun type =>
       match fold_left nodeTypeMapStep nodes ∅ !! type with
       | None => false
       | Some l => negb (length l =? 0)%nat
       end)
    kinds = true.
Proof.
  intros H. apply forallb_forall. intros k Hk.
  destruct (kind_has_group nodes k (H k Hk)) as [l [-> Hl]].
  destruct l; [congruence | reflexivity].
Qed.

(** In [checkWorkflowPattern], [nodeTypeMap[kind]] is undefined exactly when
    no node has the kind, and is otherwise the nodes of that kind in graph
    order; for a kind that occurs the list is not empty. *)
Theorem nodeTypeMap_groups_by_kind (nodes : list NodeData) (kind : string) :
  fold_left nodeTypeMapStep nodes ∅ !! kind
  = (if existsb (fun node => String.eqb (n_type node) kind) nodes
     then Some (List.filter (fun node => String.eqb (n_type node) kind) nodes)
     else None)
  /\ (In kind (map n_type nodes)
      <-> exists l, fold_left nodeTypeMapStep nodes ∅ !! kind = Some l /\ l <> []).
Proof.
  split; [apply nodeTypeMap_lookup |]. split; [apply kind_has_group |].
  intros [l [Hl _]]. rewrite nodeTypeMap_lookup in Hl.
  destruct (existsb _ nodes) eqn:E; [| discriminate].
  apply existsb_exists in E. destruct E as [node [Hnode Hty]].
  apply String.eqb_eq in Hty. apply in_map_iff. exists node. auto.
Qed.

Lemma checkWorkflowPattern_spec (nodes : list NodeData) (edges : list EdgeData)
    (p : WorkflowPattern) :
  In p workflowPatterns ->
  (checkWorkflowPattern nodes edges (p_id p) = true
   <-> sameKinds nodes (requiredNodeTypes p)
       /\ forall c, In c (p_connections p) ->
            connectionSatisfied (buildConnections nodes edges) c = true).
Proof.
  intros Hp. split.
  - intros H. split; [apply (accepted_same_kinds nodes edges p Hp H) |].
    apply forallb_forall. apply (checkWorkflowPattern_true nodes edges p Hp H).
  - intros [Hkinds Hconns]. unfold checkWorkflowPattern. rewrite (catalog_find p Hp).
    assert (Hsort : Js.sort (requiredNodeTypes p) = Js.sort (Js.uniq (map n_type nodes))).
    { apply ascending_unique; try apply sort_ascending.
      - apply sort_NoDup, catalog_required_nodup, Hp.
      - apply sort_NoDup, uniq_NoDup.
      - intros x. rewrite !sort_In, uniq_In. symmetry. apply Hkinds. }
    rewrite Hsort, Nat.eqb_refl, everyAtIndex_refl. simpl.
    rewrite presence_check_passes by (intros k Hk; apply Hkinds, Hk). simpl.
    apply forallb_forall, Hconns.
Qed.

(** A pattern of the catalog is accepted exactly when the kinds of the
    graph are the required kinds, as sets, and each required connection is
    satisfied: the presence test in between rejects nothing. *)
Theorem checkWorkflowPattern_iff (nodes : list NodeData) (edges : list EdgeData)
    (p : WorkflowPattern) :
  In p workflowPatterns ->
  (checkWorkflowPattern nodes edges (p_id p) = true
   <-> sameKinds nodes (requiredNodeTypes p)
       /\ forall c, In c (p_connections p) ->
            connectionSatisfied (buildConnections nodes edges) c = true).
Proof. apply checkWorkflowPattern_spec. Qed.

Lemma checkWorkflowPattern_iff_witness :
  In Examples.textAgentPattern workflowPatterns
  /\ sameKinds Examples.textAgentNodes (requiredNodeTypes Examples.textAgentPattern).
Proof.
  assert (Hp : In Examples.textAgentPattern workflowPatterns)
    by (do 5 right; left; reflexivity).
  split; [exact Hp |].
  exact (proj1 (proj1 (checkWorkflowPattern_iff Examples.textAgentNodes
                         Examples.textAgentEdges Examples.textAgentPattern Hp) eq_refl)).
Defined.

(** *** At most one pattern *)

Lemma sameSetb_complete (l1 l2 : list string) :
  (forall x, In x l1 <-> In x l2) -> sameSetb l1 l2 = true.
Proof.
  intros H. unfold sameSetb. apply andb_true_iff.
  split; apply forallb_forall; intros x Hx; apply memb_In, H, Hx.
Qed.

Lemma same_kinds_same_pattern (nodes : list NodeData) (p q : WorkflowPattern) :
  In p workflowPatterns -> In q workflowPatterns ->
  sameKinds nodes (requiredNodeTypes p) -> sameKinds nodes (requiredNodeTypes q) ->
  p = q.
Proof.
  intros Hp Hq Kp Kq.
  assert (H : kindSetsDiffer = true) by (vm_compute; reflexivity).
  unfold kindSetsDiffer in H. rewrite forallb_forall in H. specialize (H p Hp).
  rewrite forallb_forall in H. specialize (H q Hq).
  rewrite sameSetb_complete in H by (intros x; rewrite <- (Kp x); apply Kq).
  simpl in H. apply String.eqb_eq in H.
  pose proof (catalog_find p Hp) as Fp. pose proof (catalog_find q Hq) as Fq.
  rewrite H in Fp. congruence.
Qed.

Lemma accepted_unique (nodes : list NodeData) (edges : list EdgeData) (p q : WorkflowPattern) :
  In p workflowPatterns -> In q workflowPatterns ->
  checkWorkflowPattern nodes edges (p_id p) = true ->
  checkWorkflowPattern nodes edges (p_id q) = true ->
  p = q.
Proof.
  intros Hp Hq Cp Cq. apply (same_kinds_same_pattern nodes); try assumption.
  - apply (accepted_same_kinds nodes edges p Hp Cp).
  - apply (accepted_same_kinds nodes edges q Hq Cq).
Qed.

Lemma detect_some (nodes : list NodeData) (edges : list EdgeData) (d : Detected) :
  detectWorkflowPattern nodes edges = Some d ->
  exists p, In p workflowPatterns
            /\ checkWorkflowPattern nodes edges (p_id p) = true
            /\ d = mkDetected (p_id p) (endpoint p).
Proof.
  unfold detectWorkflowPattern. intros H.
  destruct (find _ workflowPatterns) as [p |] eqn:F; [| discriminate].
  apply find_some in F. destruct F as [Hp Hc]. injection H as <-. exists p. auto.
Qed.

(** No graph is accepted by two patterns of the catalog, so the order of
    the catalog breaks no tie: a pattern is the one detected exactly when
    it accepts the graph, and nothing is detected exactly when none does. *)
Theorem detection_is_unique (nodes : list NodeData) (edges : list EdgeData)
    (p : WorkflowPattern) :
  In p workflowPatterns ->
  (forall q, In q workflowPatterns ->
     checkWorkflowPattern nodes edges (p_id p) = true ->
     checkWorkflowPattern nodes edges (p_id q) = true -> p = q)
  /\ (detectWorkflowPattern nodes edges = Some (mkDetected (p_id p) (endpoint p))
      <-> checkWorkflowPattern nodes edges (p_id p) = true)
  /\ (detectWorkflowPattern nodes edges = None
      <-> forall q, In q workflowPatterns ->
            checkWorkflowPattern nodes edges (p_id q) = false).
Proof.
  intros Hp. split; [| split].
  - intros q Hq. apply accepted_unique; assumption.
  - split.
    + intros H. apply detect_some in H. destruct H as (q & Hq & Cq & E).
      injection E as Eid _.
      pose proof (catalog_find p Hp) as Fp. pose proof (catalog_find q Hq) as Fq.
      rewrite Eid in Fp. assert (p = q) by congruence. subst q. exact Cq.
    + intros Cp. unfold detectWorkflowPattern.
      destruct (find _ workflowPatterns) as [q |] eqn:F.
      * apply find_some in F. destruct F as [Hq Cq].
        rewrite (accepted_unique nodes edges p q Hp Hq Cp Cq). reflexivity.
      * exfalso. pose proof (find_none _ _ F p Hp) as Hn. simpl in Hn. congruence.
  - unfold detectWorkflowPattern. split.
    + intros H q Hq. destruct (find _ workflowPatterns) eqn:F; [discriminate |].
      apply (find_none _ _ F q Hq).
    + intros H. rewrite (find_none_all _ _ H). reflexivity.
Qed.

Lemma detection_is_unique_witness :
  In Examples.textAgentPattern workflowPatterns
  /\ detectWorkflowPattern Examples.textAgentNodes Examples.textAgentEdges
     = Some (mkDetected (p_id Examples.textAgentPattern) (endpoint Examples.textAgentPattern)).
Proof.
  assert (Hp : In Examples.textAgentPattern workflowPatterns)
    by (do 5 right; left; reflexivity).
  split; [exact Hp |].
  exact (proj2 (proj1 (proj2 (detection_is_unique Examples.textAgentNodes
                                Examples.textAgentEdges Examples.textAgentPattern Hp)))
               eq_refl).
Defined.

(** *** What a detected pattern guarantees to the dispatcher *)

Lemma find_exists {A : Type} (f : A -> bool) (l : list A) (a : A) :
  In a l -> f a = true -> exists b, find f l = Some b.
Proof.
  intros Hin Hf. destruct (find f l) as [b |] eqn:F; [exists b; reflexivity |].
  pose proof (find_none _ _ F a Hin). congruence.
Qed.

(** When a pattern is detected, [nodes.find(node => node.type === kind)]
    finds a node of that kind for every kind the pattern requires: the
    "Missing ... node" errors of the branches cannot be raised. *)
Theorem detected_nodes_are_found (nodes : list NodeData) (edges : list EdgeData)
    (d : Detected) :
  detectWorkflowPattern nodes edges = Some d ->
  exists p,
    In p workflowPatterns /\ d = mkDetected (p_id p) (endpoint p)
    /\ forall kind, In kind (requiredNodeTypes p) ->
         exists node, findByType nodes kind = Some node /\ n_type node = kind.
Proof.
  intros H. apply detect_some in H. destruct H as (p & Hp & Cp & ->).
  exists p. split; [exact Hp |]. split; [reflexivity |].
  intros kind Hk. apply (accepted_same_kinds nodes edges p Hp Cp) in Hk.
  apply in_map_iff in Hk. destruct Hk as [node [Hty Hnode]].
  destruct (find_exists (fun n => String.eqb (n_type n) kind) nodes node Hnode) as [b Hb];
    [apply String.eqb_eq, Hty |].
  exists b. split; [exact Hb |].
  apply find_some in Hb. apply String.eqb_eq, Hb.
Qed.

Lemma detected_nodes_are_found_witness :
  detectWorkflowPattern Examples.textAgentNodes Examples.textAgentEdges
  = Some (mkDetected "text-agent" "http://localhost:8000/text_agent")
  /\ exists p,
       In p workflowPatterns
       /\ mkDetected "text-agent" "http://localhost:8000/text_agent"
          = mkDetected (p_id p) (endpoint p)
       /\ forall kind, In kind (requiredNodeTypes p) ->
            exists node, findByType Examples.textAgentNodes kind = Some node
                         /\ n_type node = kind.
Proof.
  split; [reflexivity |].
  exact (detected_nodes_are_found Examples.textAgentNodes Examples.textAgentEdges
           (mkDetected "text-agent" "http://localhost:8000/text_agent") eq_refl).
Defined.

(** *** The routes of the play button *)

Lemma detected_has_end (nodes : list NodeData) (edges : list EdgeData) (d : Detected) :
  detectWorkflowPattern nodes edges = Some d ->
  existsb (fun node => String.eqb (n_type node) "End") nodes = true.
Proof.
  intros H. apply detect_some in H. destruct H as (p & Hp & Cp & _).
  pose proof catalog_has_end as He. unfold everyPatternHasEnd in He.
  rewrite forallb_forall in He. specialize (He p Hp).
  apply existsb_exists in He. destruct He as [kind [Hin Heq]].
  apply String.eqb_eq in Heq. subst kind.
  apply (accepted_same_kinds nodes edges p Hp Cp), in_map_iff in Hin.
  destruct Hin as [node [Hty Hin]].
  apply existsb_exists. exists node. split; [exact Hin | apply String.eqb_eq, Hty].
Qed.

Lemma accepted_kinds_found (nodes : list NodeData) (edges : list EdgeData)
    (p : WorkflowPattern) (kind : string) :
  In p workflowPatterns -> checkWorkflowPattern nodes edges (p_id p) = true ->
  In kind (requiredNodeTypes p) -> exists node, findByType nodes kind = Some node.
Proof.
  intros Hp Cp Hk. apply (accepted_same_kinds nodes edges p Hp Cp) in Hk.
  apply in_map_iff in Hk. destruct Hk as [node [Hty Hnode]].
  apply (find_exists (fun n => String.eqb (n_type n) kind) nodes node Hnode).
  apply String.eqb_eq, Hty.
Qed.

(** Looks up, in a hypothesis about a branch, every node the branch asks
    for: all are of kinds the pattern requires. *)
Ltac find_required Hfound H :=
  repeat match type of H with
         | context [findByType ?ns ?kind] =>
             let node := fresh "node" in
             let E := fresh "E" in
             destruct (Hfound kind) as [node E];
             [cbn [requiredNodeTypes In]; repeat (first [left; reflexivity | right])
             | rewrite E in H]
         end.

(** Picks the branch of a given pattern identifier. *)
Ltac enter_branch H :=
  unfold switchBranch in H; cbv zeta in H; cbn [patternId d_endpoint] in H;
  repeat match type of H with
         | context [String.eqb ?a ?b] =>
             let v := eval vm_compute in (String.eqb a b) in
             change (String.eqb a b) with v in H
         end;
  cbv beta iota in H; unfold componentBranch in H.

(** What a branch of the switch can throw once its pattern is detected:
    nothing, unless it reads a file. *)
Lemma detected_branch_throws (nodes : list NodeData) (edges : list EdgeData)
    (d : Detected) (message : string) :
  detectWorkflowPattern nodes edges = Some d ->
  switchBranch nodes d = Throws message ->
  (patternId d = "csv-agent"
   /\ (message = "No file selected for CSV Agent. Please upload a file."
       \/ message = "Please select a valid CSV file with content (not just a filename)"))
  \/ (patternId d = "rag" /\ message = "No file selected for Knowledge Base")
  \/ (patternId d = "email-marketing"
      /\ (message = "No file selected for Email Marketing workflow"
          \/ message = "Please select a valid CSV file with content (not just a filename)")).
Proof.
  intros Hd Hthrow. apply detect_some in Hd. destruct Hd as (p & Hp & Cp & ->).
  pose proof (fun kind => accepted_kinds_found nodes edges p kind Hp Cp) as Hfound.
  clear Cp. unfold workflowPatterns in Hp. cbn [In] in Hp.
  repeat (destruct Hp as [<- | Hp];
          [ cbn [p_id endpoint] in Hthrow; enter_branch Hthrow;
            find_required Hfound Hthrow; cbv beta iota zeta in Hthrow;
            try discriminate;
            repeat match type of Hthrow with
                   | context [if ?c then _ else _] => destruct c
                   end;
            try discriminate; injection Hthrow as <-; cbn [patternId p_id];
            first [ left; split; [reflexivity | first [left; reflexivity | right; reflexivity]]
                  | right; left; split; reflexivity
                  | right; right; split;
                    [reflexivity | first [left; reflexivity | right; reflexivity]] ]
          | ]).
  destruct Hp.
Qed.

(** The play button answers an empty graph with an alert and a graph
    without End node with the End-component error, and these are the only
    graphs it stops before the switch.  A graph in which a pattern is
    detected enters the branch of that pattern, and the dynamic route is
    taken exactly when no pattern is detected, with exactly the edges whose
    two nodes exist (all of them when no edge dangles).  Inside the branch
    of a detected pattern no "Missing ... node" error is thrown: the only
    errors are those of the three branches that read a file (csv-agent,
    rag, email-marketing) when the file input holds no file, or none with
    content; every other branch issues its request. *)
Theorem play_routes (st : State) :
  (handlePlayClick st = NothingToExecute <-> nodes st = [])
  /\ (handlePlayClick st = MissingEndComponent
      <-> nodes st <> [] /\ ~ In "End" (map n_type (nodes st)))
  /\ (forall d, handlePlayClick st = PatternRoute d
                <-> detectWorkflowPattern (nodes st) (edges st) = Some d)
  /\ (forall url validEdges,
        handlePlayClick st = DynamicWorkflow url validEdges ->
        detectWorkflowPattern (nodes st) (edges st) = None
        /\ url = "http://localhost:8000/execute_dynamic_workflow"
        /\ (forall edge, In edge validEdges <->
              In edge (edges st)
              /\ In (e_source edge) (map n_id (nodes st))
              /\ In (e_target edge) (map n_id (nodes st)))
        /\ (App.edgesLive st -> validEdges = edges st))
  /\ (nodes st <> [] -> In "End" (map n_type (nodes st)) ->
      detectWorkflowPattern (nodes st) (edges st) = None ->
      exists validEdges,
        handlePlayClick st
        = DynamicWorkflow "http://localhost:8000/execute_dynamic_workflow" validEdges)
  /\ (forall d message,
        handlePlayClick st = PatternRoute d -> switchBranch (nodes st) d = Throws message ->
        (patternId d = "csv-agent"
         /\ (message = "No file selected for CSV Agent. Please upload a file."
             \/ message = "Please select a valid CSV file with content (not just a filename)"))
        \/ (patternId d = "rag" /\ message = "No file selected for Knowledge Base")
        \/ (patternId d = "email-marketing"
            /\ (message = "No file selected for Email Marketing workflow"
                \/ message
                   = "Please select a valid CSV file with content (not just a filename)")))
  /\ (forall d,
        handlePlayClick st = PatternRoute d ->
        patternId d <> "csv-agent" -> patternId d <> "rag" ->
        patternId d <> "email-marketing" ->
        exists caller target,
          handlePlayClickOutcome st = Runs (Requests caller target))
  /\ (forall message,
        handlePlayClickOutcome st = Runs (Throws message) ->
        message = "Workflow must have an End component to complete the execution."
        \/ In message
             [ "No file selected for CSV Agent. Please upload a file.";
               "Please select a valid CSV file with content (not just a filename)";
               "No file selected for Knowledge Base";
               "No file selected for Email Marketing workflow" ]).
Proof.
  assert (Hend : existsb (fun node => String.eqb (n_type node) "End") (nodes st) = true
                 <-> In "End" (map n_type (nodes st))).
  { rewrite existsb_exists, in_map_iff. split; intros [node [H1 H2]]; exists node.
    - apply String.eqb_eq in H2. auto.
    - split; [exact H2 | apply String.eqb_eq, H1]. }
  assert (Hpattern : forall d, handlePlayClick st = PatternRoute d
                               <-> detectWorkflowPattern (nodes st) (edges st) = Some d).
  { intros d. unfold handlePlayClick. split.
    + destruct (length (nodes st) =? 0)%nat; [discriminate |].
      destruct (negb _); [discriminate |].
      destruct (detectWorkflowPattern _ _); [| discriminate]. congruence.
    + intros H. pose proof (detected_has_end _ _ _ H) as He.
      destruct (nodes st) as [| n ns] eqn:En; [discriminate |].
      cbn [length Nat.eqb]. rewrite He, H. reflexivity. }
  assert (Hthrows : forall d message,
            handlePlayClick st = PatternRoute d -> switchBranch (nodes st) d = Throws message ->
            (patternId d = "csv-agent"
             /\ (message = "No file selected for CSV Agent. Please upload a file."
                 \/ message
                    = "Please select a valid CSV file with content (not just a filename)"))
            \/ (patternId d = "rag" /\ message = "No file selected for Knowledge Base")
            \/ (patternId d = "email-marketing"
                /\ (message = "No file selected for Email Marketing workflow"
                    \/ message
                       = "Please select a valid CSV file with content (not just a filename)"))).
  { intros d message Hroute. apply Hpattern in Hroute.
    apply (detected_branch_throws _ _ _ _ Hroute). }
  split; [| split; [| split; [exact Hpattern | split; [| split; [| split; [exact Hthrows |]]]]]].
  - unfold handlePlayClick. destruct (nodes st) as [| n ns]; simpl.
    + split; reflexivity.
    + split; [| discriminate].
      destruct (negb _); [discriminate |].
      destruct (detectWorkflowPattern _ _); discriminate.
  - unfold handlePlayClick. rewrite <- Hend.
    destruct (nodes st) as [| n ns] eqn:En.
    + cbn [length Nat.eqb]. split; [discriminate | intros [H _]; contradiction].
    + cbn [length Nat.eqb].
      destruct (existsb (fun node => String.eqb (n_type node) "End") (n :: ns)); cbn [negb].
      * split; [destruct (detectWorkflowPattern _ _); discriminate |].
        intros [_ H]. exfalso. apply H. reflexivity.
      * split; [intros _; split; [discriminate | discriminate] | reflexivity].
  - unfold handlePlayClick. intros url validEdges.
    destruct (length (nodes st) =? 0)%nat; [discriminate |].
    destruct (negb _); [discriminate |].
    destruct (detectWorkflowPattern _ _); [discriminate |].
    intros H. injection H as <- <-. split; [reflexivity |]. split; [reflexivity |]. split.
    + intros edge. rewrite List.filter_In, andb_true_iff, !hasNodeId_In. tauto.
    + intros Hlive. apply filter_keeps_all. intros edge Hin.
      destruct (Hlive edge Hin) as [Hs Ht]. apply hasNodeId_In in Hs, Ht.
      rewrite Hs, Ht. reflexivity.
  - intros Hnodes He Hnone. unfold handlePlayClick. apply Hend in He.
    destruct (nodes st) as [| n ns]; [contradiction |].
    cbn [length Nat.eqb]. rewrite He, Hnone. cbn [negb]. eexists. reflexivity.
  - split.
    + intros d Hroute Hc Hr He. unfold handlePlayClickOutcome. rewrite Hroute.
      destruct (switchBranch (nodes st) d) as [message | caller target] eqn:B.
      * destruct (Hthrows d message Hroute B) as [[H _] | [[H _] | [H _]]]; contradiction.
      * exists caller, target. reflexivity.
    + intros message. unfold handlePlayClickOutcome.
      destruct (handlePlayClick st) as [| | d | url validEdges] eqn:Hroute;
        try discriminate.
      * intros H. injection H as <-. left. reflexivity.
      * intros H. injection H as H. right.
        destruct (Hthrows d message eq_refl H) as [[_ [-> | ->]] | [[_ ->] | [_ [-> | ->]]]];
          cbn [In]; auto 6.
Qed.

(** *** Order of construction *)

Lemma findNode_by_id (nodes : list NodeData) (node : NodeData) :
  List.NoDup (map n_id nodes) -> In node nodes -> findNode nodes (n_id node) = Some node.
Proof.
  unfold findNode. induction nodes as [| n nodes IH]; intros Hnd Hin; [destruct Hin |].
  simpl in Hnd. inversion Hnd as [| ? ? Hn Hrest]. subst. simpl.
  destruct Hin as [-> | Hin]; [rewrite String.eqb_refl; reflexivity |].
  destruct (String.eqb_spec (n_id n) (n_id node)) as [E | _]; [| apply IH; assumption].
  exfalso. apply Hn. rewrite E. apply in_map. exact Hin.
Qed.

Lemma findNode_permutation (nodes nodes' : list NodeData) (id : string) :
  List.NoDup (map n_id nodes) -> Permutation nodes nodes' ->
  findNode nodes' id = findNode nodes id.
Proof.
  intros Hnd Hperm.
  assert (Hnd' : List.NoDup (map n_id nodes')).
  { apply (Permutation_NoDup (l := map n_id nodes)); [apply Permutation_map, Hperm | exact Hnd]. }
  destruct (findNode nodes id) as [n |] eqn:F.
  - apply findNode_some in F. destruct F as [Hin <-].
    apply findNode_by_id; [exact Hnd' | apply (Permutation_in _ Hperm), Hin].
  - destruct (findNode nodes' id) as [n' |] eqn:F'; [| reflexivity].
    apply findNode_some in F'. destruct F' as [Hin <-].
    rewrite findNode_by_id in F; [discriminate | exact Hnd |].
    apply (Permutation_in _ (Permutation_sym Hperm)), Hin.
Qed.

Lemma entriesOf_permutation (nodes nodes' : list NodeData) (key : string) (edge : EdgeData) :
  List.NoDup (map n_id nodes) -> Permutation nodes nodes' ->
  entriesOf nodes' key edge = entriesOf nodes key edge.
Proof.
  intros Hnd Hperm. unfold entriesOf, edgeEntry.
  rewrite !(findNode_permutation nodes nodes' _ Hnd Hperm). reflexivity.
Qed.

Lemma connectionSatisfied_permutation (nodes nodes' : list NodeData)
    (edges edges' : list EdgeData) (c : ConnectionPattern) :
  List.NoDup (map n_id nodes) -> Permutation nodes nodes' -> Permutation edges edges' ->
  connectionSatisfied (buildConnections nodes edges) c = true ->
  connectionSatisfied (buildConnections nodes' edges') c = true.
Proof.
  intros Hnd Hn He. rewrite !connectionSatisfied_iff.
  intros (edge & conn & Hin & Hc & Hm). exists edge, conn.
  split; [apply (Permutation_in _ He), Hin |]. split; [| exact Hm].
  rewrite (entriesOf_permutation nodes nodes' _ _ Hnd Hn). exact Hc.
Qed.

Lemma accepted_permutation (nodes nodes' : list NodeData) (edges edges' : list EdgeData)
    (p : WorkflowPattern) :
  In p workflowPatterns ->
  List.NoDup (map n_id nodes) -> Permutation nodes nodes' -> Permutation edges edges' ->
  checkWorkflowPattern nodes edges (p_id p) = true ->
  checkWorkflowPattern nodes' edges' (p_id p) = true.
Proof.
  intros Hp Hnd Hn He H. apply (checkWorkflowPattern_spec _ _ p Hp) in H.
  destruct H as [Hk Hc]. apply (checkWorkflowPattern_spec _ _ p Hp). split.
  - intros kind. rewrite <- (Hk kind). split; apply Permutation_in, Permutation_map;
      [apply Permutation_sym |]; exact Hn.
  - intros c Hin. apply (connectionSatisfied_permutation nodes nodes' edges edges');
      auto.
Qed.

Lemma checkWorkflowPattern_unknown (nodes : list NodeData) (edges : list EdgeData)
    (patternId : string) :
  find (fun p => String.eqb (p_id p) patternId) workflowPatterns = None ->
  checkWorkflowPattern nodes edges patternId = false.
Proof. unfold checkWorkflowPattern. intros ->. reflexivity. Qed.

(** Matching does not depend on the order in which the graph was built:
    listing the edges in another order, and the nodes in another order when
    their identifiers are distinct, changes neither the verdict on any
    pattern nor the pattern detected. *)
Theorem matching_ignores_order (nodes nodes' : list NodeData) (edges edges' : list EdgeData) :
  List.NoDup (map n_id nodes) -> Permutation nodes nodes' -> Permutation edges edges' ->
  (forall patternId,
     checkWorkflowPattern nodes' edges' patternId = checkWorkflowPattern nodes edges patternId)
  /\ detectWorkflowPattern nodes' edges' = detectWorkflowPattern nodes edges.
Proof.
  intros Hnd Hn He.
  assert (Hnd' : List.NoDup (map n_id nodes')).
  { apply (Permutation_NoDup (l := map n_id nodes)); [apply Permutation_map, Hn | exact Hnd]. }
  assert (Hall : forall patternId,
            checkWorkflowPattern nodes' edges' patternId
            = checkWorkflowPattern nodes edges patternId).
  { intros patternId.
    destruct (find (fun p => String.eqb (p_id p) patternId) workflowPatterns) as [p |] eqn:F.
    - apply find_some in F. destruct F as [Hp Hid]. apply String.eqb_eq in Hid. subst.
      destruct (checkWorkflowPattern nodes edges (p_id p)) eqn:C.
      + apply (accepted_permutation nodes nodes' edges edges'); assumption.
      + destruct (checkWorkflowPattern nodes' edges' (p_id p)) eqn:C'; [| reflexivity].
        rewrite <- C. symmetry.
        apply (accepted_permutation nodes' nodes edges' edges);
          try assumption; apply Permutation_sym; assumption.
    - rewrite !checkWorkflowPattern_unknown by exact F. reflexivity. }
  split; [exact Hall |].
  unfold detectWorkflowPattern. f_equal.
  induction workflowPatterns as [| q rest IH]; [reflexivity |].
  simpl. rewrite Hall. destruct (checkWorkflowPattern nodes edges (p_id q)); [reflexivity |].
  exact IH.
Qed.

Lemma matching_ignores_order_witness :
  (List.NoDup (map n_id Examples.textAgentNodes)
   /\ Permutation Examples.textAgentNodes (rev Examples.textAgentNodes)
   /\ Permutation Examples.textAgentEdges (rev Examples.textAgentEdges))
  /\ detectWorkflowPattern (rev Examples.textAgentNodes) (rev Examples.textAgentEdges)
     = detectWorkflowPattern Examples.textAgentNodes Examples.textAgentEdges.
Proof.
  assert (Hnd : List.NoDup (map n_id Examples.textAgentNodes))
    by (apply nodupb_ok; reflexivity).
  assert (Hn : Permutation Examples.textAgentNodes (rev Examples.textAgentNodes))
    by apply Permutation_rev.
  assert (He : Permutation Examples.textAgentEdges (rev Examples.textAgentEdges))
    by apply Permutation_rev.
  split; [auto |].
  exact (proj2 (matching_ignores_order Examples.textAgentNodes (rev Examples.textAgentNodes)
                  Examples.textAgentEdges (rev Examples.textAgentEdges) Hnd Hn He)).
Defined.

End MatcherFacts.

(** * Further properties of the graph state *)

Section GraphMore.

Import Playground App.

Lemma sameTuple_sym (a b : EdgeData) : sameTuple a b = sameTuple b a.
Proof.
  unfold sameTuple.
  rewrite (String.eqb_sym (e_source a)), (String.eqb_sym (e_target a)),
    (String.eqb_sym (e_sourceHandle a)), (String.eqb_sym (e_targetHandle a)).
  reflexivity.
Qed.

Lemma tuplesDistinct_filter (f : EdgeData -> bool) (l : list EdgeData) :
  tuplesDistinct l -> tuplesDistinct (List.filter f l).
Proof.
  induction l as [| e l IH]; intros H; [exact I |].
  destruct H as [He Hl]. simpl. destruct (f e); [| apply IH, Hl].
  split; [| apply IH, Hl].
  intros other Hin. apply List.filter_In in Hin. apply He, Hin.
Qed.

Lemma tuplesDistinct_snoc (l : list EdgeData) (e : EdgeData) :
  tuplesDistinct l -> (forall other, In other l -> sameTuple other e = false) ->
  tuplesDistinct (l ++ [e]).
Proof.
  induction l as [| a l IH]; intros Hl He; simpl.
  - split; [intros other [] | exact I].
  - destruct Hl as [Ha Hl]. split.
    + intros other Hin. apply in_app_or in Hin. destruct Hin as [Hin | [<- | []]].
      * apply Ha, Hin.
      * rewrite sameTuple_sym. apply He. left. reflexivity.
    + apply IH; [exact Hl |]. intros other Hin. apply He. right. exact Hin.
Qed.

Lemma filter_true {A : Type} (l : list A) : List.filter (fun _ => true) l = l.
Proof. induction l as [| a l IH]; simpl; [| rewrite IH]; reflexivity. Qed.

Lemma settle_filters (prev rendered : State) :
  nodes (settle prev rendered) = nodes rendered
  /\ exists f, edges (settle prev rendered) = List.filter f (edges rendered).
Proof.
  unfold settle. destruct (depsChanged prev rendered).
  - rewrite cleanup_commit. simpl. split; [reflexivity |]. eexists. reflexivity.
  - split; [reflexivity |]. exists (fun _ => true). symmetry. apply filter_true.
Qed.

Lemma nodeDeleteClick_filters (st : State) (node : NodeData) :
  exists f, edges (commit st (Workspace.nodeDeleteClick (edges st) node))
            = List.filter f (edges st).
Proof.
  rewrite nodeDeleteClick_last_wins. destruct (rev _) as [| lastEdge rest].
  - exists (fun _ => true). symmetry. apply filter_true.
  - eexists. reflexivity.
Qed.

(** What a connection gesture does to the graph: nothing, or one edge with
    a 4-tuple not yet present appended. *)
Lemma connectGesture_outcome (st : State) (ws : Workspace.State) (down : PointerEvent)
    (nodeId fieldId fieldType : string) (moves : list PointerEvent) (now : nat) :
  snd (connectGesture st ws down nodeId fieldId fieldType moves now) = st
  \/ exists edge,
       existsb (fun e => sameTuple e edge) (edges st) = false
       /\ snd (connectGesture st ws down nodeId fieldId fieldType moves now)
          = mkState (nodes st)
              (edges st ++ [mkEdge ("edge-" ++ Js.dateNow now) (e_source edge)
                              (e_sourceHandle edge) (e_target edge) (e_targetHandle edge)]).
Proof.
  unfold connectGesture.
  destruct (Workspace.handleFieldMouseDown _ _ _ _ _ _ _ _) as [ws1 [d |]] eqn:Hdown;
    [| left; reflexivity].
  apply handleFieldMouseDown_drag in Hdown. destruct Hdown as [_ Hedges].
  pose proof (dragMoves_closure moves d ws1) as Hclosed.
  destruct (dragMoves d ws1 moves) as [d' ws2]. simpl in Hclosed.
  destruct Hclosed as (_ & _ & _ & _ & _ & _ & Hedges').
  unfold release.
  destruct (Workspace.handleMouseUp d' ws2 (nodes st)) as [ws' [edge |]];
    [| left; reflexivity].
  simpl. unfold handleAddEdge. rewrite Hedges', Hedges.
  destruct (existsb (fun e => sameTuple e edge) (edges st)) eqn:E; simpl.
  - left. destruct st. reflexivity.
  - right. exists edge. split; [exact E | reflexivity].
Qed.

Lemma step_tuples (st st' : State) :
  tuplesDistinct (edges st) -> step st st' -> tuplesDistinct (edges st').
Proof.
  intros Hd Hstep.
  assert (Hsettle : forall prev rendered,
            tuplesDistinct (edges rendered) -> tuplesDistinct (edges (settle prev rendered))).
  { intros prev rendered H. destruct (settle_filters prev rendered) as [_ [f ->]].
    apply tuplesDistinct_filter, H. }
  destruct Hstep as
    [st nodeType viewportCenter now | st nodeType position now | st node Hnode
    | st edge Hedge | st ws down node fieldId fieldType moves now Hnode];
    apply Hsettle.
  - unfold handleAddNode. destruct (lookupTemplate nodeType); exact Hd.
  - unfold handleNodeDrop. destruct (lookupTemplate nodeType); exact Hd.
  - destruct (nodeDeleteClick_filters st node) as [f ->]. apply tuplesDistinct_filter, Hd.
  - simpl. apply tuplesDistinct_filter, Hd.
  - destruct (connectGesture_outcome st ws down (n_id node) fieldId fieldType moves now)
      as [-> | [edge [Hnone ->]]]; [exact Hd |].
    simpl. apply tuplesDistinct_snoc; [exact Hd |].
    intros other Hin.
    destruct (sameTuple other _) eqn:E; [| reflexivity].
    assert (Hex : existsb (fun e => sameTuple e edge) (edges st) = true).
    { apply existsb_exists. exists other. split; [exact Hin | exact E]. }
    congruence.
Qed.

(** Duplicate suppression as an invariant: the playground starts without
    two edges of the same 4-tuple, and no sequence of node additions, node
    removals, edge removals and connection gestures creates such a pair. *)
Theorem tuples_stay_distinct :
  tuplesDistinct (edges initial)
  /\ forall st st', tuplesDistinct (edges st) -> steps st st' -> tuplesDistinct (edges st').
Proof.
  split; [exact I |].
  intros st st' Hd Hsteps. induction Hsteps as [st | st st2 st3 _ IH Hstep].
  - exact Hd.
  - apply (step_tuples st2 st3); [apply IH, Hd | exact Hstep].
Qed.

Lemma tuples_stay_distinct_witness :
  tuplesDistinct (edges Examples.textAgentGraph)
  /\ tuplesDistinct
       (edges (settle Examples.textAgentGraph
                 (commit Examples.textAgentGraph
                    (Workspace.nodeDeleteClick (edges Examples.textAgentGraph)
                       Examples.textAgentNode)))).
Proof.
  assert (H : tuplesDistinct (edges Examples.textAgentGraph)).
  { simpl. split; [| split; [intros other [] | exact I]].
    intros other [<- | []]. reflexivity. }
  split; [exact H |].
  apply (proj2 tuples_stay_distinct Examples.textAgentGraph); [exact H |].
  eapply steps_then; [apply steps_refl |].
  apply (step_removeNode Examples.textAgentGraph Examples.textAgentNode).
  right. left. reflexivity.
Defined.

(** The cleanup effect leaves the nodes alone and keeps, in order and as
    often as they occur, exactly the edges whose source and target are node
    identifiers: the edge list becomes the list filtered by that test.
    Afterwards no edge dangles, a second run changes nothing, and a state
    without dangling edges is not changed at all. *)
Theorem cleanup_effect_prunes (rendered : State) :
  let cleaned := commit rendered (cleanupEffect rendered) in
  nodes cleaned = nodes rendered
  /\ edges cleaned
     = List.filter (fun edge => hasNodeId (nodes rendered) (e_source edge)
                               && hasNodeId (nodes rendered) (e_target edge))
                   (edges rendered)
  /\ (forall edge, In edge (edges cleaned)
                   <-> In edge (edges rendered)
                       /\ In (e_source edge) (map n_id (nodes rendered))
                       /\ In (e_target edge) (map n_id (nodes rendered)))
  /\ edgesLive cleaned
  /\ commit cleaned (cleanupEffect cleaned) = cleaned
  /\ (edgesLive rendered -> cleaned = rendered).
Proof.
  intros cleaned.
  assert (Hfix : forall s, edgesLive s -> commit s (cleanupEffect s) = s).
  { intros s Hlive. rewrite cleanup_commit. rewrite filter_keeps_all; [destruct s; reflexivity |].
    intros edge Hin. destruct (Hlive edge Hin) as [Hs Ht]. apply hasNodeId_In in Hs, Ht.
    rewrite Hs, Ht. reflexivity. }
  assert (Hlive : edgesLive cleaned) by apply cleanup_live.
  split; [unfold cleaned; rewrite cleanup_commit; reflexivity |].
  split; [unfold cleaned; rewrite cleanup_commit; reflexivity |].
  split; [| split; [exact Hlive | split]].
  - intros edge. unfold cleaned. rewrite cleanup_commit. simpl.
    rewrite List.filter_In, andb_true_iff, !hasNodeId_In. tauto.
  - apply Hfix, Hlive.
  - intros H. apply Hfix, H.
Qed.

Lemma removeNode_settled_witness :
  (edgesLive Examples.textAgentGraph
   /\ List.NoDup (map e_id (edges Examples.textAgentGraph))
   /\ In Examples.textAgentNode (nodes Examples.textAgentGraph))
  /\ edges (settle Examples.textAgentGraph
              (commit Examples.textAgentGraph
                 (Workspace.nodeDeleteClick (edges Examples.textAgentGraph)
                    Examples.textAgentNode)))
     = [].
Proof.
  assert (Hlive : edgesLive Examples.textAgentGraph).
  { intros edge [<- | [<- | []]]; simpl; tauto. }
  assert (Hnd : List.NoDup (map e_id (edges Examples.textAgentGraph)))
    by (apply nodupb_ok; reflexivity).
  assert (Hin : In Examples.textAgentNode (nodes Examples.textAgentGraph))
    by (right; left; reflexivity).
  split; [auto |].
  rewrite (removeNode_settled Examples.textAgentGraph Examples.textAgentNode Hlive Hnd Hin).
  reflexivity.
Defined.

(** Adding an edge and then removing the edge of the identifier it was
    given leaves the edges that did not carry that identifier: the original
    list when the identifier is new, and otherwise the original list
    without the older edges of the same identifier. *)
Theorem remove_after_add (st : State) (edge : EdgeData) (now : nat) :
  existsb (fun e => sameTuple e edge) (edges st) = false ->
  let added := commit st (handleAddEdge (edges st) edge now) in
  let removed := commit added (handleRemoveEdge (edges added) ("edge-" ++ Js.dateNow now)) in
  nodes removed = nodes st
  /\ edges removed
     = List.filter (fun e => negb (String.eqb (e_id e) ("edge-" ++ Js.dateNow now))) (edges st)
  /\ ((forall e, In e (edges st) -> e_id e <> "edge-" ++ Js.dateNow now) -> removed = st).
Proof.
  intros Hnone added removed.
  assert (Hrm : removed
                = mkState (nodes st)
                    (List.filter
                       (fun e => negb (String.eqb (e_id e) ("edge-" ++ Js.dateNow now)))
                       (edges st))).
  { unfold removed, added, handleAddEdge, handleRemoveEdge, commit, applyQueue.
    rewrite Hnone.
    cbn [negb fold_left applyAction edgeUpdates nodeUpdates nodes edges].
    rewrite List.filter_app. cbn [List.filter e_id]. rewrite String.eqb_refl.
    cbn [negb]. rewrite app_nil_r. reflexivity. }
  rewrite Hrm. simpl. split; [reflexivity |]. split; [reflexivity |].
  intros Hfresh. rewrite filter_keeps_all; [destruct st; reflexivity |].
  intros e Hin. apply negb_true_iff. apply String.eqb_neq. apply Hfresh, Hin.
Qed.

Lemma remove_after_add_witness :
  existsb (fun e => sameTuple e Examples.knowledgeEdge) (edges Examples.textAgentGraph) = false
  /\ commit (commit Examples.textAgentGraph
               (handleAddEdge (edges Examples.textAgentGraph) Examples.knowledgeEdge 12))
        (handleRemoveEdge
           (edges (commit Examples.textAgentGraph
                     (handleAddEdge (edges Examples.textAgentGraph) Examples.knowledgeEdge 12)))
           ("edge-" ++ Js.dateNow 12))
     = Examples.textAgentGraph.
Proof.
  split; [reflexivity |].
  apply (proj2 (proj2 (remove_after_add Examples.textAgentGraph Examples.knowledgeEdge 12
                         eq_refl))).
  intros e [<- | [<- | []]]; discriminate.
Defined.

(** *** Identifiers given by the clock *)

Lemma to_uint_not_nil (n : nat) : Nat.to_uint n <> Decimal.Nil.
Proof.
  rewrite <- (DecimalNat.Unsigned.of_to n) at 1. rewrite DecimalNat.Unsigned.to_of.
  apply DecimalFacts.unorm_nonnil.
Qed.

Lemma dateNow_inj (n n' : nat) : Js.dateNow n = Js.dateNow n' -> n = n'.
Proof.
  unfold Js.dateNow. intros H. apply (f_equal NilZero.uint_of_string) in H.
  rewrite !NilZero.usu in H by apply to_uint_not_nil.
  injection H as H. apply DecimalNat.Unsigned.to_uint_inj, H.
Qed.

Lemma append_inj_l (p a b : string) : p ++ a = p ++ b -> a = b.
Proof.
  induction p as [| c p IH]; [rewrite !append_empty_l; auto |].
  rewrite !append_cons. intros H. injection H as H. apply IH, H.
Qed.

Lemma digits_dash_free (d : Decimal.uint) :
  Js.includes (NilEmpty.string_of_uint d) "-" = false.
Proof. induction d; simpl; try rewrite IHd; reflexivity. Qed.

Lemma dateNow_dash_free (n : nat) : Js.includes (Js.dateNow n) "-" = false.
Proof.
  unfold Js.dateNow, NilZero.string_of_uint.
  destruct (Nat.to_uint n); try apply digits_dash_free. reflexivity.
Qed.

Lemma includes_dash (x y : string) : Js.includes (x ++ String "-"%char y) "-" = true.
Proof. exact (includes_app x "-" y). Qed.

(** A name followed by a dash and a dash-free suffix determines both. *)
Lemma last_dash_splits (a b d d' : string) :
  Js.includes d "-" = false -> Js.includes d' "-" = false ->
  a ++ "-" ++ d = b ++ "-" ++ d' -> a = b /\ d = d'.
Proof.
  intros Hd Hd'. revert b. induction a as [| c a IH]; intros [| c' b];
    rewrite ?append_cons, ?append_empty_l; intros H.
  - injection H as H. auto.
  - injection H as _ H. rewrite H, includes_dash in Hd. discriminate.
  - injection H as _ H. rewrite <- H, includes_dash in Hd'. discriminate.
  - injection H as -> H. destruct (IH b H) as [-> ->]. auto.
Qed.

Lemma template_port_ids (nodeType : string) (template : NodeTemplate) :
  lookupTemplate nodeType = Some template ->
  List.NoDup (map f_id (t_inputs template ++ t_outputs template)).
Proof.
  unfold lookupTemplate. intros H.
  destruct (find _ nodeTemplates) as [[k t] |] eqn:F; [| discriminate].
  injection H as <-. apply find_some in F. destruct F as [Hin _].
  assert (Hall : templatePortIdsDistinct = true) by (vm_compute; reflexivity).
  unfold templatePortIdsDistinct in Hall. rewrite forallb_forall in Hall.
  apply nodupb_ok, (Hall (k, t) Hin).
Qed.

Lemma stamp_inj (now now' : nat) (f f' : NodeField) :
  f_id (stampField now f) = f_id (stampField now' f') -> f_id f = f_id f' /\ now = now'.
Proof.
  simpl. intros H.
  destruct (last_dash_splits _ _ _ _ (dateNow_dash_free now) (dateNow_dash_free now') H)
    as [Hid Hd].
  split; [exact Hid | apply dateNow_inj, Hd].
Qed.

Lemma stamped_ids_distinct (now : nat) (fields : list NodeField) :
  List.NoDup (map f_id fields) -> List.NoDup (map f_id (map (stampField now) fields)).
Proof.
  induction fields as [| f fields IH]; intros H; [constructor |].
  simpl in H. inversion H as [| ? ? Hf Hrest]. subst.
  cbn [map]. constructor; [| apply IH, Hrest].
  intros Hin. apply in_map_iff in Hin. destruct Hin as [g [Hg Hin]].
  apply in_map_iff in Hin. destruct Hin as [f' [<- Hin']].
  apply stamp_inj in Hg. destruct Hg as [Hg _].
  apply Hf. rewrite <- Hg. apply in_map. exact Hin'.
Qed.

(** Instantiating a node.  An unknown kind changes nothing.  A known kind
    appends one node named after the clock reading, with the ports of the
    catalog entry in order, no values, and port identifiers that are
    distinct within the node.  A stamped port identifier determines the
    catalog identifier and the clock reading, and two node identifiers are
    equal exactly when the clock readings are: nodes created at different
    readings share neither node nor port identifiers, nodes created at the
    same reading share them. *)
Theorem handleAddNode_instantiates (st : State) (nodeType : string) (viewportCenter : Position)
    (now now' : nat) :
  match lookupTemplate nodeType with
  | None => commit st (handleAddNode st nodeType viewportCenter now) = st
  | Some template =>
      exists newNode,
        commit st (handleAddNode st nodeType viewportCenter now)
        = mkState (nodes st ++ [newNode]) (edges st)
        /\ n_id newNode = "node-" ++ Js.dateNow now
        /\ n_type newNode = nodeType
        /\ n_position newNode = viewportCenter
        /\ map f_name (n_inputs newNode) = map f_name (t_inputs template)
        /\ map f_name (n_outputs newNode) = map f_name (t_outputs template)
        /\ (forall f, In f (n_inputs newNode ++ n_outputs newNode) -> f_value f = None)
        /\ List.NoDup (map f_id (n_inputs newNode ++ n_outputs newNode))
  end
  /\ ("node-" ++ Js.dateNow now = "node-" ++ Js.dateNow now' <-> now = now')
  /\ (forall f f', f_id (stampField now f) = f_id (stampField now' f') ->
         f_id f = f_id f' /\ now = now').
Proof.
  split; [| split].
  - unfold handleAddNode. destruct (lookupTemplate nodeType) as [template |] eqn:L.
    + eexists. split; [reflexivity |]. cbn [n_id n_type n_position n_inputs n_outputs].
      split; [reflexivity |]. split; [reflexivity |].
      split; [destruct viewportCenter; reflexivity |].
      split; [rewrite map_map; reflexivity |]. split; [rewrite map_map; reflexivity |].
      split.
      * intros f Hin. rewrite <- map_app in Hin. apply in_map_iff in Hin.
        destruct Hin as [g [<- Hg]]. simpl.
        assert (Hv : forallb
                       (fun entry =>
                          forallb (fun p => match f_value p with None => true | _ => false end)
                                  (t_inputs (snd entry) ++ t_outputs (snd entry)))
                       nodeTemplates = true) by (vm_compute; reflexivity).
        unfold lookupTemplate in L.
        destruct (find _ nodeTemplates) as [[k t] |] eqn:F; [| discriminate].
        injection L as <-. apply find_some in F. destruct F as [Hin _].
        rewrite forallb_forall in Hv. specialize (Hv (k, t) Hin). simpl in Hv.
        rewrite forallb_forall in Hv. specialize (Hv g Hg).
        destruct (f_value g); [discriminate | reflexivity].
      * rewrite <- map_app. apply stamped_ids_distinct, (template_port_ids nodeType), L.
    + destruct st. reflexivity.
  - split; [intros H; apply dateNow_inj, (append_inj_l "node-"), H | intros ->; reflexivity].
  - intros f f'. apply stamp_inj.
Qed.

(** *** Editing a value *)

Lemma check_congruence (nodes nodes' : list NodeData) (edges edges' : list EdgeData) :
  (forall kind, In kind (map n_type nodes') <-> In kind (map n_type nodes)) ->
  (forall c, connectionSatisfied (buildConnections nodes' edges') c
             = connectionSatisfied (buildConnections nodes edges) c) ->
  (forall patternId,
     checkWorkflowPattern nodes' edges' patternId = checkWorkflowPattern nodes edges patternId)
  /\ detectWorkflowPattern nodes' edges' = detectWorkflowPattern nodes edges.
Proof.
  intros Hk Hc.
  assert (Hone : forall p, In p workflowPatterns ->
            checkWorkflowPattern nodes edges (p_id p) = true ->
            checkWorkflowPattern nodes' edges' (p_id p) = true).
  { intros p Hp H. apply (checkWorkflowPattern_spec _ _ p Hp) in H. destruct H as [H1 H2].
    apply (checkWorkflowPattern_spec _ _ p Hp). split.
    - intros kind. rewrite Hk. apply H1.
    - intros c Hin. rewrite Hc. apply H2, Hin. }
  assert (Hback : forall p, In p workflowPatterns ->
            checkWorkflowPattern nodes' edges' (p_id p) = true ->
            checkWorkflowPattern nodes edges (p_id p) = true).
  { intros p Hp H. apply (checkWorkflowPattern_spec _ _ p Hp) in H. destruct H as [H1 H2].
    apply (checkWorkflowPattern_spec _ _ p Hp). split.
    - intros kind. rewrite <- Hk. apply H1.
    - intros c Hin. rewrite <- Hc. apply H2, Hin. }
  assert (Hall : forall patternId,
            checkWorkflowPattern nodes' edges' patternId
            = checkWorkflowPattern nodes edges patternId).
  { intros patternId.
    destruct (find (fun p => String.eqb (p_id p) patternId) workflowPatterns) as [p |] eqn:F.
    - apply find_some in F. destruct F as [Hp Hid]. apply String.eqb_eq in Hid. subst.
      destruct (checkWorkflowPattern nodes edges (p_id p)) eqn:C; [apply Hone; assumption |].
      destruct (checkWorkflowPattern nodes' edges' (p_id p)) eqn:C'; [| reflexivity].
      rewrite <- C. symmetry. apply Hback; assumption.
    - rewrite !checkWorkflowPattern_unknown by exact F. reflexivity. }
  split; [exact Hall |].
  unfold detectWorkflowPattern. f_equal. clear Hone Hback.
  induction workflowPatterns as [| q rest IH]; [reflexivity |].
  simpl. rewrite Hall. destruct (checkWorkflowPattern nodes edges (p_id q)); [reflexivity |].
  exact IH.
Qed.

Lemma existsb_pointwise {A : Type} (f g : A -> bool) (l : list A) :
  (forall a, f a = g a) -> existsb f l = existsb g l.
Proof.
  intros H. induction l as [| a l IH]; [reflexivity |]. simpl. rewrite H, IH. reflexivity.
Qed.

Lemma find_map_same {A : Type} (key : A -> string) (g : A -> A) (l : list A) (id : string) :
  (forall a, key (g a) = key a) ->
  find (fun a => String.eqb (key a) id) (map g l)
  = option_map g (find (fun a => String.eqb (key a) id) l).
Proof.
  intros Hkey. induction l as [| a l IH]; [reflexivity |]. simpl. rewrite Hkey.
  destruct (String.eqb (key a) id); [reflexivity | exact IH].
Qed.

Lemma edgeEntry_setInputValue (nodeId inputId value : string) (nodes : list NodeData)
    (edge : EdgeData) :
  edgeEntry (Workspace.setInputValue nodeId inputId value nodes) edge = edgeEntry nodes edge.
Proof.
  unfold edgeEntry, findNode, Workspace.setInputValue.
  rewrite !(find_map_same n_id) by (intros a; destruct (String.eqb (n_id a) nodeId); reflexivity).
  destruct (find _ nodes) as [sn |]; [| reflexivity].
  destruct (find (fun a => String.eqb (n_id a) (e_target edge)) nodes) as [tn |];
    [| reflexivity].
  cbn [option_map].
  assert (Hty : forall n, n_type (if String.eqb (n_id n) nodeId
                                  then mkNode (n_id n) (n_type n) (n_position n) (n_label n)
                                         (map (fun i =>
                                                 if String.eqb (f_id i) inputId
                                                 then mkField (f_id i) (f_name i) (f_type i)
                                                        (f_fieldType i) (Some (TextValue value))
                                                        (f_options i) (f_display i)
                                                 else i) (n_inputs n))
                                         (n_outputs n)
                                  else n) = n_type n).
  { intros n. destruct (String.eqb (n_id n) nodeId); reflexivity. }
  rewrite !Hty. f_equal.
  destruct (String.eqb (n_id sn) nodeId); destruct (String.eqb (n_id tn) nodeId);
    cbn [n_outputs n_inputs]; unfold findField;
    rewrite ?(find_map_same f_id)
      by (intros a; destruct (String.eqb (f_id a) inputId); reflexivity);
    destruct (find _ (n_outputs sn)) as [so |]; try reflexivity;
    destruct (find _ (n_inputs tn)) as [ti |]; try reflexivity;
    cbn [option_map]; destruct (String.eqb (f_id ti) inputId); reflexivity.
Qed.

(** Typing into an input, choosing an option or dictating a value changes
    the value of that input only: identifiers, kinds, positions and edges
    stay, the cleanup effect has nothing to do, no edge starts to dangle,
    and the verdict on every pattern and the detected pattern are the same
    as before. *)
Theorem input_edit_keeps_match (st : State) (nodeId inputId value : string) :
  let edited := settle st (commit st (Workspace.inputChange nodeId inputId value)) in
  edited = mkState (Workspace.setInputValue nodeId inputId value (nodes st)) (edges st)
  /\ map n_id (nodes edited) = map n_id (nodes st)
  /\ map n_type (nodes edited) = map n_type (nodes st)
  /\ map n_position (nodes edited) = map n_position (nodes st)
  /\ (forall patternId,
        checkWorkflowPattern (nodes edited) (edges edited) patternId
        = checkWorkflowPattern (nodes st) (edges st) patternId)
  /\ detectWorkflowPattern (nodes edited) (edges edited)
     = detectWorkflowPattern (nodes st) (edges st)
  /\ (edgesLive st -> edgesLive edited).
Proof.
  intros edited.
  assert (Hmap : forall (B : Type) (proj : NodeData -> B),
            (forall n, proj (mkNode (n_id n) (n_type n) (n_position n) (n_label n)
                               (map (fun i =>
                                       if String.eqb (f_id i) inputId
                                       then mkField (f_id i) (f_name i) (f_type i)
                                              (f_fieldType i) (Some (TextValue value))
                                              (f_options i) (f_display i)
                                       else i) (n_inputs n))
                               (n_outputs n)) = proj n) ->
            map proj (Workspace.setInputValue nodeId inputId value (nodes st))
            = map proj (nodes st)).
  { intros B proj Hproj. unfold Workspace.setInputValue. rewrite map_map.
    apply map_ext. intros n. destruct (String.eqb (n_id n) nodeId); [apply Hproj | reflexivity]. }
  assert (Hids : map n_id (Workspace.setInputValue nodeId inputId value (nodes st))
                 = map n_id (nodes st)) by (apply Hmap; reflexivity).
  assert (Hed : edited
                = mkState (Workspace.setInputValue nodeId inputId value (nodes st)) (edges st)).
  { unfold edited, settle.
    assert (Hdeps : depsChanged st (commit st (Workspace.inputChange nodeId inputId value))
                    = false).
    { unfold depsChanged, cleanupDeps. cbn [fst snd].
      change (nodes (commit st (Workspace.inputChange nodeId inputId value)))
        with (Workspace.setInputValue nodeId inputId value (nodes st)).
      rewrite Hids. unfold Workspace.setInputValue. rewrite length_map.
      rewrite Nat.eqb_refl, String.eqb_refl. reflexivity. }
    rewrite Hdeps. reflexivity. }
  rewrite Hed. cbn [nodes edges].
  split; [reflexivity |]. split; [exact Hids |].
  split; [apply Hmap; reflexivity |]. split; [apply Hmap; reflexivity |].
  assert (Hcong := check_congruence (nodes st)
                     (Workspace.setInputValue nodeId inputId value (nodes st))
                     (edges st) (edges st)).
  destruct Hcong as [Hall Hdet].
  - intros kind. rewrite (Hmap _ n_type) by reflexivity. tauto.
  - intros c. unfold connectionSatisfied. rewrite !buildConnections_lookup.
    rewrite (existsb_pointwise
               (hasKey (Workspace.setInputValue nodeId inputId value (nodes st))
                  (nodeConnection c))
               (hasKey (nodes st) (nodeConnection c)))
      by (intros e; unfold hasKey; rewrite edgeEntry_setInputValue; reflexivity).
    rewrite (flat_map_ext
               (entriesOf (Workspace.setInputValue nodeId inputId value (nodes st))
                  (nodeConnection c))
               (entriesOf (nodes st) (nodeConnection c)))
      by (intros e; unfold entriesOf; rewrite edgeEntry_setInputValue; reflexivity).
    reflexivity.
  - split; [exact Hall |]. split; [exact Hdet |].
    intros Hlive edge Hin. simpl. rewrite Hids. apply Hlive, Hin.
Qed.

End GraphMore.

(** * Further properties of the workspace *)

(** ** Panning, dropping and zooming *)

Section ViewportMore.

Import Workspace.
Local Open Scope R_scope.





(** A dropped node lands with its corner under the pointer: the position
    [handleDrop] hands to [handleNodeDrop] is shown by the transform
    container at the drop point, and it is the position of the node that is
    appended; a kind without template adds nothing. *)
Theorem drop_lands_under_pointer (ws : State) (rect : DOMRect) (nodeType : string)
    (cx cy : R) (st : Playground.State) (now : nat) :
  MIN_ZOOM <= scale ws <= MAX_ZOOM ->
  Js.truthy nodeType = true ->
  exists position,
    handleDrop ws (Some rect) nodeType cx cy = Some (nodeType, position)
    /\ toScreen (scale ws) (offset ws) position
       = mkPosition (cx - rect_left rect) (cy - rect_top rect)
    /\ match Playground.lookupTemplate nodeType with
       | Some template =>
           exists node,
             Playground.commit st (Playground.handleNodeDrop nodeType position now)
             = Playground.mkState (Playground.nodes st ++ [node])%list (Playground.edges st)
             /\ n_position node = position
             /\ n_type node = nodeType
             /\ map f_name (n_inputs node) = map f_name (t_inputs template)
             /\ map f_name (n_outputs node) = map f_name (t_outputs template)
       | None =>
           Playground.commit st (Playground.handleNodeDrop nodeType position now) = st
       end.
Proof.
  intros Hvalid Hty. apply valid_scale_positive in Hvalid.
  unfold handleDrop. rewrite Hty. cbn [negb].
  eexists. split; [reflexivity |].
  split.
  - apply position_eq. unfold toScreen. cbn [pos_x pos_y]. split; field; lra.
  - unfold Playground.handleNodeDrop.
    destruct (Playground.lookupTemplate nodeType) as [template |].
    + eexists. split; [reflexivity |]. cbn [n_position n_type n_inputs n_outputs].
      rewrite !map_map. repeat split.
    + destruct st. reflexivity.
Qed.

Lemma drop_lands_under_pointer_witness :
  MIN_ZOOM <= scale Examples.viewport0 <= MAX_ZOOM
  /\ Js.truthy "End" = true
  /\ exists position,
       handleDrop Examples.viewport0 (Some Examples.rect0) "End" 200 100
       = Some ("End", position).
Proof.
  assert (H : MIN_ZOOM <= scale Examples.viewport0 <= MAX_ZOOM).
  { unfold MIN_ZOOM, MAX_ZOOM. simpl. lra. }
  split; [exact H |]. split; [reflexivity |].
  destruct (drop_lands_under_pointer Examples.viewport0 Examples.rect0 "End" 200 100
              Playground.initial 7 H eq_refl) as [position [Hdrop _]].
  exists position. exact Hdrop.
Defined.

(** A notch of the wheel is a press of a zoom button: [handleWheelEvent]
    is [handleZoom] with a step of [0.1] in the direction of the wheel.
    Zooming in and back out by one step restores the scale but not the
    offset, which has grown by [0.01 / (scale * (scale + 0.1))] in both
    coordinates; at the upper bound a further step in changes nothing. *)
Theorem zoom_in_and_out_drifts (ws : State) (rect : DOMRect) :
  MIN_ZOOM <= scale ws -> scale ws + 0.1 <= MAX_ZOOM ->
  let back := handleZoom (handleZoom ws (Some rect) 0.1) (Some rect) (-0.1) in
  (forall workspaceRect deltaY,
     handleWheelEvent ws workspaceRect deltaY
     = handleZoom ws workspaceRect (if Rlt_dec 0 deltaY then -0.1 else 0.1))
  /\ scale back = scale ws
  /\ pos_x (offset back) = pos_x (offset ws) + 0.01 / (scale ws * (scale ws + 0.1))
  /\ pos_y (offset back) = pos_y (offset ws) + 0.01 / (scale ws * (scale ws + 0.1))
  /\ offset back <> offset ws
  /\ (forall delta, 0 <= delta ->
        handleZoom (setViewport ws MAX_ZOOM (offset ws)) (Some rect) delta
        = setViewport ws MAX_ZOOM (offset ws)).
Proof.
  intros Hlo Hhi back.
  assert (Hpos : 0 < scale ws) by (unfold MIN_ZOOM in Hlo; lra).
  assert (H1 : Rmin (Rmax (scale ws + 0.1) MIN_ZOOM) MAX_ZOOM = scale ws + 0.1).
  { apply clamp_identity. lra. }
  assert (H2 : Rmin (Rmax (scale ws + 0.1 + -0.1) MIN_ZOOM) MAX_ZOOM = scale ws).
  { replace (scale ws + 0.1 + -0.1) with (scale ws) by lra.
    apply clamp_identity. lra. }
  assert (Hx : pos_x (offset back) = pos_x (offset ws) + 0.01 / (scale ws * (scale ws + 0.1))).
  { unfold back, handleZoom. cbn [setViewport scale offset pos_x pos_y].
    rewrite H1, H2.
    replace 0.01 with (1 / 100) by lra. replace 0.1 with (1 / 10) by lra. field. lra. }
  assert (Hy : pos_y (offset back) = pos_y (offset ws) + 0.01 / (scale ws * (scale ws + 0.1))).
  { unfold back, handleZoom. cbn [setViewport scale offset pos_x pos_y].
    rewrite H1, H2.
    replace 0.01 with (1 / 100) by lra. replace 0.1 with (1 / 10) by lra. field. lra. }
  split; [reflexivity |].
  split.
  { unfold back, handleZoom. cbn [setViewport scale offset pos_x pos_y].
    rewrite H1. exact H2. }
  split; [exact Hx |]. split; [exact Hy |].
  split.
  - intros Heq. rewrite Heq in Hx.
    assert (Hd : 0 < 0.01 / (scale ws * (scale ws + 0.1))).
    { apply Rdiv_lt_0_compat; [lra |]. apply Rmult_lt_0_compat; lra. }
    lra.
  - intros delta Hdelta. unfold handleZoom. cbn [setViewport scale offset pos_x pos_y].
    rewrite clamp_above by lra.
    unfold setViewport. f_equal. apply position_eq. cbn [pos_x pos_y].
    unfold MAX_ZOOM. split; field.
Qed.

Lemma zoom_in_and_out_drifts_witness :
  MIN_ZOOM <= scale Examples.viewport0
  /\ scale Examples.viewport0 + 0.1 <= MAX_ZOOM
  /\ offset (handleZoom (handleZoom Examples.viewport0 (Some Examples.rect0) 0.1)
               (Some Examples.rect0) (-0.1))
     <> offset Examples.viewport0.
Proof.
  assert (H1 : MIN_ZOOM <= scale Examples.viewport0).
  { unfold MIN_ZOOM. simpl. lra. }
  assert (H2 : scale Examples.viewport0 + 0.1 <= MAX_ZOOM).
  { unfold MAX_ZOOM. simpl. lra. }
  split; [exact H1 |]. split; [exact H2 |].
  exact (proj1 (proj2 (proj2 (proj2 (proj2
           (zoom_in_and_out_drifts Examples.viewport0 Examples.rect0 H1 H2)))))).
Defined.

(** A node added from the sidebar lands with its corner at the centre of
    the workspace: with the matrix of the transform container,
    [getCurrentViewportCenter] is the canvas point that the container
    shows at the middle of the workspace rectangle, and [handleAddNode]
    appends a node at that point.  When the workspace element or its
    transform is not found the node is put at (500, 300). *)
Theorem sidebar_node_lands_at_centre (ws : State) (rect : DOMRect)
    (st : Playground.State) (nodeType : string) (template : NodeTemplate) (now : nat) :
  MIN_ZOOM <= scale ws <= MAX_ZOOM ->
  Playground.lookupTemplate nodeType = Some template ->
  let centre := App.getCurrentViewportCenter (Some (rect, Some (App.containerMatrix ws))) in
  centre = toCanvas (scale ws) (offset ws)
             (mkPosition (rect_width rect / 2) (rect_height rect / 2))
  /\ toScreen (scale ws) (offset ws) centre
     = mkPosition (rect_width rect / 2) (rect_height rect / 2)
  /\ (exists node,
        Playground.commit st (Playground.handleAddNode st nodeType centre now)
        = Playground.mkState (Playground.nodes st ++ [node])%list (Playground.edges st)
        /\ n_position node = centre /\ n_type node = nodeType /\ n_label node = nodeType)
  /\ App.getCurrentViewportCenter None = mkPosition 500 300
  /\ App.getCurrentViewportCenter (Some (rect, None)) = mkPosition 500 300.
Proof.
  intros Hvalid Htemplate centre. apply valid_scale_positive in Hvalid.
  assert (Hc : centre = toCanvas (scale ws) (offset ws)
                          (mkPosition (rect_width rect / 2) (rect_height rect / 2))).
  { apply position_eq. unfold centre, App.getCurrentViewportCenter, App.containerMatrix,
      toCanvas. cbn [pos_x pos_y App.matrix_a App.matrix_e App.matrix_f].
    split; field; lra. }
  split; [exact Hc |]. split.
  - rewrite Hc. apply position_eq. unfold toScreen, toCanvas. cbn [pos_x pos_y].
    split; field; lra.
  - split; [| split; reflexivity].
    unfold Playground.handleAddNode. rewrite Htemplate.
    eexists. split; [reflexivity |]. cbn [n_position n_type n_label].
    split; [| split; reflexivity]. destruct centre. reflexivity.
Qed.

Lemma sidebar_node_lands_at_centre_witness :
  MIN_ZOOM <= scale Examples.viewport0 <= MAX_ZOOM
  /\ Playground.lookupTemplate "End"
     = Some (mkTemplate [port "input-1" "End" "none" "input" None None] [])
  /\ toScreen (scale Examples.viewport0) (offset Examples.viewport0)
       (App.getCurrentViewportCenter
          (Some (Examples.rect0, Some (App.containerMatrix Examples.viewport0))))
     = mkPosition (rect_width Examples.rect0 / 2) (rect_height Examples.rect0 / 2).
Proof.
  assert (H : MIN_ZOOM <= scale Examples.viewport0 <= MAX_ZOOM).
  { unfold MIN_ZOOM, MAX_ZOOM. simpl. lra. }
  split; [exact H |]. split; [reflexivity |].
  exact (proj1 (proj2
           (sidebar_node_lands_at_centre Examples.viewport0 Examples.rect0
              Playground.initial "End" _ 7 H eq_refl))).
Defined.

(** The offset set on mount shows the centre of the 3500 x 3500 canvas at
    mid-height of the workspace, [500 * scale] to the right of its
    middle. *)
Theorem initial_offset_shows_canvas_centre (s : R) (rect : DOMRect) :
  MIN_ZOOM <= s <= MAX_ZOOM ->
  toScreen s (initialOffset s rect) (mkPosition 1750 1750)
  = mkPosition (rect_width rect / 2 + 500 * s) (rect_height rect / 2).
Proof.
  intros Hvalid. apply valid_scale_positive in Hvalid.
  apply position_eq. unfold toScreen, initialOffset. cbn [pos_x pos_y].
  split; field; lra.
Qed.

Lemma initial_offset_shows_canvas_centre_witness :
  MIN_ZOOM <= 1 <= MAX_ZOOM
  /\ toScreen 1 (initialOffset 1 Examples.rect0) (mkPosition 1750 1750)
     = mkPosition (rect_width Examples.rect0 / 2 + 500 * 1) (rect_height Examples.rect0 / 2).
Proof.
  assert (H : MIN_ZOOM <= 1 <= MAX_ZOOM) by (unfold MIN_ZOOM, MAX_ZOOM; lra).
  split; [exact H |].
  exact (initial_offset_shows_canvas_centre 1 Examples.rect0 H).
Defined.

End ViewportMore.

(** ** Connecting and dragging *)

Section PointerMore.

Import Playground Workspace App.
Local Open Scope R_scope.

Lemma snapStep_result (done : list (string * Position)) (mx my radius : R)
    (acc : option string * option R) (entry : string * Position) :
  snapResult done mx my radius acc ->
  snapResult (done ++ [entry])%list mx my radius (snapStep mx my radius acc entry).
Proof.
  destruct entry as [fid0 pos0]. destruct acc as [[fid |] [m |]]; cbn [snapResult];
    try contradiction; unfold snapStep; cbn [fst snd belowMin].
  - intros (pos & Hin & Hd & Hr & Hmin).
    destruct (Rlt_dec (distance pos0 mx my) m) as [Hlt | Hge];
      destruct (Rle_dec (distance pos0 mx my) radius) as [Hle | Hgt]; cbn [andb snapResult].
    + exists pos0. split; [apply in_or_app; right; left; reflexivity |].
      split; [reflexivity |]. split; [exact Hle |].
      intros fid' pos' Hin'. apply in_app_or in Hin'. destruct Hin' as [Hin' | [Heq | []]].
      * specialize (Hmin fid' pos' Hin'). lra.
      * injection Heq as _ <-. lra.
    + exists pos. split; [apply in_or_app; left; exact Hin |].
      split; [exact Hd |]. split; [exact Hr |].
      intros fid' pos' Hin'. apply in_app_or in Hin'. destruct Hin' as [Hin' | [Heq | []]].
      * apply (Hmin fid' pos' Hin').
      * injection Heq as _ <-. lra.
    + exists pos. split; [apply in_or_app; left; exact Hin |].
      split; [exact Hd |]. split; [exact Hr |].
      intros fid' pos' Hin'. apply in_app_or in Hin'. destruct Hin' as [Hin' | [Heq | []]].
      * apply (Hmin fid' pos' Hin').
      * injection Heq as _ <-. lra.
    + exists pos. split; [apply in_or_app; left; exact Hin |].
      split; [exact Hd |]. split; [exact Hr |].
      intros fid' pos' Hin'. apply in_app_or in Hin'. destruct Hin' as [Hin' | [Heq | []]].
      * apply (Hmin fid' pos' Hin').
      * injection Heq as _ <-. lra.
  - intros Hfar.
    destruct (Rle_dec (distance pos0 mx my) radius) as [Hle | Hgt]; cbn [andb snapResult].
    + exists pos0. split; [apply in_or_app; right; left; reflexivity |].
      split; [reflexivity |]. split; [exact Hle |].
      intros fid' pos' Hin'. apply in_app_or in Hin'. destruct Hin' as [Hin' | [Heq | []]].
      * specialize (Hfar fid' pos' Hin'). lra.
      * injection Heq as _ <-. lra.
    + intros fid' pos' Hin'. apply in_app_or in Hin'. destruct Hin' as [Hin' | [Heq | []]].
      * apply (Hfar fid' pos' Hin').
      * injection Heq as _ <-. lra.
Qed.

Lemma snapFold_result (positions done : list (string * Position)) (mx my radius : R)
    (acc : option string * option R) :
  snapResult done mx my radius acc ->
  snapResult (done ++ positions)%list mx my radius
    (fold_left (snapStep mx my radius) positions acc).
Proof.
  revert done acc. induction positions as [| entry rest IH]; intros done acc H.
  - rewrite app_nil_r. exact H.
  - cbn [fold_left].
    replace (done ++ entry :: rest)%list with ((done ++ [entry]) ++ rest)%list
      by (rewrite <- app_assoc; reflexivity).
    apply IH. apply snapStep_result. exact H.
Qed.

(** A move of the pointer during a connection drag records the pointer in
    canvas coordinates of the viewport the drag started in, and proposes
    as snap candidate an anchor within [40 / scale] of the pointer that is
    nearest among all anchors; there is no candidate exactly when every
    anchor is farther than that.  The highlighted port is the
    candidate. *)
Theorem snap_candidate_is_nearest (d : Drag) (ws : State) (rect : DOMRect) (cx cy : R) :
  let moved := handleMouseMove d ws (Some rect) cx cy in
  let pointer := mousePosition (snd moved) in
  pointer = toCanvas (d_scale d) (d_offset d)
              (mkPosition (cx - rect_left rect) (cy - rect_top rect))
  /\ snapFieldId (snd moved) = currentSnapCandidate (fst moved)
  /\ match currentSnapCandidate (fst moved) with
     | Some fieldId =>
         exists pos,
           In (fieldId, pos) (d_fieldPositions d)
           /\ distance pos (pos_x pointer) (pos_y pointer) <= 40 / d_scale d
           /\ forall fieldId' pos', In (fieldId', pos') (d_fieldPositions d) ->
                distance pos (pos_x pointer) (pos_y pointer)
                <= distance pos' (pos_x pointer) (pos_y pointer)
     | None =>
         forall fieldId pos, In (fieldId, pos) (d_fieldPositions d) ->
           40 / d_scale d < distance pos (pos_x pointer) (pos_y pointer)
     end.
Proof.
  intros moved pointer.
  split; [reflexivity |]. split; [reflexivity |].
  unfold moved, pointer, handleMouseMove.
  cbn [fst snd setCandidate currentSnapCandidate setSnapFieldId setMousePosition
       mousePosition pos_x pos_y].
  unfold snapSearch.
  pose proof (snapFold_result (d_fieldPositions d) []
                ((cx - rect_left rect) / d_scale d - pos_x (d_offset d))
                ((cy - rect_top rect) / d_scale d - pos_y (d_offset d))
                (40 / d_scale d) (None, None)) as H.
  cbn [app] in H.
  destruct (fold_left _ (d_fieldPositions d) (None, None)) as [[fieldId |] [m |]];
    cbn [fst snapResult] in *.
  - destruct H as (pos & Hin & Hd & Hr & Hmin); [intros ? ? [] |].
    subst m. exists pos. auto.
  - exfalso. apply H. intros ? ? [].
  - exfalso. apply H. intros ? ? [].
  - apply H. intros ? ? [].
Qed.

Lemma querySelectorField_port (nodes : list NodeData) (id : string) (elem : FieldElement) :
  querySelectorField nodes id = Some elem ->
  data_field_id elem = id
  /\ exists node field,
       In node nodes /\ data_node_id elem = n_id node /\ f_id field = id
       /\ ((data_field_type elem = "input" /\ In field (n_inputs node))
           \/ (data_field_type elem = "output" /\ In field (n_outputs node))).
Proof.
  unfold querySelectorField. intros H. apply find_some in H. destruct H as [Hin Heq].
  apply String.eqb_eq in Heq. split; [exact Heq |].
  unfold fieldElements in Hin. apply in_flat_map in Hin. destruct Hin as (node & Hnode & Hin).
  apply in_app_or in Hin.
  destruct Hin as [Hin | Hin]; apply in_map_iff in Hin; destruct Hin as (field & <- & Hf);
    exists node, field; cbn [data_field_id data_node_id data_field_type] in *;
    (split; [exact Hnode |]); (split; [reflexivity |]); (split; [exact Heq |]);
    [left | right]; split; (reflexivity || exact Hf).
Qed.

(** An edge proposed at the end of a connection drag carries the
    placeholder identifier, never joins a node to itself, and always runs
    from an output to an input: one end is the port the drag started on,
    the other the snapped port of a rendered node, of the opposite
    direction. *)
Theorem proposed_edge_joins_output_to_input (d : Drag) (ws : State) (nodes : list NodeData)
    (edge : EdgeData) :
  snd (handleMouseUp d ws nodes) = Some edge ->
  e_id edge = "temp-id"
  /\ e_source edge <> e_target edge
  /\ ((d_fieldType d = "output"
       /\ e_source edge = d_nodeId d /\ e_sourceHandle edge = d_fieldId d
       /\ currentSnapCandidate d = Some (e_targetHandle edge)
       /\ exists node field,
            In node nodes /\ In field (n_inputs node)
            /\ e_target edge = n_id node /\ e_targetHandle edge = f_id field)
      \/ (d_fieldType d = "input"
          /\ e_target edge = d_nodeId d /\ e_targetHandle edge = d_fieldId d
          /\ currentSnapCandidate d = Some (e_sourceHandle edge)
          /\ exists node field,
               In node nodes /\ In field (n_outputs node)
               /\ e_source edge = n_id node /\ e_sourceHandle edge = f_id field)).
Proof.
  unfold handleMouseUp. cbn [snd].
  destruct (currentSnapCandidate d) as [candidate |]; [| discriminate].
  destruct (negb (Js.truthy candidate)); [discriminate |].
  destruct (querySelectorField nodes candidate) as [elem |] eqn:Q; [| discriminate].
  apply querySelectorField_port in Q.
  destruct Q as (Hid & node & field & Hnode & Hnid & Hfid & Hdir).
  destruct (Js.truthy (data_field_id elem) && Js.truthy (data_node_id elem)
            && Js.truthy (data_field_type elem)); [| discriminate].
  destruct (String.eqb (data_node_id elem) (d_nodeId d)) eqn:Hself;
    [rewrite andb_false_r; discriminate |].
  apply String.eqb_neq in Hself.
  destruct (String.eqb (d_fieldType d) "output") eqn:Hout.
  - apply String.eqb_eq in Hout.
    destruct (String.eqb (data_field_type elem) "input") eqn:Hin.
    + apply String.eqb_eq in Hin. cbn [andb orb negb]. intros [= <-].
      cbn [e_id e_source e_target e_sourceHandle e_targetHandle].
      split; [reflexivity |]. split; [congruence |]. left.
      repeat split; try assumption; try (rewrite Hid; reflexivity).
      exists node, field.
      destruct Hdir as [[_ Hf] | [Ho _]]; [| rewrite Hin in Ho; discriminate].
      repeat split; try assumption. congruence.
    + cbn [andb orb]. rewrite Hout. cbn. discriminate.
  - cbn [andb orb].
    destruct (String.eqb (d_fieldType d) "input") eqn:Hinp; [| discriminate].
    apply String.eqb_eq in Hinp.
    destruct (String.eqb (data_field_type elem) "output") eqn:Ho; [| discriminate].
    apply String.eqb_eq in Ho. cbn [andb negb]. intros [= <-].
    cbn [e_id e_source e_target e_sourceHandle e_targetHandle].
    split; [reflexivity |]. split; [congruence |]. right.
    repeat split; try assumption; try (rewrite Hid; reflexivity).
    exists node, field.
    destruct Hdir as [[Hi _] | [_ Hf]]; [rewrite Ho in Hi; discriminate |].
    repeat split; try assumption. congruence.
Qed.

Lemma proposed_edge_joins_output_to_input_witness :
  snd (handleMouseUp snappedDrag Examples.oneAnchor Examples.textAgentNodes)
  = Some (mkEdge "temp-id" "node-1" "output-1-1" "node-2" "input-3-2")
  /\ e_source (mkEdge "temp-id" "node-1" "output-1-1" "node-2" "input-3-2")
     <> e_target (mkEdge "temp-id" "node-1" "output-1-1" "node-2" "input-3-2").
Proof.
  split; [reflexivity |].
  exact (proj1 (proj2
           (proposed_edge_joins_output_to_input snappedDrag Examples.oneAnchor
              Examples.textAgentNodes
              (mkEdge "temp-id" "node-1" "output-1-1" "node-2" "input-3-2") eq_refl))).
Defined.

End PointerMore.

(** ** Dragging a node *)

Section NodeDragFacts.

Import Playground Workspace App.
Local Open Scope R_scope.






End NodeDragFacts.

(** ** Port anchors and the curves between them *)

Section AnchorFacts.

Import Workspace.
Local Open Scope R_scope.

Lemma lookupAnchor_objectSet (obj : list (string * Position)) (key fieldId : string)
    (value : Position) :
  lookupAnchor (objectSet obj key value) fieldId
  = if String.eqb key fieldId then Some value else lookupAnchor obj fieldId.
Proof.
  unfold lookupAnchor. induction obj as [| [k v] rest IH]; cbn [objectSet find fst].
  - destruct (String.eqb key fieldId); reflexivity.
  - destruct (String.eqb k key) eqn:E; cbn [find fst].
    + apply String.eqb_eq in E. subst k.
      destruct (String.eqb key fieldId); reflexivity.
    + destruct (String.eqb k fieldId) eqn:F.
      * apply String.eqb_eq in F. subst k. rewrite String.eqb_sym, E. reflexivity.
      * exact IH.
Qed.

Lemma fieldPositions_other (ws : State) (wrect : DOMRect) (elems : list (string * DOMRect))
    (acc : list (string * Position)) (fieldId : string) :
  (forall rect, ~ In (fieldId, rect) elems) ->
  lookupAnchor (fold_left (fieldPositionStep ws (Some wrect)) elems acc) fieldId
  = lookupAnchor acc fieldId.
Proof.
  revert acc. induction elems as [| [k r] rest IH]; intros acc Hnot; [reflexivity |].
  cbn [fold_left]. rewrite IH by (intros rect Hin; apply (Hnot rect); right; exact Hin).
  unfold fieldPositionStep. cbn [fst snd].
  destruct (Js.truthy k); [| reflexivity].
  rewrite lookupAnchor_objectSet.
  destruct (String.eqb k fieldId) eqn:E; [| reflexivity].
  apply String.eqb_eq in E. subst k. exfalso. apply (Hnot r). left. reflexivity.
Qed.

Lemma fieldPositions_origin (ws : State) (wrect : DOMRect) (elems : list (string * DOMRect))
    (acc : list (string * Position)) (fieldId : string) (pos : Position) :
  lookupAnchor (fold_left (fieldPositionStep ws (Some wrect)) elems acc) fieldId = Some pos ->
  lookupAnchor acc fieldId = Some pos
  \/ exists rect,
       In (fieldId, rect) elems /\ Js.truthy fieldId = true /\ pos = anchorOf ws wrect rect.
Proof.
  revert acc. induction elems as [| [k r] rest IH]; intros acc H; [left; exact H |].
  cbn [fold_left] in H. apply IH in H. destruct H as [H | (rect & Hin & Ht & ->)].
  - unfold fieldPositionStep in H. cbn [fst snd] in H.
    destruct (Js.truthy k) eqn:T; [| left; exact H].
    rewrite lookupAnchor_objectSet in H.
    destruct (String.eqb k fieldId) eqn:E; [| left; exact H].
    apply String.eqb_eq in E. subst k. injection H as <-.
    right. exists r. split; [left; reflexivity |]. split; [exact T | reflexivity].
  - right. exists rect. split; [right; exact Hin |]. split; [exact Ht | reflexivity].
Qed.

(** After [updateFieldPositions] every anchor is the centre of a port
    element: the transform container shows it at the centre of that
    element's rectangle, relative to the workspace.  Of several elements
    with one identifier the last one gives the anchor; elements without
    identifier give none; and without workspace rectangle the anchor map
    is emptied. *)
Theorem anchors_at_port_centres (ws : State) (wrect : DOMRect)
    (elems : list (string * DOMRect)) :
  MIN_ZOOM <= scale ws <= MAX_ZOOM ->
  let positions := updateFieldPositions ws (Some wrect) elems in
  (forall fieldId pos, lookupAnchor positions fieldId = Some pos ->
     exists rect,
       In (fieldId, rect) elems
       /\ toScreen (scale ws) (offset ws) pos
          = mkPosition (rect_left rect + rect_width rect / 2 - rect_left wrect)
                       (rect_top rect + rect_height rect / 2 - rect_top wrect))
  /\ (forall pre fieldId rect post,
        elems = (pre ++ (fieldId, rect) :: post)%list ->
        (forall rect', ~ In (fieldId, rect') post) ->
        lookupAnchor positions fieldId
        = if Js.truthy fieldId then Some (anchorOf ws wrect rect) else None)
  /\ updateFieldPositions ws None elems = [].
Proof.
  intros Hvalid positions. apply valid_scale_positive in Hvalid.
  split; [| split].
  - intros fieldId pos H. unfold positions, updateFieldPositions in H.
    apply fieldPositions_origin in H. destruct H as [H | (rect & Hin & _ & ->)];
      [discriminate |].
    exists rect. split; [exact Hin |].
    apply position_eq. unfold toScreen, anchorOf. cbn [pos_x pos_y]. split; field; lra.
  - intros pre fieldId rect post -> Hlast.
    unfold positions, updateFieldPositions. rewrite fold_left_app. cbn [fold_left].
    rewrite fieldPositions_other by exact Hlast.
    unfold fieldPositionStep at 1. cbn [fst snd].
    destruct (Js.truthy fieldId) eqn:T.
    + rewrite lookupAnchor_objectSet, String.eqb_refl. reflexivity.
    + destruct (lookupAnchor _ fieldId) as [pos |] eqn:L; [| reflexivity].
      exfalso. apply fieldPositions_origin in L.
      destruct L as [L | (rect' & _ & Ht & _)]; [discriminate | congruence].
  - unfold updateFieldPositions. induction elems as [| e rest IH] using rev_ind;
      [reflexivity |].
    rewrite fold_left_app. cbn [fold_left fieldPositionStep]. exact IH.
Qed.

Lemma anchors_at_port_centres_witness :
  MIN_ZOOM <= scale Examples.viewport0 <= MAX_ZOOM
  /\ updateFieldPositions Examples.viewport0 None [("input-3-2", mkRect 10 20 16 16)] = [].
Proof.
  assert (H : MIN_ZOOM <= scale Examples.viewport0 <= MAX_ZOOM).
  { unfold MIN_ZOOM, MAX_ZOOM. simpl. lra. }
  split; [exact H |].
  exact (proj2 (proj2
           (anchors_at_port_centres Examples.viewport0 Examples.rect0
              [("input-3-2", mkRect 10 20 16 16)] H))).
Defined.







(** [renderEdges] draws exactly the edges whose two handles have an
    anchor, each under its own identifier, from the anchor of the source
    handle to the anchor of the target handle.  Every curve leaves its
    start horizontally to the right and reaches its end horizontally from
    the left, also when the end lies left of the start: both control
    points sit at the height of their endpoint, at the same distance from
    it, which is [max(0.3 |dx|, 100)]. *)
Theorem drawn_edges_leave_right_enter_left (ws : State) (edges : list EdgeData) :
  (forall edge sourcePos targetPos,
     In edge edges ->
     lookupAnchor (fieldPositions ws) (e_sourceHandle edge) = Some sourcePos ->
     lookupAnchor (fieldPositions ws) (e_targetHandle edge) = Some targetPos ->
     In (e_id edge,
         generateCurvedPath (pos_x sourcePos) (pos_y sourcePos)
                            (pos_x targetPos) (pos_y targetPos))
        (renderEdges ws edges))
  /\ (forall id curve,
        In (id, curve) (renderEdges ws edges) ->
        exists edge,
          In edge edges /\ e_id edge = id
          /\ lookupAnchor (fieldPositions ws) (e_sourceHandle edge) = Some (curve_start curve)
          /\ lookupAnchor (fieldPositions ws) (e_targetHandle edge) = Some (curve_end curve)
          /\ pos_y (curve_cp1 curve) = pos_y (curve_start curve)
          /\ pos_y (curve_cp2 curve) = pos_y (curve_end curve)
          /\ pos_x (curve_cp1 curve) - pos_x (curve_start curve)
             = pos_x (curve_end curve) - pos_x (curve_cp2 curve)
          /\ pos_x (curve_cp1 curve) - pos_x (curve_start curve)
             = Rmax (Rabs (pos_x (curve_end curve) - pos_x (curve_start curve)) * 0.3) 100
          /\ 100 <= pos_x (curve_cp1 curve) - pos_x (curve_start curve))
  /\ (length (renderEdges ws edges) <= length edges)%nat.
Proof.
  split; [| split].
  - intros edge sourcePos targetPos Hin Hs Ht. unfold renderEdges.
    apply in_flat_map. exists edge. split; [exact Hin |].
    rewrite Hs, Ht. left. reflexivity.
  - intros id curve Hin. unfold renderEdges in Hin. apply in_flat_map in Hin.
    destruct Hin as (edge & Hedge & Hin). exists edge.
    destruct (lookupAnchor (fieldPositions ws) (e_sourceHandle edge)) as [sourcePos |];
      [| destruct Hin].
    destruct (lookupAnchor (fieldPositions ws) (e_targetHandle edge)) as [targetPos |];
      [| destruct Hin].
    destruct Hin as [Heq | []]. injection Heq as <- <-.
    destruct sourcePos as [sx sy], targetPos as [tx ty].
    unfold generateCurvedPath.
    cbn [curve_start curve_end curve_cp1 curve_cp2 pos_x pos_y].
    repeat split; try assumption; try reflexivity; try ring.
    replace (sx + Rmax (Rabs (tx - sx) * 0.3) 100 - sx)
      with (Rmax (Rabs (tx - sx) * 0.3) 100) by ring.
    apply Rmax_r.
  - unfold renderEdges. induction edges as [| edge rest IH]; [apply le_n |].
    cbn [flat_map]. rewrite length_app. cbn [length].
    destruct (lookupAnchor (fieldPositions ws) (e_sourceHandle edge));
      [destruct (lookupAnchor (fieldPositions ws) (e_targetHandle edge)) |];
      cbn [length]; lia.
Qed.

(** The zoom label is the scale in per cent rounded to the nearest
    integer: it lies between 50 and 200, is off by at most a half, and
    reads 100 at scale 1. *)
Theorem zoom_label_in_range (ws : State) :
  MIN_ZOOM <= scale ws <= MAX_ZOOM ->
  (50 <= getZoomPercentage ws <= 200)%Z
  /\ Rabs (IZR (getZoomPercentage ws) - scale ws * 100) <= 1 / 2
  /\ (scale ws = 1 -> getZoomPercentage ws = 100%Z).
Proof.
  unfold MIN_ZOOM, MAX_ZOOM, getZoomPercentage, Math_round. intros [Hlo Hhi].
  pose proof (Zfloor_bound (scale ws * 100 + 0.5)) as [Hb1 Hb2].
  split; [split |]; [| | split].
  - apply Zfloor_lub. lra.
  - apply Z.lt_succ_r. apply lt_IZR.
    change (Z.succ 200) with 201%Z. lra.
  - apply Rabs_le. lra.
  - intros H1. apply Zfloor_eq. rewrite H1. lra.
Qed.

Lemma zoom_label_in_range_witness :
  MIN_ZOOM <= scale Examples.viewport0 <= MAX_ZOOM
  /\ (50 <= getZoomPercentage Examples.viewport0 <= 200)%Z.
Proof.
  assert (H : MIN_ZOOM <= scale Examples.viewport0 <= MAX_ZOOM).
  { unfold MIN_ZOOM, MAX_ZOOM. simpl. lra. }
  split; [exact H |].
  exact (proj1 (zoom_label_in_range Examples.viewport0 H)).
Defined.

End AnchorFacts.

(** * Patterns no graph of the page can match *)

Section DeadPatterns.

Import Playground Workspace App.

Lemma stamped_names (now : nat) (fields : list NodeField) :
  map f_name (map (stampField now) fields) = map f_name fields.
Proof. rewrite map_map. apply map_ext. reflexivity. Qed.

Lemma step_fromTemplate (st st' : Playground.State) :
  Forall fromTemplate (nodes st) -> step st st' -> Forall fromTemplate (nodes st').
Proof.
  intros Hall Hstep.
  destruct Hstep as
    [st nodeType viewportCenter now | st nodeType position now | st node Hnode
    | st edge Hedge | st ws down node fieldId fieldType moves now Hnode];
    rewrite (proj1 (settle_filters _ _)).
  - unfold handleAddNode. destruct (lookupTemplate nodeType) as [template |] eqn:T;
      [| exact Hall].
    cbn. apply List.Forall_app. split; [exact Hall |]. constructor; [| constructor].
    exists template. cbn [n_type n_inputs n_outputs]. rewrite !stamped_names. auto.
  - unfold handleNodeDrop. destruct (lookupTemplate nodeType) as [template |] eqn:T;
      [| exact Hall].
    cbn. apply List.Forall_app. split; [exact Hall |]. constructor; [| constructor].
    exists template. cbn [n_type n_inputs n_outputs]. rewrite !stamped_names. auto.
  - cbn. apply List.Forall_forall. intros n Hn. apply List.filter_In in Hn.
    rewrite List.Forall_forall in Hall. apply Hall, Hn.
  - exact Hall.
  - destruct (connectGesture_outcome st ws down (n_id node) fieldId fieldType moves now)
      as [-> | (edge & _ & ->)]; exact Hall.
Qed.

Lemma steps_fromTemplate (st : Playground.State) :
  steps initial st -> Forall fromTemplate (nodes st).
Proof.
  intros H. remember initial as st0 eqn:E.
  induction H as [st | st1 st2 st3 _ IH Hstep].
  - subst st. constructor.
  - apply (step_fromTemplate st2 st3); [apply IH, E | exact Hstep].
Qed.

Lemma lookupTemplate_kind (kind : string) (template : NodeTemplate) :
  lookupTemplate kind = Some template -> In kind (map fst nodeTemplates).
Proof.
  unfold lookupTemplate. destruct (find _ nodeTemplates) as [kv |] eqn:F; [| discriminate].
  intros _. apply find_some in F. destruct F as [Hin Heq]. apply String.eqb_eq in Heq.
  subst kind. apply in_map, Hin.
Qed.

Lemma pairsSpelling_complete (s t key : string) :
  In s (map fst nodeTemplates) -> In t (map fst nodeTemplates) ->
  s ++ Js.arrow ++ t = key -> In (s, t) (pairsSpelling key).
Proof.
  intros Hs Ht Hkey. unfold pairsSpelling. apply List.filter_In. split.
  - apply in_prod; assumption.
  - cbn [fst snd]. apply String.eqb_eq, Hkey.
Qed.

Lemma name_among (fields : list NodeField) (names : list string) (field : NodeField) :
  map f_name fields = names -> In field fields -> In (f_name field) names.
Proof. intros <- Hin. apply in_map, Hin. Qed.

Lemma json_processor_rejected (nodes : list NodeData) (edges : list EdgeData) :
  Forall fromTemplate nodes -> checkWorkflowPattern nodes edges "json-processor" = false.
Proof.
  intros Hall. destruct (checkWorkflowPattern nodes edges "json-processor") eqn:C;
    [exfalso | reflexivity].
  set (p := mkPattern "json-processor" "JSON Processor" ["JSON-Processor"; "End"]
              [mkConn "JSON-Processor→End" "Processed JSON→End"]
              "http://localhost:8000/component/json").
  assert (Hp : In p workflowPatterns).
  { unfold workflowPatterns. repeat (first [left; reflexivity | right]). }
  apply (checkWorkflowPattern_spec nodes edges p Hp) in C. destruct C as [_ Hconn].
  specialize (Hconn _ (or_introl eq_refl)).
  apply connectionSatisfied_iff in Hconn. destruct Hconn as (edge & conn & _ & Hc & Hm).
  apply entriesOf_In in Hc.
  destruct Hc as (sn & tn & so & ti & Hs & Ht & Hso & Hti & Hk & ->).
  apply findNode_some in Hs. apply findNode_some in Ht.
  apply findField_some in Hso. apply findField_some in Hti.
  rewrite List.Forall_forall in Hall.
  destruct (Hall sn (proj1 Hs)) as (stemplate & Hst & _ & Hsout).
  destruct (Hall tn (proj1 Ht)) as (ttemplate & Htt & Htin & _).
  cbn [nodeConnection portConnection] in *.
  pose proof (pairsSpelling_complete _ _ _ (lookupTemplate_kind _ _ Hst)
                (lookupTemplate_kind _ _ Htt) Hk) as Hpair.
  assert (Hps : pairsSpelling "JSON-Processor→End" = [("JSON-Processor", "End")])
    by (vm_compute; reflexivity).
  rewrite Hps in Hpair. destruct Hpair as [Hpair | []].
  injection Hpair as Hsk Htk.
  rewrite <- Hsk in Hst. rewrite <- Htk in Htt.
  vm_compute in Hst. vm_compute in Htt.
  injection Hst as <-. injection Htt as <-.
  apply (name_among _ _ _ Hsout) in Hso. apply (name_among _ _ _ Htin) in Hti.
  cbn in Hso, Hti.
  destruct Hso as [Hso | []]. destruct Hti as [Hti | []].
  rewrite <- Hso, <- Hti in Hm. vm_compute in Hm. discriminate.
Qed.

Lemma local_filesystem_rejected (nodes : list NodeData) (edges : list EdgeData) :
  Forall fromTemplate nodes -> checkWorkflowPattern nodes edges "local-filesystem" = false.
Proof.
  intros Hall. destruct (checkWorkflowPattern nodes edges "local-filesystem") eqn:C;
    [exfalso | reflexivity].
  set (p := mkPattern "local-filesystem" "Local File System" ["Local-FileSystem"; "End"]
              [mkConn "Local-FileSystem→End" "Result→End"]
              "http://localhost:8000/component/localfs").
  assert (Hp : In p workflowPatterns).
  { unfold workflowPatterns. repeat (first [left; reflexivity | right]). }
  apply (checkWorkflowPattern_spec nodes edges p Hp) in C. destruct C as [Hkinds _].
  pose proof (proj2 (Hkinds "Local-FileSystem") (or_introl eq_refl)) as Hin.
  apply in_map_iff in Hin. destruct Hin as (node & Hty & Hnode).
  rewrite List.Forall_forall in Hall. destruct (Hall node Hnode) as (template & Ht & _).
  rewrite Hty in Ht. vm_compute in Ht. discriminate.
Qed.

(** On a graph built on the page from the empty canvas every node is of a
    kind of the sidebar and has the port names of its template.  Such a
    graph is never accepted as [json-processor], whose required output
    ["Processed JSON"] is not among the outputs of the JSON-Processor
    template (its only output is ["Result"]), nor as [local-filesystem],
    whose kind ["Local-FileSystem"] has no template: whatever the edges,
    the play button never takes these two routes. *)
Theorem json_and_localfs_never_detected (st : Playground.State) :
  steps initial st ->
  Forall fromTemplate (nodes st)
  /\ (forall edges',
        checkWorkflowPattern (nodes st) edges' "json-processor" = false
        /\ checkWorkflowPattern (nodes st) edges' "local-filesystem" = false)
  /\ (forall detected,
        handlePlayClick st = PatternRoute detected ->
        patternId detected <> "json-processor"
        /\ patternId detected <> "local-filesystem"
        /\ d_endpoint detected <> "http://localhost:8000/component/json"
        /\ d_endpoint detected <> "http://localhost:8000/component/localfs").
Proof.
  intros Hsteps. pose proof (steps_fromTemplate st Hsteps) as Hall.
  split; [exact Hall |]. split.
  - intros edges'. split; [apply json_processor_rejected | apply local_filesystem_rejected];
      exact Hall.
  - intros detected Hroute. unfold handlePlayClick in Hroute.
    destruct (length (nodes st) =? 0)%nat; [discriminate |].
    destruct (negb _); [discriminate |].
    destruct (detectWorkflowPattern (nodes st) (edges st)) as [d |] eqn:D; [| discriminate].
    injection Hroute as ->. apply detect_some in D.
    destruct D as (p & Hp & Hcheck & ->). cbn [patternId d_endpoint].
    assert (Hj : p_id p <> "json-processor").
    { intros E. rewrite E in Hcheck.
      rewrite json_processor_rejected in Hcheck by exact Hall. discriminate. }
    assert (Hl : p_id p <> "local-filesystem").
    { intros E. rewrite E in Hcheck.
      rewrite local_filesystem_rejected in Hcheck by exact Hall. discriminate. }
    split; [exact Hj |]. split; [exact Hl |].
    unfold workflowPatterns in Hp. cbn [In] in Hp.
    repeat (destruct Hp as [<- | Hp];
            [cbn [p_id endpoint] in *; split; first [discriminate | congruence] |]).
    destruct Hp.
Qed.

Lemma json_and_localfs_never_detected_witness :
  steps initial jsonGraph
  /\ checkWorkflowPattern (nodes jsonGraph) jsonEdges "json-processor" = false.
Proof.
  assert (H : steps initial jsonGraph).
  { unfold jsonGraph. cbn [fold_left]. unfold Examples.place. cbn [fst snd].
    eapply steps_then; [eapply steps_then; [apply steps_refl |] |]; apply step_addNode. }
  split; [exact H |].
  exact (proj1 (proj1 (proj2 (json_and_localfs_never_detected jsonGraph H)) jsonEdges)).
Defined.

Lemma placing_steps (kinds : list (string * nat)) (st : Playground.State) :
  steps initial st -> steps initial (fold_left Examples.place kinds st).
Proof.
  revert st. induction kinds as [| kindAt rest IH]; intros st H; [exact H |].
  cbn [fold_left]. apply IH. eapply steps_then; [exact H |].
  unfold Examples.place. apply step_addNode.
Qed.

End DeadPatterns.

(** * Graphs drawn on the page *)

Section Gestures.

Import Playground Workspace App.
Local Open Scope R_scope.

Lemma snap_at_anchor (fieldId : string) :
  snapSearch [(fieldId, mkPosition 0 0)]
    ((0 - rect_left Examples.rect0) / 1 - 0) ((0 - rect_top Examples.rect0) / 1 - 0) (40 / 1)
  = Some fieldId.
Proof.
  unfold snapSearch. cbn [fold_left]. unfold snapStep. cbn [fst snd belowMin andb].
  destruct (Rle_dec _ _) as [_ | Hfar]; [reflexivity |].
  exfalso. apply Hfar. unfold distance. cbn [pos_x pos_y Examples.rect0 rect_left rect_top].
  replace ((0 - ((0 - 0) / 1 - 0)) * (0 - ((0 - 0) / 1 - 0))
           + (0 - ((0 - 0) / 1 - 0)) * (0 - ((0 - 0) / 1 - 0))) with 0 by field.
  rewrite sqrt_0. lra.
Qed.

(** The gesture that draws a connectable edge: button down on the source
    port, the pointer moved onto the anchor of the target port, button
    up. *)
Lemma gesture_draws_edge (st : Playground.State) (edge : EdgeData) (now : nat) :
  connectable st edge = true ->
  snd (connectGesture st (anchorAt (e_targetHandle edge)) pointerAtOrigin
         (e_source edge) (e_sourceHandle edge) "output" [pointerAtOrigin] now)
  = withEdge st edge now.
Proof.
  unfold connectable.
  destruct (findNode (nodes st) (e_source edge)) as [sourceNode |]; [| discriminate].
  destruct (querySelectorField (nodes st) (e_targetHandle edge)) as [elem |] eqn:Q;
    [| discriminate].
  intros H.
  apply andb_true_iff in H. destruct H as [H Hnew].
  apply andb_true_iff in H. destruct H as [H Hother].
  apply andb_true_iff in H. destruct H as [H Htarget].
  apply andb_true_iff in H. destruct H as [H Hinput].
  apply andb_true_iff in H. destruct H as [H Hnode].
  apply andb_true_iff in H. destruct H as [H Hfield].
  apply andb_true_iff in H. destruct H as [_ Hcandidate].
  apply String.eqb_eq in Htarget.
  assert (Hid : data_field_id elem = e_targetHandle edge).
  { unfold querySelectorField in Q. apply find_some in Q. apply String.eqb_eq, Q. }
  unfold connectGesture.
  change (handleFieldMouseDown (anchorAt (e_targetHandle edge)) (edges st)
            (ev_rect pointerAtOrigin) (clientX pointerAtOrigin) (clientY pointerAtOrigin)
            (e_source edge) (e_sourceHandle edge) "output")
    with (setConnectionStart
            (setMousePosition (anchorAt (e_targetHandle edge))
               (mkPosition ((0 - rect_left Examples.rect0) / 1 - 0)
                           ((0 - rect_top Examples.rect0) / 1 - 0)))
            (Some (mkConnectionState (e_source edge) (e_sourceHandle edge) "output")),
          Some (mkDrag (e_source edge) (e_sourceHandle edge) "output" 1 (mkPosition 0 0)
                       [(e_targetHandle edge, mkPosition 0 0)] (edges st) None)).
  unfold dragMoves. cbn [fold_left fst snd].
  unfold handleMouseMove.
  cbn [ev_rect pointerAtOrigin clientX clientY d_scale d_offset d_fieldPositions pos_x pos_y].
  rewrite snap_at_anchor.
  unfold release, handleMouseUp.
  cbn [setCandidate currentSnapCandidate d_nodeId d_fieldId d_fieldType d_edges fst snd].
  rewrite Hcandidate. cbn [negb]. rewrite Q.
  rewrite Hfield, Hnode, Hinput, Hother.
  change (String.eqb "output" "output") with true.
  change (String.eqb "input" "input") with true.
  cbn [andb orb negb].
  assert (Hin : Js.truthy (data_field_type elem) = true).
  { apply String.eqb_eq in Hinput. rewrite Hinput. reflexivity. }
  rewrite Hin. cbn [snd].
  unfold handleAddEdge.
  assert (Hsame : existsb
            (fun e => sameTuple e
               (mkEdge "temp-id" (e_source edge) (e_sourceHandle edge)
                       (data_node_id elem) (data_field_id elem)))
            (edges st) = false).
  { apply negb_true_iff in Hnew. rewrite <- Hnew. apply existsb_pointwise.
    intros e. unfold sameTuple. cbn [e_source e_target e_sourceHandle e_targetHandle].
    rewrite Htarget, Hid. reflexivity. }
  rewrite Hsame. cbn [negb]. unfold commit, withEdge.
  cbn [nodeUpdates edgeUpdates applyQueue fold_left applyAction
       e_source e_target e_sourceHandle e_targetHandle].
  rewrite Htarget, Hid. reflexivity.
Qed.

Lemma connect_step (st : Playground.State) (edge : EdgeData) (now : nat) :
  connectable st edge = true -> step st (withEdge st edge now).
Proof.
  intros H. pose proof (gesture_draws_edge st edge now H) as Hdraw.
  unfold connectable in H.
  destruct (findNode (nodes st) (e_source edge)) as [sourceNode |] eqn:F; [| discriminate].
  apply findNode_some in F. destruct F as [Hin Hid].
  rewrite <- (settle_same_nodes st (withEdge st edge now)) by reflexivity.
  rewrite <- Hdraw. rewrite <- Hid.
  apply (step_connect st (anchorAt (e_targetHandle edge)) pointerAtOrigin sourceNode
           (e_sourceHandle edge) "output" [pointerAtOrigin] now Hin).
Qed.

Lemma drawAll_steps (edges : list EdgeData) (st st' st0 : Playground.State) (now : nat) :
  drawAll st edges now = Some st' -> steps st0 st -> steps st0 st'.
Proof.
  revert st now. induction edges as [| edge rest IH]; intros st now H Hsteps.
  - injection H as <-. exact Hsteps.
  - cbn [drawAll] in H. destruct (connectable st edge) eqn:C; [| discriminate].
    apply (IH _ _ H). eapply steps_then; [exact Hsteps |]. apply connect_step, C.
Qed.

Lemma snap_single (fieldId : string) (pos : Position) (mx my radius : R) :
  distance pos mx my <= radius -> snapSearch [(fieldId, pos)] mx my radius = Some fieldId.
Proof.
  intros Hnear. unfold snapSearch. cbn [fold_left]. unfold snapStep.
  cbn [fst snd belowMin andb].
  destruct (Rle_dec _ _) as [_ | Hfar]; [reflexivity | contradiction].
Qed.

Lemma leg_below_distance (pos : Position) (mx my : R) :
  pos_x pos - mx <= distance pos mx my.
Proof.
  unfold distance. cbn zeta.
  destruct (Rle_dec 0 (pos_x pos - mx)) as [Hpos | Hneg].
  - rewrite <- (sqrt_square (pos_x pos - mx)) at 1 by exact Hpos.
    apply sqrt_le_1_alt.
    pose proof (Rle_0_sqr (pos_y pos - my)) as Hsq. unfold Rsqr in Hsq.
    lra.
  - pose proof (sqrt_pos ((pos_x pos - mx) * (pos_x pos - mx)
                          + (pos_y pos - my) * (pos_y pos - my))). lra.
Qed.

(** C9 after a wheel notch in the middle of the drag.  The drag starts on
    the output of the first node at scale 1; the wheel zooms in to 1.1
    while the button is held; the pointer is then moved to client
    (1000, 500) and released.  In the viewport shown at that time the
    pointer is more than [40 / scale] away from the only anchor, yet the
    move handler, which still computes with the scale and offset of the
    render in which the drag started, snaps to that anchor, and the
    release adds an edge. *)
Lemma wheel_during_drag_adds_far_edge :
  snd dragStart
  = Some (mkDrag "node-1" "output-1-1" "output" 1 (mkPosition 0 0)
            [("input-3-2", mkPosition 1000 500)] [] None)
  /\ scale (fst dragStart) = 1
  /\ scale (snd movedAfterWheel) = 1.1
  /\ (forall fieldId pos,
        In (fieldId, pos) (fieldPositions (snd movedAfterWheel)) ->
        40 / scale (snd movedAfterWheel)
        < distance pos
            (pos_x (toCanvas (scale (snd movedAfterWheel)) (offset (snd movedAfterWheel))
                      (mkPosition (1000 - rect_left Examples.rect0)
                                  (500 - rect_top Examples.rect0))))
            (pos_y (toCanvas (scale (snd movedAfterWheel)) (offset (snd movedAfterWheel))
                      (mkPosition (1000 - rect_left Examples.rect0)
                                  (500 - rect_top Examples.rect0)))))
  /\ currentSnapCandidate (fst movedAfterWheel) = Some "input-3-2"
  /\ Playground.edges unwired = []
  /\ Playground.edges (snd releasedAfterWheel)
     = [mkEdge "edge-20" "node-1" "output-1-1" "node-2" "input-3-2"].
Proof.
  assert (Hclamp : Rmin (Rmax (1 + 0.1) MIN_ZOOM) MAX_ZOOM = 1.1).
  { rewrite clamp_identity; unfold MIN_ZOOM, MAX_ZOOM; lra. }
  assert (Hscale : scale (snd movedAfterWheel) = 1.1).
  { unfold movedAfterWheel, handleMouseMove, zoomedView, handleWheelEvent.
    cbn [snd setSnapFieldId setMousePosition setViewport scale dragStart fst
         handleFieldMouseDown].
    destruct (Rlt_dec 0 (-100)) as [Hlt | _]; [lra |].
    exact Hclamp. }
  assert (Hoffset : offset (snd movedAfterWheel)
                    = mkPosition (-1 * (1.1 - 1) / 1.1 + 0) (-1 * (1.1 - 1) / 1.1 + 0)).
  { unfold movedAfterWheel, handleMouseMove, zoomedView, handleWheelEvent.
    cbn [snd setSnapFieldId setMousePosition setViewport scale offset dragStart fst
         handleFieldMouseDown].
    destruct (Rlt_dec 0 (-100)) as [Hlt | _]; [lra |].
    cbn [setViewport offset scale pos_x pos_y].
    change (scale (fst dragStart)) with 1.
    change (offset (fst dragStart)) with (mkPosition 0 0).
    rewrite Hclamp. reflexivity. }
  assert (Hcandidate : currentSnapCandidate (fst movedAfterWheel) = Some "input-3-2").
  { unfold movedAfterWheel, handleMouseMove.
    cbn [fst setCandidate currentSnapCandidate].
    apply snap_single. unfold distance.
    cbn [pos_x pos_y startedDrag dragStart snd handleFieldMouseDown d_scale d_offset
         Examples.rect0 rect_left rect_top farAnchor scale offset].
    change (d_scale startedDrag) with 1.
    change (d_offset startedDrag) with (mkPosition 0 0). cbn [pos_x pos_y].
    replace ((1000 - ((1000 - 0) / 1 - 0)) * (1000 - ((1000 - 0) / 1 - 0))
             + (500 - ((500 - 0) / 1 - 0)) * (500 - ((500 - 0) / 1 - 0))) with 0 by field.
    rewrite sqrt_0. lra. }
  split; [reflexivity |]. split; [reflexivity |]. split; [exact Hscale |].
  split; [| split; [exact Hcandidate |]].
  - intros fieldId pos Hin. rewrite Hscale, Hoffset.
    assert (Hpos : pos = mkPosition 1000 500).
    { unfold movedAfterWheel, handleMouseMove, zoomedView, handleWheelEvent in Hin.
      cbn in Hin. destruct Hin as [Heq | []]. injection Heq as _ <-. reflexivity. }
    subst pos. eapply Rlt_le_trans; [| apply leg_below_distance].
    unfold toCanvas. cbn [pos_x pos_y Examples.rect0 rect_left rect_top].
    apply (Rmult_lt_reg_r 1.1); [lra |].
    replace (40 / 1.1 * 1.1) with 40 by (field; lra).
    replace ((1000 - ((1000 - 0) / 1.1 - (-1 * (1.1 - 1) / 1.1 + 0))) * 1.1)
      with (1000 * 1.1 - 1000 - (1.1 - 1)) by (field; lra).
    lra.
  - split; [reflexivity |].
    unfold releasedAfterWheel, release, handleMouseUp. rewrite Hcandidate.
    reflexivity.
Qed.

Lemma text_agent_graph_drawn : steps initial Examples.textAgentGraph.
Proof.
  apply (drawAll_steps Examples.textAgentEdges unwired Examples.textAgentGraph initial 10).
  - vm_compute. reflexivity.
  - apply (placing_steps [("Text-Input-Tool", 1%nat); ("Text-Agent", 2%nat); ("End", 3%nat)]
             initial (steps_refl initial)).
Qed.

(** C3 at the removal of a node with two edges.  The text-agent graph is
    built on the page from the empty canvas, by three additions and two
    connection gestures, and none of its edges dangles.  The click on the
    delete button of the Text-Agent node is one operation; the state it
    leaves to be rendered no longer has the node but still holds the edge
    from the first node into it: an edge whose target is not a current
    node.  Only the cleanup effect that runs after that render removes
    it. *)
Lemma delete_click_leaves_dangling_edge :
  steps initial Examples.textAgentGraph
  /\ edgesLive Examples.textAgentGraph
  /\ In Examples.textAgentNode (nodes Examples.textAgentGraph)
  /\ Examples.afterDeleteClick
     = commit Examples.textAgentGraph
         (nodeDeleteClick (edges Examples.textAgentGraph) Examples.textAgentNode)
  /\ In (mkEdge "edge-10" "node-1" "output-1-1" "node-2" "input-3-2")
        (edges Examples.afterDeleteClick)
  /\ ~ In "node-2" (map n_id (nodes Examples.afterDeleteClick))
  /\ ~ edgesLive Examples.afterDeleteClick
  /\ edgesLive (settle Examples.textAgentGraph Examples.afterDeleteClick).
Proof.
  assert (Hedge : In (mkEdge "edge-10" "node-1" "output-1-1" "node-2" "input-3-2")
                     (edges Examples.afterDeleteClick)) by (left; reflexivity).
  assert (Hgone : ~ In "node-2" (map n_id (nodes Examples.afterDeleteClick))).
  { change (map n_id (nodes Examples.afterDeleteClick)) with ["node-1"; "node-3"].
    intros [H | [H | []]]; discriminate. }
  split; [exact text_agent_graph_drawn |].
  split; [intros edge [<- | [<- | []]]; simpl; tauto |].
  split; [right; left; reflexivity |].
  split; [reflexivity |].
  split; [exact Hedge |]. split; [exact Hgone |].
  split.
  - intros Hlive. apply Hgone. exact (proj2 (Hlive _ Hedge)).
  - change (settle Examples.textAgentGraph Examples.afterDeleteClick)
      with (Playground.mkState (nodes Examples.afterDeleteClick) []).
    intros edge [].
Qed.

Lemma sameList_eq (l1 l2 : list string) : sameList l1 l2 = true -> l1 = l2.
Proof.
  revert l2. induction l1 as [| a l1 IH]; intros [| b l2] H; try discriminate;
    [reflexivity |].
  cbn [sameList] in H. apply andb_true_iff in H. destruct H as [Hab Hrest].
  apply String.eqb_eq in Hab. subst b. f_equal. apply IH, Hrest.
Qed.

Lemma noFile_message (played : Played) :
  noFileb played = true ->
  exists message,
    played = Runs (Throws message) /\ Js.startsWith message "No file selected" = true.
Proof.
  intros H. destruct played as [message | [message | caller target]]; try discriminate.
  exists message. split; [reflexivity | exact H].
Qed.

(** Every pattern of the catalog other than json-processor and
    local-filesystem can be matched on the page, starting from the empty
    canvas: one node of each required kind is added from the sidebar, and
    each required connection is drawn by a gesture from the output to the
    input whose names contain the expected ones.  The matcher then accepts
    the pattern and the play button enters the branch of the pattern.  With
    the inputs as the sidebar left them, the three branches that read a
    file (csv-agent, rag, email-marketing) throw their "No file selected"
    error and every other branch issues its request; once a file with
    content has been chosen in the file inputs, every branch issues its
    request. *)
Theorem other_patterns_are_matched (p : WorkflowPattern) :
  In p workflowPatterns ->
  p_id p <> "json-processor" -> p_id p <> "local-filesystem" ->
  exists st,
    drawn p = Some st
    /\ steps initial st
    /\ map n_type (nodes st) = requiredNodeTypes p
    /\ length (Playground.edges st) = length (p_connections p)
    /\ checkWorkflowPattern (nodes st) (Playground.edges st) (p_id p) = true
    /\ handlePlayClick st = PatternRoute (mkDetected (p_id p) (endpoint p))
    /\ ((In (p_id p) ["csv-agent"; "rag"; "email-marketing"]
         /\ exists message,
              handlePlayClickOutcome st = Runs (Throws message)
              /\ Js.startsWith message "No file selected" = true)
        \/ (~ In (p_id p) ["csv-agent"; "rag"; "email-marketing"]
            /\ exists caller target,
                 handlePlayClickOutcome st = Runs (Requests caller target)))
    /\ handlePlayClick (pickFiles st) = PatternRoute (mkDetected (p_id p) (endpoint p))
    /\ exists caller target,
         handlePlayClickOutcome (pickFiles st) = Runs (Requests caller target).
Proof.
  intros Hp Hj Hl.
  assert (Hall : allButTwoDrawn = true) by (vm_compute; reflexivity).
  unfold allButTwoDrawn in Hall. rewrite forallb_forall in Hall.
  specialize (Hall p Hp).
  apply String.eqb_neq in Hj. apply String.eqb_neq in Hl. rewrite Hj, Hl in Hall.
  cbn [orb] in Hall. unfold drawnOk in Hall.
  destruct (drawn p) as [st |] eqn:D; [| discriminate].
  apply andb_true_iff in Hall. destruct Hall as [Hall Hpicked].
  apply andb_true_iff in Hall. destruct Hall as [Hall Hroute'].
  apply andb_true_iff in Hall. destruct Hall as [Hall Hout].
  apply andb_true_iff in Hall. destruct Hall as [Hall Hroute].
  apply andb_true_iff in Hall. destruct Hall as [Hall Hcheck].
  apply andb_true_iff in Hall. destruct Hall as [Hkinds Hlen].
  assert (Hrouted : forall st', routed st' p = true ->
            handlePlayClick st' = PatternRoute (mkDetected (p_id p) (endpoint p))).
  { intros st' H. unfold routed in H.
    destruct (handlePlayClick st') as [| | detected | url validEdges]; try discriminate.
    apply andb_true_iff in H. destruct H as [Hid Hend].
    apply String.eqb_eq in Hid. apply String.eqb_eq in Hend.
    destruct detected as [id url]. cbn [patternId d_endpoint] in *. subst. reflexivity. }
  assert (Hrequests : forall played, requestsb played = true ->
            exists caller target, played = Runs (Requests caller target)).
  { intros [message | [message | caller target]] H; try discriminate.
    exists caller, target. reflexivity. }
  exists st. split; [reflexivity |].
  split; [apply (drawAll_steps _ _ _ _ _ D), placing_steps, steps_refl |].
  split; [apply sameList_eq, Hkinds |].
  split; [apply Nat.eqb_eq, Hlen |].
  split; [exact Hcheck |].
  split; [apply Hrouted, Hroute |].
  split; [| split; [apply Hrouted, Hroute' | apply Hrequests, Hpicked]].
  unfold readsFile in Hout.
  destruct (String.eqb_spec (p_id p) "csv-agent") as [E1 | N1];
    [| destruct (String.eqb_spec (p_id p) "rag") as [E2 | N2];
       [| destruct (String.eqb_spec (p_id p) "email-marketing") as [E3 | N3]]];
    cbn [orb] in Hout.
  - left. split; [left; auto |]. apply noFile_message, Hout.
  - left. split; [right; left; auto |]. apply noFile_message, Hout.
  - left. split; [right; right; left; auto |]. apply noFile_message, Hout.
  - right. split; [| apply Hrequests, Hout].
    intros [H | [H | [H | []]]]; congruence.
Qed.

Lemma other_patterns_are_matched_witness :
  In Examples.textAgentPattern workflowPatterns
  /\ p_id Examples.textAgentPattern <> "json-processor"
  /\ p_id Examples.textAgentPattern <> "local-filesystem"
  /\ exists st,
       drawn Examples.textAgentPattern = Some st
       /\ steps initial st
       /\ checkWorkflowPattern (nodes st) (Playground.edges st)
            (p_id Examples.textAgentPattern) = true.
Proof.
  assert (Hp : In Examples.textAgentPattern workflowPatterns).
  { unfold workflowPatterns, Examples.textAgentPattern.
    repeat (first [left; reflexivity | right]). }
  assert (Hj : p_id Examples.textAgentPattern <> "json-processor") by discriminate.
  assert (Hl : p_id Examples.textAgentPattern <> "local-filesystem") by discriminate.
  split; [exact Hp |]. split; [exact Hj |]. split; [exact Hl |].
  destruct (other_patterns_are_matched Examples.textAgentPattern Hp Hj Hl)
    as (st & Hdrawn & Hsteps & _ & _ & Hcheck & _).
  exists st. auto.
Defined.

Lemma play_routes_witness :
  length (Playground.edges csvAgentGraph) = 3%nat
  /\ handlePlayClickOutcome csvAgentGraph
     = Runs (Throws "No file selected for CSV Agent. Please upload a file.")
  /\ ("No file selected for CSV Agent. Please upload a file."
      = "Workflow must have an End component to complete the execution."
      \/ In "No file selected for CSV Agent. Please upload a file."
           [ "No file selected for CSV Agent. Please upload a file.";
             "Please select a valid CSV file with content (not just a filename)";
             "No file selected for Knowledge Base";
             "No file selected for Email Marketing workflow" ]).
Proof.
  assert (H : handlePlayClickOutcome csvAgentGraph
              = Runs (Throws "No file selected for CSV Agent. Please upload a file."))
    by (vm_compute; reflexivity).
  split; [vm_compute; reflexivity |]. split; [exact H |].
  exact (proj2 (proj2 (proj2 (proj2 (proj2 (proj2 (proj2 (play_routes csvAgentGraph)))))))
           _ H).
Defined.

End Gestures.
